(** * shadowsocks-go: SOCKS5 protocol engine and UDP session relay

    A shallow embedding of the server half of package [socks5]
    (method selection, username/password sub-negotiation, request
    handling, the prefixed reader and the error types) and of the
    shutdown path of [service.UDPSessionRelay], with the properties the
    specification states about them. *)

From Stdlib Require Import ZArith List Bool Lia Strings.Byte String.
From stdpp Require Import base option list gmap strings.
Import ListNotations.

Set Default Proof Using "Type".
Local Open Scope nat_scope.

(** ** Bytes *)

#[global] Instance byte_eq_dec : EqDecision byte := Byte.byte_eq_dec.

(** Go's conversion [byte(n)] of a non-negative [int]: the low eight bits. *)
Definition byte_of_int (n : nat) : byte :=
  match Byte.of_nat (n mod 256) with
  | Some x => x
  | None => x00
  end.

(** Go's conversion [int(x)] of a byte. *)
Definition int_of_byte (x : byte) : nat := Byte.to_nat x.

(** The same two conversions for values held in [Z]: [byte(z)] keeps the
    low eight bits, [uint16(x)] of a byte is its value. *)
Definition byte_of_Z (z : Z) : byte :=
  match Byte.of_N (Z.to_N (Z.land z 255)) with
  | Some x => x
  | None => x00
  end.

Definition Z_of_byte (x : byte) : Z := Z.of_N (Byte.to_N x).

(** Go's [string(bs)] for a byte slice and [[]byte(s)] for a string. *)
Definition string_of_bytes (bs : list byte) : string := string_of_list_byte bs.
Definition bytes_of_string (s : string) : list byte := list_byte_of_string s.

(** Go's [len(s)] of a string counts its bytes. *)
Definition len_string (s : string) : nat := length (bytes_of_string s).

(** [copy(b[off:], data)] when the destination has room: the bytes of
    [data] overwrite [b] from index [off] on; [len(b)] is unchanged. *)
Definition store (b : list byte) (off : nat) (data : list byte) : list byte :=
  take off b ++ take (length b - off) data ++ drop (off + length data) b.

(** The slice expression [b[lo:hi]]. *)
Definition slice (b : list byte) (lo hi : nat) : list byte :=
  take (hi - lo) (drop lo b).

(** [bytes.IndexByte(s, c)]: index of the first [c] in [s], or -1. *)
Fixpoint bytes_IndexByte (s : list byte) (c : byte) : Z :=
  match s with
  | [] => (-1)%Z
  | x :: s' =>
      if decide (x = c) then 0%Z
      else match bytes_IndexByte s' c with
           | Zneg _ => (-1)%Z
           | i => (i + 1)%Z
           end
  end.

(** ** Constants of RFC 1928 and RFC 1929 *)

Definition Version : byte := x05.

Definition MethodNoAuthenticationRequired : byte := x00.
Definition MethodGSSAPI : byte := x01.
Definition MethodUsernamePassword : byte := x02.
Definition MethodNoAcceptable : byte := xff.

Definition CmdConnect : byte := x01.
Definition CmdBind : byte := x02.
Definition CmdUDPAssociate : byte := x03.

Definition ReplySucceeded : byte := x00.
Definition ReplyGeneralSocksServerFailure : byte := x01.
Definition ReplyConnectionNotAllowedByRuleset : byte := x02.
Definition ReplyNetworkUnreachable : byte := x03.
Definition ReplyHostUnreachable : byte := x04.
Definition ReplyConnectionRefused : byte := x05.
Definition ReplyTTLExpired : byte := x06.
Definition ReplyCommandNotSupported : byte := x07.
Definition ReplyAddressTypeNotSupported : byte := x08.

Definition UsernamePasswordAuthVersion : byte := x01.

(** ** Errors *)

(** The error values and error types package [socks5] declares. *)
Inductive socks5_error : Type :=
  | UnsupportedVersionError (v : byte)
  | UnsupportedAuthMethodError (m : byte)
  | UnsupportedCommandError (c : byte)
  | ReplyError (r : byte)
  | UnsupportedUsernamePasswordAuthVersionError (v : byte)
  | ErrUsernameLengthOutOfRange
  | ErrPasswordLengthOutOfRange
  | ErrNoAcceptableAuthMethod
  | ErrIncorrectUsernamePassword
  | ErrUDPAssociateDone
  | errZeroNMETHODS
  | errZeroULEN
  | errZeroPLEN.

(** Go's [error] interface, as far as the engine meets it: its own
    errors, the sentinels of the standard library it is compared with,
    the address codec's failures, and whatever else the transport
    reports. *)
Inductive error : Type :=
  | Socks5 (e : socks5_error)
  | errors_ErrUnsupported
  | io_EOF
  | io_ErrUnexpectedEOF
  | zerocopy_ErrAcceptRequiresTCPConn
  | ErrUnsupportedAddressType (atyp : byte)
  | ErrInvalidDomainLength
  | ErrShortAddress
  | TransportError (code : nat).

Coercion Socks5 : socks5_error >-> error.

#[global] Instance socks5_error_eq_dec : EqDecision socks5_error.
Proof. solve_decision. Defined.

#[global] Instance error_eq_dec : EqDecision error.
Proof. solve_decision. Defined.

(** The [Is(target error) bool] method, for the types that declare one. *)
Definition Is_method (e : error) : option (error -> bool) :=
  match e with
  | Socks5 (UnsupportedVersionError _) =>
      Some (fun target => bool_decide (target = errors_ErrUnsupported))
  | Socks5 (UnsupportedAuthMethodError _) =>
      Some (fun target => bool_decide (target = errors_ErrUnsupported))
  | Socks5 (UnsupportedCommandError _) =>
      Some (fun target => bool_decide (target = errors_ErrUnsupported))
  | Socks5 (UnsupportedUsernamePasswordAuthVersionError _) =>
      Some (fun target => bool_decide (target = errors_ErrUnsupported))
  | _ => None
  end.

(** [errors.Is(err, target)] for a non-nil [err] and [target]: none of
    these errors wraps another, so the chain has one link; the link
    matches when it equals [target] or its [Is] method says so. *)
Definition errors_Is (err target : error) : bool :=
  bool_decide (err = target)
  || match Is_method err with
     | Some matches => matches target
     | None => false
     end.

(** ** Readers *)

(** What one [Read(p)] call yields: the bytes stored at the front of
    [p] (their number is Go's [n]) and the error. *)
Definition ReadResult : Type := list byte * option error.

(** [io.Reader]: [Read r n] is [r.Read(p)] with [len(p) = n]. *)
Class Reader (R : Type) := Read : R → nat → R * ReadResult.

(** The contract of [io.Reader]: never more than [len(p)] bytes, and a
    call with room in [p] blocks until it has a byte or an error. *)
Class LawfulReader (R : Type) `{Reader R} := {
  Read_length : ∀ (r r' : R) n d e, Read r n = (r', (d, e)) → length d ≤ n;
  Read_progress : ∀ (r r' : R) n d e,
    0 < n → Read r n = (r', (d, e)) → d ≠ [] ∨ e ≠ None
}.

(** The loop of [io.ReadAtLeast(r, buf, min)], with [len(buf) = size]:
    [for n < min && err == nil { nn, err = r.Read(buf[n:]); n += nn }].
    [got] holds the [n] bytes read so far.  Every turn of a lawful
    reader adds a byte or ends the loop, so [fuel = min] turns are
    enough; [None] is the loop still running when the fuel is spent. *)
Fixpoint ReadAtLeast_loop {R} `{Reader R} (fuel : nat) (r : R)
    (size min : nat) (got : list byte) (err : option error)
    : option (R * ReadResult) :=
  if (length got <? min) && bool_decide (err = None) then
    match fuel with
    | 0 => None
    | S fuel' =>
        let '(r', (d, e)) := Read r (size - length got) in
        ReadAtLeast_loop fuel' r' size min (got ++ d) e
    end
  else Some (r, (got, err)).

(** The end of [io.ReadAtLeast]: [if n >= min { err = nil } else if
    n > 0 && err == EOF { err = ErrUnexpectedEOF }]. *)
Definition ReadAtLeast_result (min : nat) (res : ReadResult) : ReadResult :=
  let '(got, err) := res in
  if min <=? length got then (got, None)
  else if (0 <? length got) && bool_decide (err = Some io_EOF)
       then (got, Some io_ErrUnexpectedEOF)
       else (got, err).

(** [io.ReadFull(r, buf)] with [len(buf) = n], that is
    [io.ReadAtLeast(r, buf, len(buf))]. *)
Definition io_ReadFull {R} `{Reader R} (r : R) (n : nat) : R * ReadResult :=
  match ReadAtLeast_loop n r n n [] None with
  | Some (r', res) => (r', ReadAtLeast_result n res)
  | None => (r, ([], None))
  end.

(** ** Addresses *)

(** [netip.Addr] and [netip.AddrPort]. *)
Inductive netip_Addr : Type :=
  | IPv4 (a0 a1 a2 a3 : byte)
  | IPv6 (a : list byte).

Record netip_AddrPort : Type := mkAddrPort {
  ap_addr : netip_Addr;
  ap_port : Z
}.

(** [conn.Addr]: an IP endpoint, a domain name with a port, or the zero
    value [conn.Addr{}]. *)
Inductive conn_Addr : Type :=
  | AddrZero
  | AddrIP (ap : netip_AddrPort)
  | AddrDomain (host : string) (port : Z).

#[global] Instance netip_Addr_eq_dec : EqDecision netip_Addr.
Proof. solve_decision. Defined.
#[global] Instance netip_AddrPort_eq_dec : EqDecision netip_AddrPort.
Proof. solve_decision. Defined.
#[global] Instance conn_Addr_eq_dec : EqDecision conn_Addr.
Proof. solve_decision. Defined.

(** ** The transport *)

(** An [io.ReadWriter] as the server sees it.  [rx] scripts what the
    peer and the network will deliver: each entry is a batch of bytes
    that arrives together and the error, if any, that arrives with it;
    past the script the stream is at end of file.  [tx] logs the
    argument of every [Write] issued, oldest first, and [txErr] scripts
    the errors of the [Write] calls to come (none once it is used up).
    [local] is the local endpoint when the value is a [net.TCPConn]
    and [None] for any other [io.ReadWriter]. *)
Record Conn : Type := mkConn {
  rx : list (list byte * option error);
  tx : list (list byte);
  txErr : list (option error);
  local : option netip_AddrPort
}.

(** One [Read] on the socket with room for [n] bytes.  It takes at most
    [n] bytes of the batch at the head of the script; an empty batch
    without an error is nothing to wake up for and is skipped. *)
Fixpoint rx_read (script : list (list byte * option error)) (n : nat)
    : list (list byte * option error) * ReadResult :=
  match script with
  | [] => ([], ([], Some io_EOF))
  | (d, e) :: rest =>
      if n <? length d then ((drop n d, e) :: rest, (take n d, None))
      else match d, e with
           | [], None => rx_read rest n
           | _, _ => (rest, (d, e))
           end
  end.

Definition conn_Read (c : Conn) (n : nat) : Conn * ReadResult :=
  let '(script, res) := rx_read (rx c) n in
  (mkConn script (tx c) (txErr c) (local c), res).

#[global] Instance Conn_Reader : Reader Conn := conn_Read.

(** [c.Write(p)]. *)
Definition conn_Write (c : Conn) (p : list byte) : Conn * option error :=
  match txErr c with
  | [] => (mkConn (rx c) (tx c ++ [p]) [] (local c), None)
  | e :: es => (mkConn (rx c) (tx c ++ [p]) es (local c), e)
  end.

(** ** The prefixed reader *)

(** [prefixedReader]: the bytes of [prefix] come first, then those of
    the underlying reader [r]. *)
Record prefixedReader (R : Type) : Type := mkPrefixedReader {
  prefix : list byte;
  r : R
}.
Arguments mkPrefixedReader {R} _ _.
Arguments prefix {R} _.
Arguments r {R} _.

Definition newPrefixedReader {R} (prefix : list byte) (r : R) : prefixedReader R :=
  mkPrefixedReader prefix r.

(** The [Read] method of [prefixedReader] (pointer receiver):
    [if len(r.prefix) > 0 { n = copy(p, r.prefix); r.prefix = r.prefix[n:];
    return n, nil }; return r.r.Read(p)]. *)
Definition prefixedReader_Read {R} `{Reader R} (pr : prefixedReader R) (n : nat)
    : prefixedReader R * ReadResult :=
  if 0 <? length (prefix pr) then
    let copied := take n (prefix pr) in
    (mkPrefixedReader (drop (length copied) (prefix pr)) (r pr), (copied, None))
  else
    let '(r', res) := Read (r pr) n in
    (mkPrefixedReader (prefix pr) r', res).

#[global] Instance prefixedReader_Reader {R} `{Reader R} : Reader (prefixedReader R) :=
  prefixedReader_Read.

(** ** The address codec *)

(** Modelled from the spec: the address type octets of the wire layout
    [ATYP(1) | ADDR(variable) | PORT(2, big-endian)], which the address
    codec (absent from the sources at hand) declares. *)
Definition AtypIPv4 : byte := x01.
Definition AtypDomainName : byte := x03.
Definition AtypIPv6 : byte := x04.

(** Modelled from the spec: [IPv4AddrLen], the length of the IPv4 form
    (ATYP, four address octets, port), and [MaxAddrLen], the worst case
    (domain form with a 255-byte host plus port). *)
Definition IPv4AddrLen : nat := 1 + 4 + 2.
Definition IPv6AddrLen : nat := 1 + 16 + 2.
Definition MaxAddrLen : nat := 1 + 1 + 255 + 2.

(** Modelled from the spec: [IPv4UnspecifiedAddr], the SOCKS address of
    [0.0.0.0:0], the placeholder of replies without a bound address. *)
Definition IPv4UnspecifiedAddr : list byte := [x01; x00; x00; x00; x00; x00; x00].

(** A port, a [uint16], in network byte order
    ([binary.BigEndian.PutUint16]), and back. *)
Definition port_bytes (port : Z) : list byte :=
  [byte_of_Z (Z.shiftr port 8); byte_of_Z port].

Definition port_of_bytes (hi lo : byte) : Z :=
  Z.lor (Z.shiftl (Z_of_byte hi) 8) (Z_of_byte lo).

(** Modelled from the spec: [AppendAddrFromAddrPort(b, addrPort)] of the
    absent address codec appends the SOCKS address of an IP endpoint to
    [b]: ATYP 1 and four octets, or ATYP 4 and sixteen, then the port,
    big-endian. *)
Definition AppendAddrFromAddrPort (b : list byte) (addrPort : netip_AddrPort) : list byte :=
  match ap_addr addrPort with
  | IPv4 a0 a1 a2 a3 => b ++ AtypIPv4 :: [a0; a1; a2; a3] ++ port_bytes (ap_port addrPort)
  | IPv6 a => b ++ AtypIPv6 :: take 16 (a ++ replicate 16 x00) ++ port_bytes (ap_port addrPort)
  end.

(** Modelled from the spec: [AppendFromReader(b, r)] of the absent
    address codec.  It reads ATYP and the first address octet, then the
    minimum that completes the address, and appends all of it to [b].
    Unknown ATYP, a domain of length 0 and a reader that ends early
    fail; the last with the error of [io.ReadFull]. *)
Definition AppendFromReader {R} `{Reader R} (b : list byte) (r : R)
    : R * (list byte * option error) :=
  let '(r1, (hd, err)) := io_ReadFull r 2 in
  match err, hd with
  | Some e, _ => (r1, ([], Some e))
  | None, [atyp; x] =>
      let more :=
        if decide (atyp = AtypIPv4) then inl (IPv4AddrLen - 2)
        else if decide (atyp = AtypIPv6) then inl (IPv6AddrLen - 2)
        else if decide (atyp = AtypDomainName) then
          if decide (int_of_byte x = 0) then inr ErrInvalidDomainLength
          else inl (1 + 1 + int_of_byte x + 2 - 2)
        else inr (ErrUnsupportedAddressType atyp) in
      match more with
      | inr e => (r1, ([], Some e))
      | inl n =>
          let '(r2, (tl, err)) := io_ReadFull r1 n in
          match err with
          | Some e => (r2, ([], Some e))
          | None => (r2, (b ++ hd ++ tl, None))
          end
      end
  | None, _ => (r1, ([], Some io_ErrUnexpectedEOF))
  end.

(** Modelled from the spec: [ConnAddrFromSlice(b)] of the absent
    address codec ([ToConnAddr] in the spec) parses a SOCKS address
    into a [conn.Addr] and returns the number of bytes it consumed;
    unknown ATYP, domain length 0 and a buffer too small for the
    declared fields are rejected. *)
Definition ConnAddrFromSlice (b : list byte) : conn_Addr * nat * option error :=
  match b with
  | [] => (AddrZero, 0, Some ErrShortAddress)
  | atyp :: body =>
      if decide (atyp = AtypIPv4) then
        match body with
        | a0 :: a1 :: a2 :: a3 :: hi :: lo :: _ =>
            (AddrIP (mkAddrPort (IPv4 a0 a1 a2 a3) (port_of_bytes hi lo)), IPv4AddrLen, None)
        | _ => (AddrZero, 0, Some ErrShortAddress)
        end
      else if decide (atyp = AtypIPv6) then
        match drop 16 body with
        | hi :: lo :: _ =>
            (AddrIP (mkAddrPort (IPv6 (take 16 body)) (port_of_bytes hi lo)), IPv6AddrLen, None)
        | _ => (AddrZero, 0, Some ErrShortAddress)
        end
      else if decide (atyp = AtypDomainName) then
        match body with
        | [] => (AddrZero, 0, Some ErrShortAddress)
        | n :: host =>
            if decide (int_of_byte n = 0) then (AddrZero, 0, Some ErrInvalidDomainLength)
            else match drop (int_of_byte n) host with
                 | hi :: lo :: _ =>
                     (AddrDomain (string_of_bytes (take (int_of_byte n) host)) (port_of_bytes hi lo),
                      1 + 1 + int_of_byte n + 2, None)
                 | _ => (AddrZero, 0, Some ErrShortAddress)
                 end
        end
      else (AddrZero, 0, Some (ErrUnsupportedAddressType atyp))
  end.

(** ** Credentials *)

(** [UserInfo]: a username/password pair. *)
Record UserInfo : Type := mkUserInfo {
  Username : string;
  Password : string
}.

(** [UserInfo.Validate]. *)
Definition Validate (u : UserInfo) : option error :=
  if bool_decide (len_string (Username u) = 0) || (255 <? len_string (Username u))
  then Some (Socks5 ErrUsernameLengthOutOfRange)
  else if bool_decide (len_string (Password u) = 0) || (255 <? len_string (Password u))
  then Some (Socks5 ErrPasswordLengthOutOfRange)
  else None.

(** [UserInfo.AuthMsgLength]. *)
Definition AuthMsgLength (u : UserInfo) : nat :=
  1 + 1 + len_string (Username u) + 1 + len_string (Password u).

(** [UserInfo.AppendAuthMsg]: [slices.Grow] only reserves capacity, the
    four [append]s build VER, ULEN, UNAME, PLEN, PASSWD. *)
Definition AppendAuthMsg (u : UserInfo) (b : list byte) : list byte :=
  let b := b ++ [UsernamePasswordAuthVersion; byte_of_int (len_string (Username u))] in
  let b := b ++ bytes_of_string (Username u) in
  let b := b ++ [byte_of_int (len_string (Password u))] in
  let b := b ++ bytes_of_string (Password u) in
  b.

(** ** A handler's view of the world *)

(** The two objects a server handler works on: the stream [rw] and the
    scratch buffer [b], both mutated in place. *)
Record St : Type := mkSt {
  rw : Conn;
  b : list byte
}.

(** How a statement ends: it falls through to the next one with a value,
    the enclosing function returns, or the goroutine panics. *)
Inductive outcome (Ret A : Type) : Type :=
  | Next (a : A)
  | Returned (v : Ret)
  | Panicked (msg : string).
Arguments Next {Ret A} _.
Arguments Returned {Ret A} _.
Arguments Panicked {Ret A} _.

(** Statements of a function whose results have type [Ret]. *)
Definition M (Ret A : Type) : Type := St → St * outcome Ret A.

#[global] Instance M_ret {Ret} : MRet (M Ret) := λ A a s, (s, Next a).

#[global] Instance M_bind {Ret} : MBind (M Ret) := λ A B k m s,
  match m s with
  | (s', Next a) => k a s'
  | (s', Returned v) => (s', Returned v)
  | (s', Panicked msg) => (s', Panicked msg)
  end.

Definition Return {Ret A} (v : Ret) : M Ret A := λ s, (s, Returned v).
Definition panic {Ret A} (msg : string) : M Ret A := λ s, (s, Panicked msg).

(** [if cond { stmt }]. *)
Definition when {Ret} (cond : bool) (stmt : M Ret ()) : M Ret () :=
  if cond then stmt else mret ().

(** [if err != nil { return f(err) }]. *)
Definition check {Ret} (err : option error) (f : error → Ret) : M Ret () :=
  match err with
  | Some e => Return (f e)
  | None => mret ()
  end.

(** [len(b)]. *)
Definition len_b {Ret} : M Ret nat := λ s, (s, Next (length (b s))).

(** The element [b[i]]; out of range panics. *)
Definition at_b {Ret} (i : nat) : M Ret byte := λ s,
  match b s !! i with
  | Some x => (s, Next x)
  | None => (s, Panicked "index out of range")
  end.

(** The assignment [b[i] = x]. *)
Definition set_b {Ret} (i : nat) (x : byte) : M Ret () := λ s,
  if i <? length (b s) then (mkSt (rw s) (<[i := x]> (b s)), Next ())
  else (s, Panicked "index out of range").

(** The slice [b[lo:hi]], as a value; out of range panics. *)
Definition slice_b {Ret} (lo hi : nat) : M Ret (list byte) := λ s,
  if (lo <=? hi) && (hi <=? length (b s)) then (s, Next (slice (b s) lo hi))
  else (s, Panicked "slice bounds out of range").

(** [copy(b[lo:], data)] for [data] that fits. *)
Definition copy_b {Ret} (lo : nat) (data : list byte) : M Ret () := λ s,
  if lo + length data <=? length (b s) then (mkSt (rw s) (store (b s) lo data), Next ())
  else (s, Panicked "slice bounds out of range").

(** [_, err := io.ReadFull(rw, b[lo:hi])]. *)
Definition ReadFull_b {Ret} (lo hi : nat) : M Ret (option error) := λ s,
  if (lo <=? hi) && (hi <=? length (b s)) then
    let '(c, (d, err)) := io_ReadFull (rw s) (hi - lo) in
    (mkSt c (store (b s) lo d), Next err)
  else (s, Panicked "slice bounds out of range").

(** [_, err := rw.Read(b[lo:hi])]. *)
Definition Read_b {Ret} (lo hi : nat) : M Ret (option error) := λ s,
  if (lo <=? hi) && (hi <=? length (b s)) then
    let '(c, (d, err)) := Read (rw s) (hi - lo) in
    (mkSt c (store (b s) lo d), Next err)
  else (s, Panicked "slice bounds out of range").

(** [_, err := rw.Write(b[lo:hi])]. *)
Definition Write_b {Ret} (lo hi : nat) : M Ret (option error) := λ s,
  if (lo <=? hi) && (hi <=? length (b s)) then
    let '(c, err) := conn_Write (rw s) (slice (b s) lo hi) in
    (mkSt c (b s), Next err)
  else (s, Panicked "slice bounds out of range").

(** What a call leaves behind: the result values or a panic. *)
Inductive result (Ret : Type) : Type :=
  | Ok (v : Ret)
  | Panic (msg : string).
Arguments Ok {Ret} _.
Arguments Panic {Ret} _.

(** Calling a function body on [rw] and [b]. *)
Definition call {Ret} (body : M Ret Ret) (c : Conn) (buf : list byte) : St * result Ret :=
  match body (mkSt c buf) with
  | (s, Next v) => (s, Ok v)
  | (s, Returned v) => (s, Ok v)
  | (s, Panicked msg) => (s, Panic msg)
  end.

(** ** The server half of the engine *)

(** [replyWithStatus(w, b, status)]. *)
Definition replyWithStatus {Ret} (status : byte) : M Ret (option error) :=
  let replyLen := 3 + IPv4AddrLen in
  _ ← slice_b 0 replyLen;
  set_b 0 Version;;
  set_b 1 status;;
  set_b 2 x00;;
  copy_b 3 IPv4UnspecifiedAddr;;
  Write_b 0 replyLen.

(** [serverHandleMethodSelection(rw, b, method)]. *)
Definition serverHandleMethodSelection (method : byte) : M (option error) (option error) :=
  n ← len_b;
  when (n <? 1 + 1 + 255) (panic "serverHandleMethodSelection: buffer too small");;
  (* Read VER, NMETHODS, and the first METHOD. *)
  err ← ReadFull_b 0 3;
  check err Some;;
  (* Check VER. *)
  b0 ← at_b 0;
  when (bool_decide (b0 ≠ Version)) (Return (Some (Socks5 (UnsupportedVersionError b0))));;
  (* Check NMETHODS and read the remaining METHODS. *)
  b1 ← at_b 1;
  let nmethods := int_of_byte b1 in
  methodIndex ←
    match nmethods with
    | 0 => Return (Some (Socks5 errZeroNMETHODS))
    | 1 =>
        b2 ← at_b 2;
        mret (if bool_decide (b2 ≠ method) then (-1)%Z else 0%Z)
    | _ =>
        err ← ReadFull_b 3 (3 + nmethods - 1);
        check err Some;;
        methods ← slice_b 2 (2 + nmethods);
        mret (bytes_IndexByte methods method)
    end;
  when (bool_decide (methodIndex = (-1)%Z))
    (set_b 1 MethodNoAcceptable;;
     _ ← Write_b 0 2;
     Return (Some (Socks5 ErrNoAcceptableAuthMethod)));;
  (* Write method selection message. *)
  set_b 1 method;;
  err ← Write_b 0 2;
  mret err.

(** [serverHandleUsernamePassword(rw, b, userInfoByUsername)]. *)
Definition serverHandleUsernamePassword (userInfoByUsername : gmap string UserInfo)
    : M (string * option error) (string * option error) :=
  n ← len_b;
  when (n <? 1 + 1 + 255 + 1) (panic "serverHandleUsernamePassword: buffer too small");;
  (* Read VER, ULEN, and 2 more bytes. *)
  err ← ReadFull_b 0 4;
  check err (λ e, (EmptyString, Some e));;
  (* Check VER. *)
  b0 ← at_b 0;
  when (bool_decide (b0 ≠ UsernamePasswordAuthVersion))
    (Return (EmptyString, Some (Socks5 (UnsupportedUsernamePasswordAuthVersionError b0))));;
  (* Check ULEN. *)
  b1 ← at_b 1;
  let ulen := int_of_byte b1 in
  when (bool_decide (ulen = 0)) (Return (EmptyString, Some (Socks5 errZeroULEN)));;
  (* Read the remaining UNAME, PLEN. *)
  when (1 <? ulen)
    (err ← ReadFull_b 4 (4 + ulen - 1);
     check err (λ e, (EmptyString, Some e)));;
  let plenIndex := 2 + ulen in
  (* Check UNAME. *)
  uname ← slice_b 2 plenIndex;
  let lookup := userInfoByUsername !! string_of_bytes uname in
  let userInfo := default (mkUserInfo EmptyString EmptyString) lookup in
  let ok := bool_decide (is_Some lookup) in
  (* Check PLEN. *)
  bp ← at_b plenIndex;
  let plen := int_of_byte bp in
  when (bool_decide (plen = 0)) (Return (EmptyString, Some (Socks5 errZeroPLEN)));;
  (* Read PASSWD, overwriting UNAME. *)
  err ← ReadFull_b 2 (2 + plen);
  check err (λ e, (EmptyString, Some e));;
  passwd ← slice_b 2 (2 + plen);
  (* Check PASSWD and put STATUS. *)
  let status :=
    if negb ok || bool_decide (string_of_bytes passwd ≠ Password userInfo) then x01 else x00 in
  (* Write response. *)
  set_b 1 status;;
  err ← Write_b 0 2;
  when (bool_decide (status ≠ x00))
    (Return (EmptyString, Some (Socks5 ErrIncorrectUsernamePassword)));;
  mret (Username userInfo, err).

(** [serverHandleRequest(rw, b, enableTCP, enableUDP)]. *)
Definition serverHandleRequest (enableTCP enableUDP : bool)
    : M (conn_Addr * option error) (conn_Addr * option error) :=
  n ← len_b;
  when (n <? 3 + MaxAddrLen) (panic "serverHandleRequest: buffer too small");;
  (* Read VER, CMD, RSV, ATYP, and an extra byte. *)
  err ← ReadFull_b 0 5;
  check err (λ e, (AddrZero, Some e));;
  (* Check VER. *)
  b0 ← at_b 0;
  when (bool_decide (b0 ≠ Version)) (Return (AddrZero, Some (Socks5 (UnsupportedVersionError b0))));;
  (* Read SOCKS address. *)
  pre ← slice_b 3 5;
  '(sa, err) ← (λ s,
      let '(pr, res) := AppendFromReader [] (newPrefixedReader pre (rw s)) in
      (mkSt (r pr) (store (b s) 3 (fst res)), Next res));
  check err (λ e, (AddrZero, Some e));;
  let '(addr, _, err) := ConnAddrFromSlice sa in
  check err (λ e, (AddrZero, Some e));;
  cmd ← at_b 1;
  if bool_decide (cmd = CmdConnect) && enableTCP then
    err ← replyWithStatus ReplySucceeded;
    mret (addr, err)
  else if bool_decide (cmd = CmdUDPAssociate) && enableUDP then
    (* Use the connection's local address as the returned UDP bound address. *)
    tc ← (λ s, (s, Next (local (rw s))));
    match tc with
    | None => Return (addr, Some zerocopy_ErrAcceptRequiresTCPConn)
    | Some localAddrPort =>
        (* Construct reply. *)
        set_b 1 ReplySucceeded;;
        hd ← slice_b 0 3;
        let reply := AppendAddrFromAddrPort hd localAddrPort in
        copy_b 0 reply;;
        (* Write reply. *)
        err ← Write_b 0 (length reply);
        check err (λ e, (addr, Some e));;
        (* Hold the connection open. *)
        err ← Read_b 0 1;
        when (bool_decide (err ≠ None) && bool_decide (err ≠ Some io_EOF))
          (Return (addr, err));;
        mret (addr, Some (Socks5 ErrUDPAssociateDone))
    end
  else
    _ ← replyWithStatus ReplyCommandNotSupported;
    mret (addr, Some (Socks5 (UnsupportedCommandError cmd))).

(** [ServerAccept(rw, enableTCP, enableUDP)]: a fresh scratch buffer of
    [3+MaxAddrLen] zero bytes, method selection without authentication,
    then the request. *)
Definition ServerAccept (enableTCP enableUDP : bool) (c : Conn)
    : St * result (conn_Addr * option error) :=
  let buf := replicate (3 + MaxAddrLen) x00 in
  match call (serverHandleMethodSelection MethodNoAuthenticationRequired) c buf with
  | (s, Ok (Some e)) => (s, Ok (AddrZero, Some e))
  | (s, Ok None) => call (serverHandleRequest enableTCP enableUDP) (rw s) (b s)
  | (s, Panic msg) => (s, Panic msg)
  end.

(** [ServerAcceptUsernamePassword(rw, userInfoByUsername, enableTCP, enableUDP)]. *)
Definition ServerAcceptUsernamePassword (userInfoByUsername : gmap string UserInfo)
    (enableTCP enableUDP : bool) (c : Conn)
    : St * result (conn_Addr * string * option error) :=
  let buf := replicate (3 + MaxAddrLen) x00 in
  match call (serverHandleMethodSelection MethodUsernamePassword) c buf with
  | (s, Ok (Some e)) => (s, Ok (AddrZero, EmptyString, Some e))
  | (s, Panic msg) => (s, Panic msg)
  | (s, Ok None) =>
      match call (serverHandleUsernamePassword userInfoByUsername)
                 (rw s) (b s) with
      | (s, Ok (username, Some e)) => (s, Ok (AddrZero, username, Some e))
      | (s, Panic msg) => (s, Panic msg)
      | (s, Ok (username, None)) =>
          match call (serverHandleRequest enableTCP enableUDP)
                     (rw s) (b s) with
          | (s, Ok (addr, err)) => (s, Ok (addr, username, err))
          | (s, Panic msg) => (s, Panic msg)
          end
      end
  end.

(** ** Streams *)

(** A script that begins with the batches [chunks], free of errors, and
    goes on with [rest]. *)
Definition arriving (chunks : list (list byte)) (rest : list (list byte * option error))
    : list (list byte * option error) :=
  ((λ d, (d, None)) <$> chunks) ++ rest.

(** [Stream c bytes rest]: the next bytes to arrive on [c] are [bytes],
    in some segmentation and without errors; [rest] follows them. *)
Definition Stream (c : Conn) (bytes : list byte) (rest : list (list byte * option error)) : Prop :=
  ∃ chunks, rx c = arriving chunks rest ∧ concat chunks = bytes.

(** The next [Write] on [c] succeeds. *)
Definition WriteSucceeds (c : Conn) : Prop := default None (head (txErr c)) = None.

(** ** The UDP session relay: sessions, goroutines and shutdown *)

(** A UDP socket as the relay uses it: whether its read deadline is the
    [now] of a shutdown or lies ahead, and whether it is closed. *)
Inductive Deadline : Type := DeadlineNow | DeadlineAhead.

Record UDPConn : Type := mkUDPConn {
  deadline : Deadline;
  closed : bool
}.

(** What [session.state] can point to: a session's own [natConn], or
    the relay's [serverConn], which [Stop] swaps in as its mark. *)
Inductive ConnPtr : Type :=
  | NatConnOf (i : nat)
  | TheServerConn.

(** [natConnSendCh]: the number of queued packets and whether the
    channel is closed. *)
Record Chan : Type := mkChan {
  ch_len : nat;
  ch_closed : bool
}.

(** Where the goroutine spawned for a new session stands.  Its deferred
    calls run last in, first out: [s.wg.Done()] before the teardown. *)
Inductive SessPC : Type :=
  | SessGetClient        (* spawned; router.GetUDPClient is next *)
  | SessSetup            (* s.wg.Add(1) done; NewSession .. SetReadDeadline next *)
  | SessSwap             (* natConn is open; entry.state.Swap(natConn) next *)
  | SessDownlink         (* in relayNatConnToServerConnGeneric *)
  | SessWgDone           (* returning; deferred s.wg.Done() next *)
  | SessTeardownLock     (* deferred teardown: s.server.Lock() next *)
  | SessTeardownClose    (* close(entry.natConnSendCh) next *)
  | SessTeardownDelete   (* delete(s.table, csid) next *)
  | SessTeardownUnlock   (* s.server.Unlock() next *)
  | SessDrain            (* the drain of the send channel next *)
  | SessFinished.

(** Where the uplink goroutine of a session stands. *)
Inductive UpPC : Type :=
  | UpNotStarted
  | UpRunning            (* in relayServerConnToNatConnGeneric *)
  | UpClosing            (* entry.natConn.Close() next *)
  | UpWgDone             (* s.wg.Done() next *)
  | UpFinished.

(** A [session] object with the goroutines that belong to it: the
    client session ID it was entered under (a [uint64]), the atomic
    [state] cell (nil at first), the socket its goroutine opened for it
    ([natConn] once published), [natConnSendCh], the goroutine's local
    [sendChClean], and where its goroutine and its uplink stand.  What
    packets hold, the packers and the address caches play no part in
    the life of a table entry and are left out. *)
Record Session : Type := mkSession {
  s_csid : N;
  s_state : option ConnPtr;
  s_natConn : option UDPConn;
  s_sendCh : Chan;
  s_sendChClean : bool;
  s_pc : SessPC;
  s_up : UpPC
}.

(** Where [recvFromServerConnGeneric] stands. *)
Inductive IngressPC : Type :=
  | IngressNotStarted
  | IngressRead              (* top of the loop, about to read serverConn *)
  | IngressLocked (csid : N) (* holds the lock, with a packet of session csid *)
  | IngressUnlocking         (* s.server.Unlock() next *)
  | IngressExit              (* loop left; s.mwg.Done() next *)
  | IngressFinished.

(** Where a call of [Stop] stands. *)
Inductive StopPC : Type :=
  | StopNotCalled
  | StopSetDeadline          (* s.serverConn.SetReadDeadline(now) next *)
  | StopWaitIngress          (* s.mwg.Wait() *)
  | StopLock                 (* s.server.Lock() next *)
  | StopLoop (todo : list N) (* ranging over s.table, these keys to go *)
  | StopUnlock
  | StopWaitSessions         (* s.wg.Wait() *)
  | StopClose                (* s.serverConn.Close() next *)
  | StopReturned (err : option error).

(** A [UDPSessionRelay] and the goroutines around it: the listener
    socket, the wait groups [mwg] (ingress) and [wg] (session workers),
    the lock of [s.server], the session table and the session objects
    ever made.  A table entry points to a session object by its index
    in [sessions]. *)
Record Relay : Type := mkRelay {
  sendChannelCapacity : nat;
  serverConn : option UDPConn;
  mwg : nat;
  wg : nat;
  lock : bool;
  table : gmap N nat;
  sessions : list Session;
  started : bool;
  ingress : IngressPC;
  stop : StopPC
}.

(** [NewUDPSessionRelay]: an empty table, no socket, nothing running. *)
Definition NewUDPSessionRelay (sendChannelCapacity : nat) : Relay :=
  mkRelay sendChannelCapacity None 0 0 false ∅ [] false IngressNotStarted StopNotCalled.

(** Field updates. *)
Definition set_serverConn (v : option UDPConn) (w : Relay) : Relay :=
  mkRelay (sendChannelCapacity w) v (mwg w) (wg w) (lock w) (table w) (sessions w)
          (started w) (ingress w) (stop w).
Definition set_mwg (v : nat) (w : Relay) : Relay :=
  mkRelay (sendChannelCapacity w) (serverConn w) v (wg w) (lock w) (table w) (sessions w)
          (started w) (ingress w) (stop w).
Definition set_wg (v : nat) (w : Relay) : Relay :=
  mkRelay (sendChannelCapacity w) (serverConn w) (mwg w) v (lock w) (table w) (sessions w)
          (started w) (ingress w) (stop w).
Definition set_lock (v : bool) (w : Relay) : Relay :=
  mkRelay (sendChannelCapacity w) (serverConn w) (mwg w) (wg w) v (table w) (sessions w)
          (started w) (ingress w) (stop w).
Definition set_table (v : gmap N nat) (w : Relay) : Relay :=
  mkRelay (sendChannelCapacity w) (serverConn w) (mwg w) (wg w) (lock w) v (sessions w)
          (started w) (ingress w) (stop w).
Definition set_sessions (v : list Session) (w : Relay) : Relay :=
  mkRelay (sendChannelCapacity w) (serverConn w) (mwg w) (wg w) (lock w) (table w) v
          (started w) (ingress w) (stop w).
Definition set_started (v : bool) (w : Relay) : Relay :=
  mkRelay (sendChannelCapacity w) (serverConn w) (mwg w) (wg w) (lock w) (table w) (sessions w)
          v (ingress w) (stop w).
Definition set_ingress (v : IngressPC) (w : Relay) : Relay :=
  mkRelay (sendChannelCapacity w) (serverConn w) (mwg w) (wg w) (lock w) (table w) (sessions w)
          (started w) v (stop w).
Definition set_stop (v : StopPC) (w : Relay) : Relay :=
  mkRelay (sendChannelCapacity w) (serverConn w) (mwg w) (wg w) (lock w) (table w) (sessions w)
          (started w) (ingress w) v.

Definition set_s_state (v : option ConnPtr) (s : Session) : Session :=
  mkSession (s_csid s) v (s_natConn s) (s_sendCh s) (s_sendChClean s) (s_pc s) (s_up s).
Definition set_s_natConn (v : option UDPConn) (s : Session) : Session :=
  mkSession (s_csid s) (s_state s) v (s_sendCh s) (s_sendChClean s) (s_pc s) (s_up s).
Definition set_s_sendCh (v : Chan) (s : Session) : Session :=
  mkSession (s_csid s) (s_state s) (s_natConn s) v (s_sendChClean s) (s_pc s) (s_up s).
Definition set_s_sendChClean (v : bool) (s : Session) : Session :=
  mkSession (s_csid s) (s_state s) (s_natConn s) (s_sendCh s) v (s_pc s) (s_up s).
Definition set_s_pc (v : SessPC) (s : Session) : Session :=
  mkSession (s_csid s) (s_state s) (s_natConn s) (s_sendCh s) (s_sendChClean s) v (s_up s).
Definition set_s_up (v : UpPC) (s : Session) : Session :=
  mkSession (s_csid s) (s_state s) (s_natConn s) (s_sendCh s) (s_sendChClean s) (s_pc s) v.

(** [conn.SetReadDeadline(now)], [conn.SetReadDeadline(now + natTimeout)]
    and [conn.Close()] on a socket that may be nil. *)
Definition deadline_now (c : option UDPConn) : option UDPConn :=
  (λ u, mkUDPConn DeadlineNow (closed u)) <$> c.
Definition deadline_ahead (c : option UDPConn) : option UDPConn :=
  (λ u, mkUDPConn DeadlineAhead (closed u)) <$> c.
Definition close_conn (c : option UDPConn) : option UDPConn :=
  (λ u, mkUDPConn (deadline u) true) <$> c.

(** The non-blocking send [select { case ch <- p: default: }]: the
    packet is queued when the channel has room and dropped otherwise. *)
Definition try_send (capacity : nat) (ch : Chan) : Chan :=
  if ch_len ch <? capacity then mkChan (S (ch_len ch)) (ch_closed ch) else ch.

(** One step of one goroutine, or of the world around the relay. *)
Inductive Action : Type :=
  (* Start: conn.ListenUDP succeeds or fails *)
  | ActStart (ok : bool)
  (* recvFromServerConnGeneric *)
  | ActIngressTimeout            (* the read fails with os.ErrDeadlineExceeded *)
  | ActIngressPacket (csid : N)  (* a packet of session csid; s.server.Lock() *)
  | ActIngressHandle (ok : bool) (* unpacking and pktinfo parsing succeed or not *)
  | ActIngressUnlock
  | ActIngressDone               (* s.mwg.Done() *)
  (* Stop *)
  | ActStopCall
  | ActStopSetDeadline (err : option error)
  | ActStopWaitIngress
  | ActStopLock
  | ActStopSwap
  | ActStopUnlock
  | ActStopWaitSessions
  | ActStopClose (err : option error)
  (* the goroutine of session object i *)
  | ActSessRouter (i : nat) (ok : bool)  (* router.GetUDPClient returns *)
  | ActSessSetup (i : nat) (ok : bool)   (* NewSession .. SetReadDeadline *)
  | ActSessSwap (i : nat)
  | ActSessDownlinkTimeout (i : nat)     (* the natConn read times out *)
  | ActSessWgDone (i : nat)
  | ActSessLock (i : nat)
  | ActSessClose (i : nat)
  | ActSessDelete (i : nat)
  | ActSessUnlock (i : nat)
  | ActSessDrain (i : nat)
  (* the uplink goroutine of session object i *)
  | ActUpSend (i : nat)                  (* one queued packet goes out *)
  | ActUpEnd (i : nat)                   (* the range over the channel ends *)
  | ActUpClose (i : nat)
  | ActUpWgDone (i : nat).

#[global] Instance SessPC_eq_dec : EqDecision SessPC.
Proof. solve_decision. Defined.
#[global] Instance UpPC_eq_dec : EqDecision UpPC.
Proof. solve_decision. Defined.
#[global] Instance IngressPC_eq_dec : EqDecision IngressPC.
Proof. solve_decision. Defined.
#[global] Instance StopPC_eq_dec : EqDecision StopPC.
Proof. solve_decision. Defined.
#[global] Instance Deadline_eq_dec : EqDecision Deadline.
Proof. solve_decision. Defined.

(** A step of session object [i] that is enabled at [pc]. *)
Definition sess_step (i : nat) (pc : SessPC) (w : Relay)
    (f : Session → Relay → Relay) : option Relay :=
  s ← sessions w !! i;
  if decide (s_pc s = pc) then Some (f s w) else None.

Definition up_step (i : nat) (pc : UpPC) (w : Relay)
    (f : Session → Relay → Relay) : option Relay :=
  s ← sessions w !! i;
  if decide (s_up s = pc) then Some (f s w) else None.

Definition put_session (i : nat) (s : Session) (w : Relay) : Relay :=
  set_sessions (<[i := s]> (sessions w)) w.

(** The steps.  [None]: the action is not enabled (the goroutine is
    elsewhere, or it is blocked on the lock, a wait group or a read). *)
Definition step (a : Action) (w : Relay) : option Relay :=
  match a with
  | ActStart ok =>
      (* serverConn, err := conn.ListenUDP(..); if err != nil { return err };
         s.serverConn = serverConn; s.mwg.Add(1); go func() { .. }() *)
      if started w then None
      else if ok then
        Some (set_started true (set_ingress IngressRead (set_mwg (S (mwg w))
               (set_serverConn (Some (mkUDPConn DeadlineAhead false)) w))))
      else Some (set_started true w)
  | ActIngressTimeout =>
      (* errors.Is(err, os.ErrDeadlineExceeded): break *)
      match ingress w, serverConn w with
      | IngressRead, Some (mkUDPConn DeadlineNow _) => Some (set_ingress IngressExit w)
      | _, _ => None
      end
  | ActIngressPacket csid =>
      (* a packet is read and s.server.SessionInfo finds csid; s.server.Lock() *)
      match ingress w, serverConn w with
      | IngressRead, Some (mkUDPConn DeadlineAhead false) =>
          if lock w then None
          else Some (set_ingress (IngressLocked csid) (set_lock true w))
      | _, _ => None
      end
  | ActIngressHandle ok =>
      match ingress w with
      | IngressLocked csid =>
          if ok then
            match table w !! csid with
            | Some i =>
                (* entry found: the non-blocking send *)
                s ← sessions w !! i;
                Some (set_ingress IngressUnlocking
                       (put_session i
                          (set_s_sendCh (try_send (sendChannelCapacity w) (s_sendCh s)) s) w))
            | None =>
                (* entry = &session{}; entry.natConnSendCh = make(chan ..);
                   s.table[csid] = entry; go func() { .. }(); the send *)
                let i := length (sessions w) in
                let entry :=
                  mkSession csid None None
                            (try_send (sendChannelCapacity w) (mkChan 0 false))
                            false SessGetClient UpNotStarted in
                Some (set_ingress IngressUnlocking
                       (set_table (<[csid := i]> (table w))
                          (set_sessions (sessions w ++ [entry]) w)))
            end
          else
            (* putQueuedPacket; s.server.Unlock(); continue *)
            Some (set_ingress IngressUnlocking w)
      | _ => None
      end
  | ActIngressUnlock =>
      match ingress w with
      | IngressUnlocking => Some (set_ingress IngressRead (set_lock false w))
      | _ => None
      end
  | ActIngressDone =>
      match ingress w with
      | IngressExit => Some (set_ingress IngressFinished (set_mwg (mwg w - 1) w))
      | _ => None
      end
  | ActStopCall =>
      (* if s.serverConn == nil { return nil } *)
      match stop w with
      | StopNotCalled =>
          match serverConn w with
          | None => Some (set_stop (StopReturned None) w)
          | Some _ => Some (set_stop StopSetDeadline w)
          end
      | _ => None
      end
  | ActStopSetDeadline err =>
      (* if err := s.serverConn.SetReadDeadline(now); err != nil { return err } *)
      match stop w with
      | StopSetDeadline =>
          match err with
          | Some e => Some (set_stop (StopReturned (Some e)) w)
          | None => Some (set_stop StopWaitIngress
                            (set_serverConn (deadline_now (serverConn w)) w))
          end
      | _ => None
      end
  | ActStopWaitIngress =>
      (* s.mwg.Wait() *)
      match stop w with
      | StopWaitIngress => if decide (mwg w = 0) then Some (set_stop StopLock w) else None
      | _ => None
      end
  | ActStopLock =>
      (* s.server.Lock(); for csid, entry := range s.table *)
      match stop w with
      | StopLock =>
          if lock w then None
          else Some (set_stop (StopLoop (map_to_list (table w)).*1) (set_lock true w))
      | _ => None
      end
  | ActStopSwap =>
      (* natConn := entry.state.Swap(s.serverConn); if natConn == nil { continue };
         natConn.SetReadDeadline(now) *)
      match stop w with
      | StopLoop (csid :: todo) =>
          i ← table w !! csid;
          s ← sessions w !! i;
          let s' := set_s_state (Some TheServerConn) s in
          let w' := put_session i s' w in
          match s_state s with
          | Some (NatConnOf j) =>
              sj ← sessions w' !! j;
              Some (set_stop (StopLoop todo)
                     (put_session j (set_s_natConn (deadline_now (s_natConn sj)) sj) w'))
          | Some TheServerConn =>
              Some (set_stop (StopLoop todo)
                     (set_serverConn (deadline_now (serverConn w')) w'))
          | None => Some (set_stop (StopLoop todo) w')
          end
      | _ => None
      end
  | ActStopUnlock =>
      match stop w with
      | StopLoop [] => Some (set_stop StopWaitSessions (set_lock false w))
      | _ => None
      end
  | ActStopWaitSessions =>
      (* s.wg.Wait() *)
      match stop w with
      | StopWaitSessions => if decide (wg w = 0) then Some (set_stop StopClose w) else None
      | _ => None
      end
  | ActStopClose err =>
      (* return s.serverConn.Close() *)
      match stop w with
      | StopClose => Some (set_stop (StopReturned err)
                             (set_serverConn (close_conn (serverConn w)) w))
      | _ => None
      end
  | ActSessRouter i ok =>
      (* c, err := s.router.GetUDPClient(..); if err != nil { return };
         s.wg.Add(1); defer s.wg.Done() *)
      sess_step i SessGetClient w (λ s w,
        if ok then put_session i (set_s_pc SessSetup s) (set_wg (S (wg w)) w)
        else put_session i (set_s_pc SessTeardownLock s) w)
  | ActSessSetup i ok =>
      (* NewSession, NewPacker, conn.ListenUDP, natConn.SetReadDeadline:
         any failure returns, the last one after natConn.Close() *)
      sess_step i SessSetup w (λ s w,
        if ok then
          put_session i (set_s_pc SessSwap
            (set_s_natConn (Some (mkUDPConn DeadlineAhead false)) s)) w
        else put_session i (set_s_pc SessWgDone s) w)
  | ActSessSwap i =>
      (* oldState := entry.state.Swap(natConn);
         if oldState != nil { natConn.Close(); return };
         sendChClean = true; ..; s.wg.Add(1); go func() { uplink }(); downlink *)
      sess_step i SessSwap w (λ s w,
        match s_state s with
        | Some _ =>
            put_session i (set_s_pc SessWgDone
              (set_s_natConn (close_conn (s_natConn s))
                 (set_s_state (Some (NatConnOf i)) s))) w
        | None =>
            put_session i (set_s_pc SessDownlink (set_s_up UpRunning
              (set_s_sendChClean true (set_s_state (Some (NatConnOf i)) s))))
              (set_wg (S (wg w)) w)
        end)
  | ActSessDownlinkTimeout i =>
      (* ReadMsgUDPAddrPort fails with os.ErrDeadlineExceeded, because
         Stop set the deadline to now or because natTimeout ran out: break *)
      sess_step i SessDownlink w (λ s w, put_session i (set_s_pc SessWgDone s) w)
  | ActSessWgDone i =>
      sess_step i SessWgDone w (λ s w,
        put_session i (set_s_pc SessTeardownLock s) (set_wg (wg w - 1) w))
  | ActSessLock i =>
      if lock w then None
      else sess_step i SessTeardownLock w (λ s w,
             put_session i (set_s_pc SessTeardownClose s) (set_lock true w))
  | ActSessClose i =>
      sess_step i SessTeardownClose w (λ s w,
        put_session i (set_s_pc SessTeardownDelete
          (set_s_sendCh (mkChan (ch_len (s_sendCh s)) true) s)) w)
  | ActSessDelete i =>
      sess_step i SessTeardownDelete w (λ s w,
        put_session i (set_s_pc SessTeardownUnlock s)
          (set_table (delete (s_csid s) (table w)) w))
  | ActSessUnlock i =>
      sess_step i SessTeardownUnlock w (λ s w,
        put_session i (set_s_pc SessDrain s) (set_lock false w))
  | ActSessDrain i =>
      (* if !sendChClean { for queuedPacket := range ch { put } } *)
      sess_step i SessDrain w (λ s w,
        put_session i (set_s_pc SessFinished
          (if s_sendChClean s then s else set_s_sendCh (mkChan 0 true) s)) w)
  | ActUpSend i =>
      (* one turn of the range loop: pack, write,
         natConn.SetReadDeadline(now + natTimeout) *)
      s ← sessions w !! i;
      match s_up s, ch_len (s_sendCh s) with
      | UpRunning, S n =>
          Some (put_session i (set_s_sendCh (mkChan n (ch_closed (s_sendCh s)))
                  (set_s_natConn (deadline_ahead (s_natConn s)) s)) w)
      | _, _ => None
      end
  | ActUpEnd i =>
      s ← sessions w !! i;
      if bool_decide (s_up s = UpRunning) && bool_decide (ch_len (s_sendCh s) = 0)
         && ch_closed (s_sendCh s)
      then Some (put_session i (set_s_up UpClosing s) w)
      else None
  | ActUpClose i =>
      up_step i UpClosing w (λ s w,
        put_session i (set_s_up UpWgDone (set_s_natConn (close_conn (s_natConn s)) s)) w)
  | ActUpWgDone i =>
      up_step i UpWgDone w (λ s w,
        put_session i (set_s_up UpFinished s) (set_wg (wg w - 1) w))
  end.

(** A run: the actions taken, in order. *)
Fixpoint run (acts : list Action) (w : Relay) : option Relay :=
  match acts with
  | [] => Some w
  | a :: acts' => w' ← step a w; run acts' w'
  end.

(** The states a relay made by [NewUDPSessionRelay] can get into. *)
Definition reachable (w : Relay) : Prop :=
  ∃ capacity acts, run acts (NewUDPSessionRelay capacity) = Some w.

(** The session's goroutine has not yet executed [delete(s.table, csid)]. *)
Definition before_delete (pc : SessPC) : bool :=
  match pc with
  | SessTeardownUnlock | SessDrain | SessFinished => false
  | _ => true
  end.

(** ** Inputs and invariants the properties are stated with *)

(** Every table entry points to a session object of that session ID
    whose goroutine has not yet executed its [delete]. *)
Definition table_ok (t : gmap N nat) (ss : list Session) : Prop :=
  ∀ csid i, t !! csid = Some i →
    ∃ s, ss !! i = Some s ∧ s_csid s = csid ∧ before_delete (s_pc s) = true.

(** The scratch buffer [ServerAccept] allocates. *)
Definition scratch : list byte := replicate (3 + MaxAddrLen) x00.

(** The local endpoint 10.0.0.1:51820 of the scenario. *)
Definition endpoint_10_0_0_1_51820 : netip_AddrPort :=
  mkAddrPort (IPv4 x0a x00 x00 x01) 51820.

(** A UDP ASSOCIATE request for 0.0.0.0:4660 on a connection with that
    local endpoint; [after] is what the network delivers once the
    request is in. *)
Definition udp_associate_conn (after : list (list byte * option error)) : Conn :=
  mkConn (([x05; x03; x00; x01; x00; x00; x00; x00; x12; x34], None) :: after)
         [] [] (Some endpoint_10_0_0_1_51820).

(** A run in which [Stop] returns while a session is waiting for the
    router: a packet opens session 7, [Stop] is called, the ingress loop
    leaves, [Stop] marks the session, finds no worker to wait for,
    closes the listener and returns. *)
Definition stop_during_init : list Action :=
  [ActStart true; ActIngressPacket 7; ActIngressHandle true; ActIngressUnlock;
   ActStopCall; ActStopSetDeadline None; ActIngressTimeout; ActIngressDone;
   ActStopWaitIngress; ActStopLock; ActStopSwap; ActStopUnlock; ActStopWaitSessions;
   ActStopClose None].

(** A run in which [Stop] returns between the [close] and the [delete]
    of the teardown of a session that was relaying. *)
Definition stop_during_teardown : list Action :=
  [ActStart true; ActIngressPacket 7; ActIngressHandle true; ActIngressUnlock;
   ActSessRouter 0 true; ActSessSetup 0 true; ActSessSwap 0; ActUpSend 0;
   ActStopCall; ActStopSetDeadline None; ActIngressTimeout; ActIngressDone;
   ActStopWaitIngress; ActStopLock; ActStopSwap; ActStopUnlock;
   ActSessDownlinkTimeout 0; ActSessWgDone 0; ActSessLock 0; ActSessClose 0;
   ActUpEnd 0; ActUpClose 0; ActUpWgDone 0;
   ActStopWaitSessions; ActStopClose None].


(** ** More of package [socks5] *)

(** The reply [replyWithStatus] writes: version, REP, a zero reserved
    octet and the unspecified IPv4 address. *)
Definition status_reply (status : byte) : list byte :=
  [Version; status; x00] ++ IPv4UnspecifiedAddr.

(** [same_writer c pr]: the prefixed reader [pr] wraps a connection
    that differs from [c] at most in what is still to arrive. *)
Definition same_writer (c : Conn) (pr : prefixedReader Conn) : Prop :=
  tx (r pr) = tx c ∧ txErr (r pr) = txErr c ∧ local (r pr) = local c.

(** ** The client half of the engine *)

(** [_, err := rw.Write(p)] for a slice [p] of the caller's. *)
Definition Write_p {Ret} (p : list byte) : M Ret (option error) := λ s,
  let '(c, err) := conn_Write (rw s) p in
  (mkSt c (b s), Next err).

(** Modelled from the spec: [WriteAddrFromConnAddr(b, addr)] of the
    absent address codec writes the SOCKS address of [addr] at the
    front of [b] and returns its length.  The bytes are those of
    [AppendAddrFromAddrPort] for an IP endpoint, and ATYP 3, the length
    octet, the host and the port for a domain name; the zero
    [conn.Addr] has no SOCKS address. *)
Definition WriteAddrFromConnAddr (addr : conn_Addr) : option (list byte) :=
  match addr with
  | AddrZero => None
  | AddrIP addrPort => Some (AppendAddrFromAddrPort [] addrPort)
  | AddrDomain host port =>
      Some (AtypDomainName :: byte_of_int (len_string host)
              :: bytes_of_string host ++ port_bytes port)
  end.

(** [clientNegotiateAuthMethod(rw, b, method)]. *)
Definition clientNegotiateAuthMethod (method : byte) : M (option error) (option error) :=
  n ← len_b;
  when (n <? 3) (panic "clientNegotiateAuthMethod: buffer too small");;
  (* Put and write VER, NMETHODS, METHOD. *)
  set_b 0 Version;;
  set_b 1 x01;;
  set_b 2 method;;
  err ← Write_b 0 3;
  check err Some;;
  (* Read VER, METHOD. *)
  err ← ReadFull_b 0 2;
  check err Some;;
  (* Check VER. *)
  b0 ← at_b 0;
  when (bool_decide (b0 ≠ Version)) (Return (Some (Socks5 (UnsupportedVersionError b0))));;
  (* Check METHOD. *)
  b1 ← at_b 1;
  when (bool_decide (b1 ≠ method)) (Return (Some (Socks5 (UnsupportedAuthMethodError b1))));;
  mret None.

(** [clientDoUsernamePasswordAuth(rw, b, authMsg)]. *)
Definition clientDoUsernamePasswordAuth (authMsg : list byte)
    : M (option error) (option error) :=
  n ← len_b;
  when (n <? 2) (panic "clientDoUsernamePasswordAuth: buffer too small");;
  (* Write authMsg. *)
  err ← Write_p authMsg;
  check err Some;;
  (* Read VER, STATUS. *)
  err ← ReadFull_b 0 2;
  check err Some;;
  (* Check VER. *)
  b0 ← at_b 0;
  when (bool_decide (b0 ≠ UsernamePasswordAuthVersion))
    (Return (Some (Socks5 (UnsupportedUsernamePasswordAuthVersionError b0))));;
  (* Check STATUS. *)
  b1 ← at_b 1;
  when (bool_decide (b1 ≠ x00)) (Return (Some (Socks5 ErrIncorrectUsernamePassword)));;
  mret None.

(** [clientDoRequest(rw, b, command, targetAddr)]. *)
Definition clientDoRequest (command : byte) (targetAddr : conn_Addr)
    : M (conn_Addr * option error) (conn_Addr * option error) :=
  n ← len_b;
  when (n <? 3 + MaxAddrLen) (panic "clientDoRequest: buffer too small");;
  (* Put and write VER, CMD, RSV, SOCKS address. *)
  set_b 0 Version;;
  set_b 1 command;;
  set_b 2 x00;;
  n ← match WriteAddrFromConnAddr targetAddr with
      | Some sa => copy_b 3 sa;; mret (length sa)
      | None => panic "WriteAddrFromConnAddr: not an address"
      end;
  err ← Write_b 0 (3 + n);
  check err (λ e, (AddrZero, Some e));;
  (* Read VER, REP, RSV, ATYP, and an extra byte. *)
  err ← ReadFull_b 0 5;
  check err (λ e, (AddrZero, Some e));;
  (* Check VER. *)
  b0 ← at_b 0;
  when (bool_decide (b0 ≠ Version)) (Return (AddrZero, Some (Socks5 (UnsupportedVersionError b0))));;
  (* Check REP. *)
  b1 ← at_b 1;
  when (bool_decide (b1 ≠ ReplySucceeded)) (Return (AddrZero, Some (Socks5 (ReplyError b1))));;
  (* Read SOCKS address. *)
  pre ← slice_b 3 5;
  '(sa, err) ← (λ s,
      let '(pr, res) := AppendFromReader [] (newPrefixedReader pre (rw s)) in
      (mkSt (r pr) (store (b s) 3 (fst res)), Next res));
  check err (λ e, (AddrZero, Some e));;
  let '(addr, _, err) := ConnAddrFromSlice sa in
  mret (addr, err).

(** [ClientRequest(rw, command, targetAddr)]. *)
Definition ClientRequest (command : byte) (targetAddr : conn_Addr) (c : Conn)
    : St * result (conn_Addr * option error) :=
  let buf := replicate (3 + MaxAddrLen) x00 in
  match call (clientNegotiateAuthMethod MethodNoAuthenticationRequired) c buf with
  | (s, Ok (Some e)) => (s, Ok (AddrZero, Some e))
  | (s, Ok None) => call (clientDoRequest command targetAddr) (rw s) (b s)
  | (s, Panic msg) => (s, Panic msg)
  end.

(** [ClientRequestUsernamePassword(rw, authMsg, command, targetAddr)]. *)
Definition ClientRequestUsernamePassword (authMsg : list byte) (command : byte)
    (targetAddr : conn_Addr) (c : Conn) : St * result (conn_Addr * option error) :=
  let buf := replicate (3 + MaxAddrLen) x00 in
  match call (clientNegotiateAuthMethod MethodUsernamePassword) c buf with
  | (s, Ok (Some e)) => (s, Ok (AddrZero, Some e))
  | (s, Panic msg) => (s, Panic msg)
  | (s, Ok None) =>
      match call (clientDoUsernamePasswordAuth authMsg) (rw s) (b s) with
      | (s, Ok (Some e)) => (s, Ok (AddrZero, Some e))
      | (s, Panic msg) => (s, Panic msg)
      | (s, Ok None) => call (clientDoRequest command targetAddr) (rw s) (b s)
      end
  end.

(** [ClientConnect(rw, targetAddr)]: the error of [ClientRequest], the
    bound address dropped. *)
Definition ClientConnect (targetAddr : conn_Addr) (c : Conn) : St * result (option error) :=
  match ClientRequest CmdConnect targetAddr c with
  | (s, Ok (_, err)) => (s, Ok err)
  | (s, Panic msg) => (s, Panic msg)
  end.

(** [ClientConnectUsernamePassword(rw, authMsg, targetAddr)]. *)
Definition ClientConnectUsernamePassword (authMsg : list byte) (targetAddr : conn_Addr)
    (c : Conn) : St * result (option error) :=
  match ClientRequestUsernamePassword authMsg CmdConnect targetAddr c with
  | (s, Ok (_, err)) => (s, Ok err)
  | (s, Panic msg) => (s, Panic msg)
  end.

(** [ClientUDPAssociate(rw, targetAddr)]. *)
Definition ClientUDPAssociate (targetAddr : conn_Addr) (c : Conn)
    : St * result (conn_Addr * option error) :=
  ClientRequest CmdUDPAssociate targetAddr c.

(** [ClientUDPAssociateUsernamePassword(rw, authMsg, targetAddr)]. *)
Definition ClientUDPAssociateUsernamePassword (authMsg : list byte) (targetAddr : conn_Addr)
    (c : Conn) : St * result (conn_Addr * option error) :=
  ClientRequestUsernamePassword authMsg CmdUDPAssociate targetAddr c.

(** ** What the goroutines of the relay keep true *)

(** The session's goroutine has not yet executed
    [close(entry.natConnSendCh)]. *)
Definition before_close (pc : SessPC) : bool :=
  match pc with
  | SessTeardownDelete | SessTeardownUnlock | SessDrain | SessFinished => false
  | _ => true
  end.

(** The session's goroutine has not yet executed
    [entry.state.Swap(natConn)]. *)
Definition before_swap (pc : SessPC) : bool :=
  match pc with
  | SessGetClient | SessSetup | SessSwap => true
  | _ => false
  end.

(** A socket that is there and not closed. *)
Definition conn_open (c : option UDPConn) : bool :=
  match c with
  | Some u => negb (closed u)
  | None => false
  end.

(** The goroutines between [s.server.Lock()] and [s.server.Unlock()]:
    the ingress loop with a packet in hand, [Stop] ranging over the
    table, and the sessions in their teardown. *)
Definition ingress_in_lock (pc : IngressPC) : nat :=
  match pc with
  | IngressLocked _ | IngressUnlocking => 1
  | _ => 0
  end.

Definition stop_in_lock (pc : StopPC) : nat :=
  match pc with
  | StopLoop _ => 1
  | _ => 0
  end.

Definition session_in_lock (s : Session) : nat :=
  match s_pc s with
  | SessTeardownClose | SessTeardownDelete | SessTeardownUnlock => 1
  | _ => 0
  end.

Definition lock_holders (w : Relay) : nat :=
  ingress_in_lock (ingress w) + stop_in_lock (stop w)
  + sum_list_with session_in_lock (sessions w).

(** The goroutines between an [s.wg.Add(1)] and its [s.wg.Done()]: a
    session's goroutine from the router's answer to its deferred
    [Done], and its uplink. *)
Definition session_workers (s : Session) : nat :=
  match s_pc s with
  | SessSetup | SessSwap | SessDownlink | SessWgDone => 1
  | _ => 0
  end
  + match s_up s with
    | UpRunning | UpClosing | UpWgDone => 1
    | _ => 0
    end.

Definition workers (w : Relay) : nat := sum_list_with session_workers (sessions w).

(** The ingress goroutine between [s.mwg.Add(1)] and [s.mwg.Done()]. *)
Definition ingress_running (pc : IngressPC) : nat :=
  match pc with
  | IngressNotStarted | IngressFinished => 0
  | _ => 1
  end.

(** How a session's channel, socket and goroutines go together: the
    channel is closed from the teardown's [close] on; the socket is
    absent until the setup has made it, open while the session's
    goroutine is about to publish it or the uplink has yet to close it,
    and closed otherwise; the uplink ends only on a closed channel. *)
Definition session_ok (s : Session) : bool :=
  bool_decide (ch_closed (s_sendCh s) = negb (before_close (s_pc s)))
  && match s_up s with
     | UpNotStarted =>
         match s_pc s with
         | SessGetClient | SessSetup => bool_decide (s_natConn s = None)
         | SessSwap => conn_open (s_natConn s)
         | SessDownlink => false
         | _ => negb (conn_open (s_natConn s))
         end
     | UpRunning => conn_open (s_natConn s) && negb (before_swap (s_pc s))
     | UpClosing => conn_open (s_natConn s) && negb (before_close (s_pc s))
     | UpWgDone | UpFinished =>
         negb (conn_open (s_natConn s)) && negb (before_close (s_pc s))
     end.

(** [Stop] has been through the table: it has left the loop over
    [s.table], or it is in the loop with the keys [todo] to go. *)
Definition stop_marked (pc : StopPC) (csid : N) : bool :=
  match pc with
  | StopLoop todo => bool_decide (csid ∉ todo)
  | StopWaitSessions | StopClose => true
  | _ => false
  end.

(** [Start] and the ingress goroutine: the goroutine exists once
    [Start] has opened the listener, and [mwg] counts it until its
    [Done]. *)
Definition start_ok (w : Relay) : Prop :=
  (started w = false → ingress w = IngressNotStarted)
  ∧ (ingress w = IngressNotStarted ↔ serverConn w = None)
  ∧ mwg w = ingress_running (ingress w).

(** Every session object whose goroutine has not yet executed its
    [delete] is the entry of the table under its session ID. *)
Definition table_complete (t : gmap N nat) (ss : list Session) : Prop :=
  ∀ i s, ss !! i = Some s → before_delete (s_pc s) = true → t !! s_csid s = Some i.

(** Where [Stop] stands: before [s.mwg.Wait()] has returned, with the
    listener's deadline set or about to be, or past it. *)
Definition stop_before_wait (pc : StopPC) : bool :=
  match pc with
  | StopSetDeadline | StopWaitIngress => true
  | _ => false
  end.

Definition stop_past_ingress (pc : StopPC) : bool :=
  match pc with
  | StopLock | StopLoop _ | StopUnlock | StopWaitSessions | StopClose => true
  | _ => false
  end.

(** The socket has been closed. *)
Definition conn_closed (c : option UDPConn) : bool :=
  match c with
  | Some u => closed u
  | None => false
  end.

(** [Stop] goes on only with a listener, and past [s.mwg.Wait()] the
    ingress goroutine is gone. *)
Definition stop_waited (w : Relay) : Prop :=
  (stop_before_wait (stop w) || stop_past_ingress (stop w) = true → serverConn w ≠ None)
  ∧ (stop_past_ingress (stop w) || conn_closed (serverConn w) = true →
     ingress w = IngressFinished).

(** The sessions [Stop] has been past carry its mark: their [state] is
    no longer nil while their goroutine has yet to swap it. *)
Definition marked_ok (w : Relay) : Prop :=
  ∀ i s, sessions w !! i = Some s →
    before_swap (s_pc s) = true →
    stop_marked (stop w) (s_csid s) || conn_closed (serverConn w) = true →
    s_state s ≠ None.

(** No goroutine is in a relay loop. *)
Definition no_relay (w : Relay) : Prop :=
  ∀ i s, sessions w !! i = Some s →
    s_pc s ≠ SessDownlink ∧ (s_up s = UpNotStarted ∨ s_up s = UpFinished).

(** Once [s.wg.Wait()] has returned in [Stop], no goroutine is in a
    relay loop. *)
Definition quiesced (w : Relay) : Prop :=
  stop w = StopClose ∨ conn_closed (serverConn w) = true → no_relay w.

(** What holds of every state a relay can get into. *)
Definition relay_inv (w : Relay) : Prop :=
  start_ok w
  ∧ lock_holders w = Nat.b2n (lock w)
  ∧ Forall (λ s, session_ok s = true) (sessions w)
  ∧ wg w = workers w
  ∧ table_ok (table w) (sessions w)
  ∧ table_complete (table w) (sessions w)
  ∧ stop_waited w
  ∧ marked_ok w
  ∧ quiesced w.

(** Runs the properties are shown on: the ingress loop holds the lock
    with a second packet of session 7; and [Stop] has closed the
    listener after a session that was relaying has gone through its
    teardown. *)
Definition second_packet : list Action :=
  [ActStart true; ActIngressPacket 7; ActIngressHandle true; ActIngressUnlock;
   ActSessRouter 0 true; ActSessSetup 0 true; ActSessSwap 0; ActIngressPacket 7].

Definition stop_before_setup : list Action :=
  [ActStart true; ActIngressPacket 7; ActIngressHandle true; ActIngressUnlock;
   ActStopCall; ActStopSetDeadline None; ActIngressTimeout; ActIngressDone;
   ActStopWaitIngress; ActStopLock; ActStopSwap; ActStopUnlock;
   ActSessRouter 0 true; ActSessSetup 0 true].

(** A run in which the router fails session 7, the session is torn
    down, and a later packet of the same client session opens a second
    session object under the same session ID. *)
Definition session_reopened : list Action :=
  [ActStart true; ActIngressPacket 7; ActIngressHandle true; ActIngressUnlock;
   ActSessRouter 0 false; ActSessLock 0; ActSessClose 0; ActSessDelete 0;
   ActSessUnlock 0;
   ActIngressPacket 7; ActIngressHandle true; ActIngressUnlock].



(** * Properties *)

(** ** Bytes and buffers *)

Lemma int_of_byte_of_int n : n ≤ 255 → int_of_byte (byte_of_int n) = n.
Proof.
  intros Hn. unfold int_of_byte, byte_of_int.
  rewrite Nat.mod_small by lia.
  destruct (Byte.of_nat n) as [x|] eqn:E.
  - by apply Byte.to_of_nat.
  - apply Byte.of_nat_None_iff in E. lia.
Qed.

Lemma int_of_byte_le x : int_of_byte x ≤ 255.
Proof. apply Byte.to_nat_bounded. Qed.

Lemma string_of_bytes_of_string s : string_of_bytes (bytes_of_string s) = s.
Proof. apply string_of_list_byte_of_string. Qed.

Lemma bytes_of_string_of_bytes bs : bytes_of_string (string_of_bytes bs) = bs.
Proof. apply list_byte_of_string_of_list_byte. Qed.

Lemma string_of_bytes_inj bs s : string_of_bytes bs = s ↔ bs = bytes_of_string s.
Proof.
  split; intros H; subst.
  - symmetry. apply bytes_of_string_of_bytes.
  - apply string_of_bytes_of_string.
Qed.

Lemma length_store buf off data :
  off + length data ≤ length buf → length (store buf off data) = length buf.
Proof.
  intros H. unfold store.
  rewrite !length_app, !length_take, length_drop. lia.
Qed.

(** A buffer whose first [length p] bytes are known: a store right
    behind them extends the known part. *)
Lemma store_app p q data :
  length data ≤ length q →
  store (p ++ q) (length p) data = (p ++ data) ++ drop (length data) q.
Proof.
  intros H. unfold store.
  rewrite take_app_length, length_app.
  replace (length p + length q - length p) with (length q) by lia.
  rewrite take_ge by lia.
  rewrite drop_app_ge by lia.
  replace (length p + length data - length p) with (length data) by lia.
  by rewrite <- app_assoc.
Qed.

Lemma store_0 buf data :
  length data ≤ length buf → store buf 0 data = data ++ drop (length data) buf.
Proof. intros H. by apply (store_app [] buf data). Qed.

(** A store inside the known part [p ++ old ++ q'] replaces [old]. *)
Lemma store_mid p old q data :
  length data = length old →
  store (p ++ old ++ q) (length p) data = p ++ data ++ q.
Proof.
  intros H. unfold store.
  rewrite take_app_length, !length_app.
  rewrite take_ge by lia.
  rewrite drop_app_ge by lia.
  replace (length p + length data - length p) with (length old) by lia.
  by rewrite drop_app_length.
Qed.

Lemma slice_app_mid p d q :
  slice (p ++ d ++ q) (length p) (length p + length d) = d.
Proof.
  unfold slice. rewrite drop_app_length.
  replace (length p + length d - length p) with (length d) by lia.
  apply take_app_length.
Qed.

Lemma lookup_app_mid (p q : list byte) x :
  (p ++ x :: q) !! length p = Some x.
Proof. by rewrite list_lookup_middle. Qed.

(** ** Reading a segmented stream *)

Lemma rx_read_length script n script' d e :
  rx_read script n = (script', (d, e)) → length d ≤ n.
Proof.
  revert script' d e. induction script as [|[d0 e0] script IH]; intros script' d e; simpl.
  - intros [= <- <- <-]. simpl. lia.
  - destruct (n <? length d0) eqn:Hlt.
    + intros [= <- <- <-]. rewrite length_take. lia.
    + apply Nat.ltb_ge in Hlt.
      destruct d0 as [|x d0]; [destruct e0|]; try (intros [= <- <- <-]; simpl in *; lia).
      apply IH.
Qed.

Lemma rx_read_progress script n script' d e :
  0 < n → rx_read script n = (script', (d, e)) → d ≠ [] ∨ e ≠ None.
Proof.
  intros Hn. revert script' d e.
  induction script as [|[d0 e0] script IH]; intros script' d e; simpl.
  - intros [= <- <- <-]. by right.
  - destruct (n <? length d0) eqn:Hlt.
    + apply Nat.ltb_lt in Hlt. intros [= <- <- <-]. left.
      destruct d0; simpl in *; [lia|]. destruct n; [lia|]. done.
    + destruct d0 as [|x d0]; [destruct e0|]; try (intros [= <- <- <-]; by auto).
      apply IH.
Qed.

#[global] Instance Conn_LawfulReader : LawfulReader Conn.
Proof.
  split; unfold Read, Conn_Reader, conn_Read; intros c c' n d e.
  - destruct (rx_read (rx c) n) as [script res] eqn:E. intros [= <- ->].
    by eapply rx_read_length.
  - intros Hn. destruct (rx_read (rx c) n) as [script res] eqn:E. intros [= <- ->].
    by eapply rx_read_progress.
Qed.

#[global] Instance prefixedReader_LawfulReader {R} `{LawfulReader R} :
  LawfulReader (prefixedReader R).
Proof.
  split; unfold Read at 1, prefixedReader_Reader, prefixedReader_Read; intros pr pr' n d e.
  - destruct (0 <? length (prefix pr)).
    + intros [= <- <- <-]. rewrite length_take. lia.
    + destruct (Read (r pr) n) as [r' [d' e']] eqn:E. intros [= <- <- <-].
      by eapply Read_length.
  - intros Hn. destruct (0 <? length (prefix pr)) eqn:Hp.
    + apply Nat.ltb_lt in Hp. intros [= <- <- <-]. left.
      destruct (prefix pr); simpl in *; [lia|]. destruct n; [lia|]. done.
    + destruct (Read (r pr) n) as [r' [d' e']] eqn:E. intros [= <- <- <-].
      by eapply Read_progress.
Qed.

(** [io.ReadFull] returns on every lawful reader: the loop never
    outlives its fuel. *)
Lemma ReadAtLeast_loop_total {R} `{LawfulReader R} fuel (r : R) size min got err :
  min ≤ size → min - length got ≤ fuel →
  is_Some (ReadAtLeast_loop fuel r size min got err).
Proof.
  intros Hsize. revert r got err.
  induction fuel as [|fuel IH]; intros r got err Hfuel; simpl.
  - destruct (length got <? min) eqn:Hlt; simpl; [|by eexists].
    apply Nat.ltb_lt in Hlt. lia.
  - destruct (length got <? min) eqn:Hlt; simpl; [|by eexists].
    apply Nat.ltb_lt in Hlt.
    case_bool_decide; [|by eexists].
    destruct (Read r (size - length got)) as [r' [d e]] eqn:E.
    destruct (Read_progress r r' (size - length got) d e) as [Hd|He]; [lia|done|..].
    + apply IH. rewrite length_app. destruct d; simpl; [done|lia].
    + destruct fuel; simpl.
      * rewrite bool_decide_eq_false_2 by done. rewrite andb_false_r. by eexists.
      * rewrite bool_decide_eq_false_2 by done. rewrite andb_false_r. by eexists.
Qed.

Lemma io_ReadFull_total {R} `{LawfulReader R} (r : R) n :
  ∃ r' res, ReadAtLeast_loop n r n n [] None = Some (r', res)
            ∧ io_ReadFull r n = (r', ReadAtLeast_result n res).
Proof.
  destruct (ReadAtLeast_loop_total n r n n [] None) as [[r' res] E]; [lia|simpl; lia|].
  exists r', res. split; [done|]. unfold io_ReadFull. by rewrite E.
Qed.

Lemma rx_read_arriving chunks rest k :
  0 < k → k ≤ length (concat chunks) →
  ∃ d chunks',
    rx_read (arriving chunks rest) k = (arriving chunks' rest, (d, None))
    ∧ d ≠ [] ∧ length d ≤ k ∧ concat chunks = d ++ concat chunks'.
Proof.
  intros Hk. induction chunks as [|d chunks IH]; simpl; intros Hlen.
  - lia.
  - destruct (k <? length d) eqn:Hlt.
    + apply Nat.ltb_lt in Hlt.
      exists (take k d), (drop k d :: chunks). repeat split.
      * destruct d; simpl in *; [lia|]. destruct k; [lia|]. done.
      * rewrite length_take. lia.
      * simpl. by rewrite app_assoc, take_drop.
    + apply Nat.ltb_ge in Hlt. destruct d as [|x d].
      * apply IH. done.
      * exists (x :: d), chunks. repeat split; done.
Qed.

Lemma ReadAtLeast_loop_stream k : ∀ fuel (c : Conn) got chunks rest n,
  rx c = arriving chunks rest → length got + k = n → k ≤ fuel →
  k ≤ length (concat chunks) →
  ∃ c' chunks',
    ReadAtLeast_loop fuel c n n got None = Some (c', (got ++ take k (concat chunks), None))
    ∧ rx c' = arriving chunks' rest ∧ concat chunks' = drop k (concat chunks)
    ∧ tx c' = tx c ∧ txErr c' = txErr c ∧ local c' = local c.
Proof.
  induction k as [k IH] using lt_wf_ind.
  intros fuel c got chunks rest n Hrx Hn Hfuel Hlen.
  destruct (decide (k = 0)) as [->|Hk].
  - exists c, chunks. rewrite take_0, drop_0, app_nil_r.
    destruct fuel; simpl; rewrite (proj2 (Nat.ltb_ge _ _)) by lia; done.
  - destruct fuel as [|fuel]; [lia|].
    destruct (rx_read_arriving chunks rest k) as (d & chunks1 & Hread & Hd & Hdk & Hcat);
      [lia|done|].
    set (c1 := mkConn (arriving chunks1 rest) (tx c) (txErr c) (local c)).
    assert (Read c (n - length got) = (c1, (d, None))) as HRead.
    { replace (n - length got) with k by lia.
      unfold Read, Conn_Reader, conn_Read. by rewrite Hrx, Hread. }
    cbn [ReadAtLeast_loop].
    rewrite (proj2 (Nat.ltb_lt _ _)) by lia. cbn [andb].
    rewrite bool_decide_eq_true_2 by done. rewrite HRead.
    destruct (IH (k - length d) ltac:(destruct d; simpl in *; [done|lia])
                 fuel c1 (got ++ d) chunks1 rest n)
      as (c' & chunks' & Hloop & Hrx' & Hcat' & Htx & Herr & Hloc).
    + done.
    + rewrite length_app. lia.
    + destruct d; simpl in *; [done|lia].
    + rewrite Hcat, length_app in Hlen. lia.
    + exists c', chunks'. rewrite Hloop. repeat split; try done.
      * rewrite Hcat, take_app, (take_ge d) by lia. by rewrite <- app_assoc.
      * rewrite Hcat' , Hcat, drop_app, (drop_ge d) by lia. done.
Qed.

(** [io.ReadFull] puts a segmented stream back together: it yields the
    next [length data] bytes whatever batches they arrived in. *)
Lemma io_ReadFull_stream (c : Conn) data tail rest :
  Stream c (data ++ tail) rest →
  ∃ c', io_ReadFull c (length data) = (c', (data, None))
        ∧ Stream c' tail rest
        ∧ tx c' = tx c ∧ txErr c' = txErr c ∧ local c' = local c.
Proof.
  intros (chunks & Hrx & Hcat).
  destruct (ReadAtLeast_loop_stream (length data) (length data) c [] chunks rest (length data))
    as (c' & chunks' & Hloop & Hrx' & Hcat' & Htx & Herr & Hloc); try done.
  { rewrite Hcat, length_app. lia. }
  exists c'. unfold io_ReadFull. rewrite Hloop. simpl.
  rewrite Hcat, take_app_length in *. rewrite drop_app_length in Hcat'.
  rewrite (proj2 (Nat.leb_le _ _)) by done.
  repeat split; try done. by exists chunks'.
Qed.

(** ** Stepping through a handler *)

Lemma bind_eq {Ret A B} (m : M Ret A) (k : A → M Ret B) s :
  (m ≫= k) s = match m s with
               | (s', Next a) => k a s'
               | (s', Returned v) => (s', Returned v)
               | (s', Panicked msg) => (s', Panicked msg)
               end.
Proof. reflexivity. Qed.

Lemma bind_Next {Ret A B} (m : M Ret A) (k : A → M Ret B) s s' a :
  m s = (s', Next a) → (m ≫= k) s = k a s'.
Proof. intros H. by rewrite bind_eq, H. Qed.

Lemma bind_Returned {Ret A B} (m : M Ret A) (k : A → M Ret B) s s' v :
  m s = (s', Returned v) → (m ≫= k) s = (s', Returned v).
Proof. intros H. by rewrite bind_eq, H. Qed.

(** [io.ReadFull(rw, b[lo:hi])] on a buffer whose first [lo] bytes are
    [p]: the next [hi - lo] bytes of the stream land right behind [p]. *)
Lemma ReadFull_b_stream {Ret} c p q lo hi data tail rest :
  Stream c (data ++ tail) rest →
  lo = length p → hi = lo + length data → length data ≤ length q →
  ∃ c', ReadFull_b (Ret:=Ret) lo hi (mkSt c (p ++ q))
          = (mkSt c' ((p ++ data) ++ drop (length data) q), Next None)
        ∧ Stream c' tail rest
        ∧ tx c' = tx c ∧ txErr c' = txErr c ∧ local c' = local c.
Proof.
  intros HS -> -> Hq.
  destruct (io_ReadFull_stream c data tail rest HS) as (c' & Hread & Hrest).
  exists c'. split; [|done].
  unfold ReadFull_b. cbn [b rw]. rewrite length_app.
  rewrite (proj2 (Nat.leb_le _ _)) by lia.
  rewrite (proj2 (Nat.leb_le _ _)) by lia. cbn [andb].
  replace (length p + length data - length p) with (length data) by lia.
  rewrite Hread. by rewrite store_app.
Qed.

Lemma when_false {Ret} (stmt : M Ret ()) s : when false stmt s = (s, Next ()).
Proof. reflexivity. Qed.

Lemma when_true {Ret} (stmt : M Ret ()) s : when true stmt s = stmt s.
Proof. reflexivity. Qed.

Lemma buffer_check {Ret} (n need : nat) msg s :
  need ≤ n → when (Ret:=Ret) (n <? need) (panic msg) s = (s, Next ()).
Proof. intros H. by rewrite (proj2 (Nat.ltb_ge _ _)). Qed.

Lemma at_b_eq {Ret} c buf i x :
  buf !! i = Some x → at_b (Ret:=Ret) i (mkSt c buf) = (mkSt c buf, Next x).
Proof. intros H. unfold at_b. cbn [b]. by rewrite H. Qed.

Lemma at_b_mid {Ret} c p x q i :
  i = length p → at_b (Ret:=Ret) i (mkSt c (p ++ x :: q)) = (mkSt c (p ++ x :: q), Next x).
Proof. intros ->. apply at_b_eq, list_lookup_middle. done. Qed.

Lemma slice_b_mid {Ret} c p d q lo hi :
  lo = length p → hi = lo + length d →
  slice_b (Ret:=Ret) lo hi (mkSt c (p ++ d ++ q)) = (mkSt c (p ++ d ++ q), Next d).
Proof.
  intros -> ->. unfold slice_b. cbn [b]. rewrite !length_app.
  rewrite (proj2 (Nat.leb_le _ _)) by lia.
  rewrite (proj2 (Nat.leb_le _ _)) by lia. cbn [andb].
  by rewrite slice_app_mid.
Qed.

Lemma set_b_1 {Ret} c x y l v :
  set_b (Ret:=Ret) 1 v (mkSt c (x :: y :: l)) = (mkSt c (x :: v :: l), Next ()).
Proof. reflexivity. Qed.

Lemma Write_b_0_2 {Ret} c x y l :
  Write_b (Ret:=Ret) 0 2 (mkSt c (x :: y :: l))
  = (mkSt (conn_Write c [x; y]).1 (x :: y :: l), Next (conn_Write c [x; y]).2).
Proof. unfold Write_b. cbn -[conn_Write]. rewrite take_0. by destruct (conn_Write c [x; y]). Qed.

Lemma tx_conn_Write c p : tx (conn_Write c p).1 = tx c ++ [p].
Proof. unfold conn_Write. by destruct (txErr c). Qed.

Lemma rx_conn_Write c p : rx (conn_Write c p).1 = rx c.
Proof. unfold conn_Write. by destruct (txErr c). Qed.

Lemma local_conn_Write c p : local (conn_Write c p).1 = local c.
Proof. unfold conn_Write. by destruct (txErr c). Qed.

Lemma err_conn_Write c p : (conn_Write c p).2 = default None (head (txErr c)).
Proof. unfold conn_Write. by destruct (txErr c). Qed.

Lemma Stream_conn_Write c p bytes rest :
  Stream c bytes rest → Stream (conn_Write c p).1 bytes rest.
Proof. intros (chunks & H1 & H2). exists chunks. by rewrite rx_conn_Write. Qed.

(** One statement that falls through: [tac] shows what it evaluates to. *)
Ltac mstep tac := erewrite bind_Next; [|tac].
(** One statement that returns. *)
Ltac mreturn tac := erewrite bind_Returned; [|tac].

(** ** Method selection *)

Lemma bytes_IndexByte_first s c i :
  s !! i = Some c → (∀ j, j < i → s !! j ≠ Some c) →
  bytes_IndexByte s c = Z.of_nat i.
Proof.
  revert i. induction s as [|x s IH]; intros i Hi Hbefore; [done|].
  simpl. destruct i as [|i].
  - simpl in Hi. injection Hi as ->. by rewrite decide_True.
  - rewrite decide_False.
    2:{ intros ->. by apply (Hbefore 0); [lia|]. }
    rewrite (IH i); [|done|].
    + destruct i; simpl; lia.
    + intros j Hj. apply (Hbefore (S j)). lia.
Qed.

Lemma bytes_IndexByte_range s c : (-1 ≤ bytes_IndexByte s c)%Z.
Proof.
  induction s as [|x s IH]; simpl; [lia|].
  destruct (decide (x = c)); [lia|].
  destruct (bytes_IndexByte s c); lia.
Qed.

Lemma bytes_IndexByte_found s c : c ∈ s → bytes_IndexByte s c ≠ (-1)%Z.
Proof.
  induction s as [|x s IH]; [by intros ?%elem_of_nil|].
  intros [->|Hin]%elem_of_cons; simpl.
  - by rewrite decide_True.
  - destruct (decide (x = c)); [done|].
    specialize (IH Hin). pose proof (bytes_IndexByte_range s c).
    destruct (bytes_IndexByte s c); lia.
Qed.

(** NMETHODS = 0: the three-byte read is all that happens. *)
Lemma serverHandleMethodSelection_zero c buf method x tail rest :
  1 + 1 + 255 ≤ length buf →
  Stream c (x05 :: x00 :: x :: tail) rest →
  ∃ s, call (serverHandleMethodSelection method) c buf = (s, Ok (Some (Socks5 errZeroNMETHODS)))
       ∧ tx (rw s) = tx c ∧ Stream (rw s) tail rest.
Proof.
  intros Hbuf HS.
  destruct (ReadFull_b_stream (Ret:=option error) c [] buf 0 3 [x05; x00; x] tail rest)
    as (c1 & Hread & HS1 & Htx & _); [done|done|done|simpl; lia|].
  unfold call, serverHandleMethodSelection.
  mstep ltac:(reflexivity).
  mstep ltac:(by apply buffer_check).
  mstep ltac:(apply Hread).
  mstep ltac:(reflexivity).
  mstep ltac:(by apply at_b_eq).
  mstep ltac:(apply when_false).
  mstep ltac:(by apply at_b_eq).
  mreturn ltac:(reflexivity).
  eexists. split; [reflexivity|]. done.
Qed.

(** NMETHODS > 1 with [method] among the methods offered. *)
Lemma serverHandleMethodSelection_many c buf method nm ms tail rest :
  1 + 1 + 255 ≤ length buf →
  Stream c (x05 :: nm :: ms ++ tail) rest →
  length ms = int_of_byte nm → 2 ≤ int_of_byte nm →
  bytes_IndexByte ms method ≠ (-1)%Z →
  ∃ s, call (serverHandleMethodSelection method) c buf
         = (s, Ok (default None (head (txErr c))))
       ∧ tx (rw s) = tx c ++ [[x05; method]] ∧ Stream (rw s) tail rest.
Proof.
  intros Hbuf HS Hlen Hnm Hfound.
  destruct ms as [|m0 ms]; [simpl in Hlen; lia|].
  pose proof (int_of_byte_le nm) as Hnm'.
  destruct (ReadFull_b_stream (Ret:=option error) c [] buf 0 3 [x05; nm; m0] (ms ++ tail) rest)
    as (c1 & Hread1 & HS1 & Htx1 & Herr1 & _); [done|done|done|simpl; lia|].
  destruct (ReadFull_b_stream (Ret:=option error) c1 [x05; nm; m0] (drop 3 buf)
              3 (3 + int_of_byte nm - 1) ms tail rest)
    as (c2 & Hread2 & HS2 & Htx2 & Herr2 & _);
    [done|done|simpl in Hlen; lia|rewrite length_drop; simpl in Hlen; lia|].
  unfold call, serverHandleMethodSelection.
  mstep ltac:(reflexivity).
  mstep ltac:(by apply buffer_check).
  mstep ltac:(apply Hread1).
  mstep ltac:(reflexivity).
  mstep ltac:(by apply at_b_eq).
  mstep ltac:(apply when_false).
  mstep ltac:(by apply at_b_eq).
  destruct (int_of_byte nm) as [|[|n]] eqn:En; [lia|lia|].
  mstep ltac:(
    mstep ltac:(apply Hread2);
    mstep ltac:(reflexivity);
    mstep ltac:(apply (slice_b_mid _ [x05; nm] (m0 :: ms)); [done|simpl in *; lia]);
    reflexivity).
  mstep ltac:(rewrite bool_decide_eq_false_2 by done; apply when_false).
  mstep ltac:(apply set_b_1).
  mstep ltac:(apply Write_b_0_2).
  rewrite err_conn_Write, Herr2, Herr1.
  eexists. split; [reflexivity|]. cbn [rw].
  rewrite tx_conn_Write. split.
  - congruence.
  - by apply Stream_conn_Write.
Qed.

(** ** Username/password sub-negotiation *)

(** Lengths of buffers put together from known parts. *)
Ltac len_solve :=
  repeat first [rewrite length_app | rewrite length_drop | rewrite length_take
               | rewrite length_replicate | progress cbn [length] in *];
  lia.

(** What the server does with a complete authentication message
    [1, ULEN, UNAME, PLEN, PASSWD], however it was segmented. *)
Lemma serverHandleUsernamePassword_stream
    (table : gmap string UserInfo) c buf ulen uname plen passwd tail rest :
  1 + 1 + 255 + 1 ≤ length buf →
  Stream c (x01 :: ulen :: uname ++ plen :: passwd ++ tail) rest →
  length uname = int_of_byte ulen → int_of_byte ulen ≠ 0 →
  length passwd = int_of_byte plen → int_of_byte plen ≠ 0 →
  let lookup := table !! string_of_bytes uname in
  let userInfo := default (mkUserInfo EmptyString EmptyString) lookup in
  let status :=
    if negb (bool_decide (is_Some lookup))
       || bool_decide (string_of_bytes passwd ≠ Password userInfo)
    then x01 else x00 in
  ∃ s, call (serverHandleUsernamePassword table) c buf
         = (s, Ok (if bool_decide (status ≠ x00)
                   then (EmptyString, Some (Socks5 ErrIncorrectUsernamePassword))
                   else (Username userInfo, default None (head (txErr c)))))
       ∧ tx (rw s) = tx c ++ [[x01; status]]
       ∧ Stream (rw s) tail rest
       ∧ slice (b s) 2 (2 + length passwd) = passwd.
Proof.
  intros Hbuf HS Hulen Hu0 Hplen Hp0 lookup userInfo status.
  pose proof (int_of_byte_le ulen) as Hule.
  pose proof (int_of_byte_le plen) as Hple.
  unfold call, serverHandleUsernamePassword.
  mstep ltac:(reflexivity).
  mstep ltac:(by apply buffer_check).
  (* UNAME and PLEN arrive in one read or in two. *)
  assert (∃ c1 q, Stream c1 (passwd ++ tail) rest ∧ tx c1 = tx c ∧ txErr c1 = txErr c
                  ∧ 255 ≤ length (uname ++ plen :: q)
                  ∧ ∀ B (k : byte → M (string * option error) B),
                      (ReadFull_b 0 4 ≫= λ err,
                       check err (λ e, (EmptyString, Some e)) ≫= λ _,
                       at_b 0 ≫= λ b0,
                       when (bool_decide (b0 ≠ UsernamePasswordAuthVersion))
                         (Return (EmptyString,
                            Some (Socks5 (UnsupportedUsernamePasswordAuthVersionError b0)))) ≫= λ _,
                       at_b 1 ≫= λ b1,
                       when (bool_decide (int_of_byte b1 = 0))
                         (Return (EmptyString, Some (Socks5 errZeroULEN))) ≫= λ _,
                       when (1 <? int_of_byte b1)
                         (ReadFull_b 4 (4 + int_of_byte b1 - 1) ≫= λ err,
                          check err (λ e, (EmptyString, Some e))) ≫= λ _,
                       k b1) (mkSt c buf)
                      = k ulen (mkSt c1 (x01 :: ulen :: uname ++ plen :: q)))
    as (c1 & q & HS1 & Htx1 & Herr1 & Hq & Hpre).
  { destruct uname as [|u0 [|u1 uname]]; [simpl in Hulen; lia|..].
    - destruct (ReadFull_b_stream (Ret:=string * option error) c [] buf 0 4
                  [x01; ulen; u0; plen] (passwd ++ tail) rest)
        as (c1 & Hread & HS1 & Htx1 & Herr1 & _); [done|done|done|simpl; lia|].
      exists c1, (drop 4 buf). split_and!; try done; [len_solve|].
      intros B k.
      mstep ltac:(apply Hread).
      mstep ltac:(reflexivity).
      mstep ltac:(by apply at_b_eq).
      mstep ltac:(apply when_false).
      mstep ltac:(by apply at_b_eq).
      mstep ltac:(rewrite bool_decide_eq_false_2 by done; apply when_false).
      mstep ltac:(rewrite <- Hulen; apply when_false).
      reflexivity.
    - destruct (ReadFull_b_stream (Ret:=string * option error) c [] buf 0 4
                  [x01; ulen; u0; u1] (uname ++ plen :: passwd ++ tail) rest)
        as (c0 & Hread0 & HS0 & Htx0 & Herr0 & _); [done|done|done|simpl; lia|].
      rewrite (cons_middle plen), app_assoc in HS0.
      destruct (ReadFull_b_stream (Ret:=string * option error) c0 [x01; ulen; u0; u1]
                  (drop 4 buf) 4 (4 + int_of_byte ulen - 1) (uname ++ [plen])
                  (passwd ++ tail) rest)
        as (c1 & Hread1 & HS1 & Htx1 & Herr1 & _); [done|done|len_solve|len_solve|].
      exists c1, (drop (length (uname ++ [plen])) (drop 4 buf)).
      split_and!; try congruence; [len_solve|].
      intros B k.
      mstep ltac:(apply Hread0).
      mstep ltac:(reflexivity).
      mstep ltac:(by apply at_b_eq).
      mstep ltac:(apply when_false).
      mstep ltac:(by apply at_b_eq).
      mstep ltac:(rewrite bool_decide_eq_false_2 by done; apply when_false).
      mstep ltac:(
        rewrite (proj2 (Nat.ltb_lt 1 (int_of_byte ulen))) by (simpl in Hulen; lia);
        rewrite when_true;
        mstep ltac:(apply Hread1);
        reflexivity).
      f_equal. f_equal. simpl. by rewrite <- !app_assoc. }
  erewrite (Hpre _ (λ b1, _)). clear Hpre.
  (* PASSWD is read over UNAME. *)
  destruct (ReadFull_b_stream (Ret:=string * option error) c1 [x01; ulen]
              (uname ++ plen :: q) 2 (2 + int_of_byte plen) passwd tail rest)
    as (c2 & Hread2 & HS2 & Htx2 & Herr2 & _); [done|done|lia|lia|].
  set (q2 := drop (length passwd) (uname ++ plen :: q)) in Hread2.
  mstep ltac:(apply (slice_b_mid _ [x01; ulen] uname (plen :: q)); [done|simpl; lia]).
  mstep ltac:(apply (at_b_mid _ (x01 :: ulen :: uname) plen q); simpl; lia).
  mstep ltac:(rewrite bool_decide_eq_false_2 by done; apply when_false).
  mstep ltac:(apply Hread2).
  mstep ltac:(reflexivity).
  mstep ltac:(apply (slice_b_mid _ [x01; ulen] passwd q2); [done|simpl; lia]).
  fold lookup. fold userInfo. fold status.
  mstep ltac:(apply set_b_1).
  mstep ltac:(apply Write_b_0_2).
  rewrite err_conn_Write, Herr2, Herr1.
  assert (tx (conn_Write c2 [x01; status]).1 = tx c ++ [[x01; status]]) as Htx.
  { rewrite tx_conn_Write. congruence. }
  assert (slice (x01 :: status :: passwd ++ q2) 2 (2 + length passwd) = passwd) as Hsl.
  { apply (slice_app_mid [x01; status] passwd q2). }
  pose proof (Stream_conn_Write c2 [x01; status] _ _ HS2) as HS3.
  case_bool_decide as Hst.
  - mreturn ltac:(reflexivity).
    eexists. split; [reflexivity|]. done.
  - mstep ltac:(apply when_false).
    eexists. split; [reflexivity|]. done.
Qed.

(** ** The prefixed reader under [io.ReadFull] *)

Lemma prefixedReader_Read_nil {R} `{Reader R} (r0 : R) n :
  Read (mkPrefixedReader [] r0) n
  = (mkPrefixedReader [] (Read r0 n).1, (Read r0 n).2).
Proof.
  unfold Read at 1, prefixedReader_Reader, prefixedReader_Read. simpl.
  by destruct (Read r0 n).
Qed.

Lemma ReadAtLeast_loop_prefixed_nil {R} `{Reader R} fuel (r0 : R) size min got err :
  ReadAtLeast_loop fuel (mkPrefixedReader [] r0) size min got err
  = (λ '(r', res), (mkPrefixedReader [] r', res)) <$> ReadAtLeast_loop fuel r0 size min got err.
Proof.
  revert r0 got err. induction fuel as [|fuel IH]; intros r0 got err; simpl.
  - by destruct (_ && _).
  - destruct (_ && _); [|done].
    rewrite prefixedReader_Read_nil.
    destruct (Read r0 (size - length got)) as [r' [d e]]. simpl. apply IH.
Qed.

(** Once the prefix is used up, [io.ReadFull] on the prefixed reader is
    [io.ReadFull] on the reader underneath. *)
Lemma io_ReadFull_prefixed_nil {R} `{Reader R} (r0 : R) n :
  io_ReadFull (mkPrefixedReader [] r0) n
  = (mkPrefixedReader [] (io_ReadFull r0 n).1, (io_ReadFull r0 n).2).
Proof.
  unfold io_ReadFull. rewrite ReadAtLeast_loop_prefixed_nil.
  destruct (ReadAtLeast_loop n r0 n n [] None) as [[r' res]|]; done.
Qed.

(** A two-byte prefix satisfies a two-byte [io.ReadFull] by itself. *)
Lemma io_ReadFull_prefix_2 {R} `{Reader R} (r0 : R) x y :
  io_ReadFull (newPrefixedReader [x; y] r0) 2 = (mkPrefixedReader [] r0, ([x; y], None)).
Proof. reflexivity. Qed.

(** ** The address codec *)

(** The lengths a well-formed SOCKS address can have. *)
Lemma ConnAddrFromSlice_whole sa addr :
  ConnAddrFromSlice sa = (addr, length sa, None) →
  ∃ atyp x sa', sa = atyp :: x :: sa'
    ∧ ((atyp = AtypIPv4 ∧ length sa' = IPv4AddrLen - 2)
       ∨ (atyp ≠ AtypIPv4 ∧ atyp = AtypIPv6 ∧ length sa' = IPv6AddrLen - 2)
       ∨ (atyp ≠ AtypIPv4 ∧ atyp ≠ AtypIPv6 ∧ atyp = AtypDomainName
          ∧ int_of_byte x ≠ 0 ∧ length sa' = 1 + 1 + int_of_byte x + 2 - 2)).
Proof.
  unfold ConnAddrFromSlice. destruct sa as [|atyp body]; [done|].
  destruct (decide (atyp = AtypIPv4)) as [->|H4].
  { destruct body as [|a0 [|a1 [|a2 [|a3 [|hi [|lo body]]]]]]; try done.
    intros [= <- Hlen]. exists AtypIPv4, a0, (a1 :: a2 :: a3 :: hi :: lo :: body).
    split; [done|]. left. split; [done|]. unfold IPv4AddrLen in *. simpl in *. lia. }
  destruct (decide (atyp = AtypIPv6)) as [->|H6].
  { destruct (drop 16 body) as [|hi [|lo tl]] eqn:Hdrop; try done.
    intros [= <- Hlen].
    destruct body as [|x sa']; [done|].
    exists AtypIPv6, x, sa'. split; [done|]. right; left. split_and!; try done.
    unfold IPv6AddrLen in *. simpl in *. lia. }
  destruct (decide (atyp = AtypDomainName)) as [->|Hd]; [|done].
  destruct body as [|n host]; [done|].
  destruct (decide (int_of_byte n = 0)) as [|Hn]; [done|].
  destruct (drop (int_of_byte n) host) as [|hi [|lo tl]] eqn:Hdrop; try done.
  intros [= <- Hlen].
  exists AtypDomainName, n, host. split; [done|]. right; right. split_and!; try done.
  simpl in *. lia.
Qed.

Lemma ConnAddrFromSlice_whole_length sa addr :
  ConnAddrFromSlice sa = (addr, length sa, None) → length sa ≤ MaxAddrLen.
Proof.
  intros (atyp & x & sa' & -> & Hcase)%ConnAddrFromSlice_whole.
  pose proof (int_of_byte_le x).
  unfold MaxAddrLen, IPv4AddrLen, IPv6AddrLen in *. simpl.
  destruct Hcase as [[_ ?]|[(_ & _ & ?)|(_ & _ & _ & _ & ?)]]; lia.
Qed.

(** [AppendFromReader] behind a prefixed reader that holds the first two
    bytes of a well-formed address: it takes the rest of the address
    from the stream, and not a byte more. *)
Lemma AppendFromReader_stream c atyp x sa' addr tail rest :
  ConnAddrFromSlice (atyp :: x :: sa') = (addr, length (atyp :: x :: sa'), None) →
  Stream c (sa' ++ tail) rest →
  ∃ c', AppendFromReader [] (newPrefixedReader [atyp; x] c)
          = (mkPrefixedReader [] c', (atyp :: x :: sa', None))
        ∧ Stream c' tail rest
        ∧ tx c' = tx c ∧ txErr c' = txErr c ∧ local c' = local c.
Proof.
  intros Hsa HS.
  destruct (io_ReadFull_stream c sa' tail rest HS) as (c' & Hread & Hrest).
  exists c'. split; [|done].
  apply ConnAddrFromSlice_whole in Hsa as (? & ? & ? & [= <- <- <-] & Hcase).
  unfold AppendFromReader. rewrite io_ReadFull_prefix_2.
  destruct Hcase as [[-> Hlen]|[(H4 & -> & Hlen)|(H4 & H6 & -> & Hx & Hlen)]].
  - rewrite decide_True by done. rewrite <- Hlen.
    rewrite io_ReadFull_prefixed_nil, Hread. done.
  - rewrite decide_False, decide_True by done. rewrite <- Hlen.
    rewrite io_ReadFull_prefixed_nil, Hread. done.
  - rewrite !decide_False by done. rewrite decide_True by done.
    rewrite decide_False by done. rewrite <- Hlen.
    rewrite io_ReadFull_prefixed_nil, Hread. done.
Qed.

(** ** Requests *)

Lemma length_AppendAddrFromAddrPort hd lap :
  length (AppendAddrFromAddrPort hd lap) ≤ length hd + IPv6AddrLen.
Proof.
  unfold AppendAddrFromAddrPort, IPv6AddrLen, port_bytes.
  destruct (ap_addr lap); len_solve.
Qed.

Lemma copy_b_0 {Ret} c buf data :
  length data ≤ length buf →
  copy_b (Ret:=Ret) 0 data (mkSt c buf) = (mkSt c (data ++ drop (length data) buf), Next ()).
Proof.
  intros H. unfold copy_b. cbn [b rw].
  rewrite (proj2 (Nat.leb_le _ _)) by (simpl; lia).
  by rewrite store_0.
Qed.

Lemma Write_b_prefix {Ret} c d q :
  Write_b (Ret:=Ret) 0 (length d) (mkSt c (d ++ q))
  = (mkSt (conn_Write c d).1 (d ++ q), Next (conn_Write c d).2).
Proof.
  unfold Write_b. cbn [b rw]. rewrite length_app.
  rewrite (proj2 (Nat.leb_le _ _)) by lia.
  rewrite (proj2 (Nat.leb_le _ _)) by lia. cbn [andb].
  replace (slice (d ++ q) 0 (length d)) with d.
  - by destruct (conn_Write c d).
  - symmetry. apply (slice_app_mid [] d q).
Qed.

Lemma Read_b_0_1 {Ret} c buf :
  1 ≤ length buf →
  Read_b (Ret:=Ret) 0 1 (mkSt c buf)
  = (mkSt (Read c 1).1 (store buf 0 (Read c 1).2.1), Next (Read c 1).2.2).
Proof.
  intros H. unfold Read_b. cbn [b rw].
  rewrite (proj2 (Nat.leb_le 1 (length buf))) by done. cbn [Nat.leb andb Nat.sub].
  by destruct (Read c 1) as [c2 [d err]].
Qed.

Lemma txErr_conn_Write c p : txErr (conn_Write c p).1 = drop 1 (txErr c).
Proof. unfold conn_Write. by destruct (txErr c). Qed.

(** What [serverHandleRequest] does with a UDP ASSOCIATE request that
    carries a well-formed address [sa], on a TCP connection with local
    endpoint [lap], when UDP is enabled: [c1] is the connection once the
    reply has been written. *)
Lemma serverHandleRequest_udp enableTCP c buf rsv sa addr tail rest lap :
  3 + MaxAddrLen ≤ length buf →
  Stream c (x05 :: x03 :: rsv :: sa ++ tail) rest →
  ConnAddrFromSlice sa = (addr, length sa, None) →
  local c = Some lap →
  ∃ c1 buf1,
    Stream c1 tail rest
    ∧ tx c1 = tx c ++ [AppendAddrFromAddrPort [x05; x00; rsv] lap]
    ∧ txErr c1 = drop 1 (txErr c) ∧ local c1 = local c
    ∧ 1 ≤ length buf1
    ∧ call (serverHandleRequest enableTCP true) c buf
      = match default None (head (txErr c)) with
        | Some e => (mkSt c1 buf1, Ok (addr, Some e))
        | None =>
            let '(c2, (d, err)) := Read c1 1 in
            (mkSt c2 (store buf1 0 d),
             Ok (addr, if bool_decide (err ≠ None) && bool_decide (err ≠ Some io_EOF)
                       then err else Some (Socks5 ErrUDPAssociateDone)))
        end.
Proof.
  intros Hbuf HS Hsa Hlocal.
  pose proof (ConnAddrFromSlice_whole_length _ _ Hsa) as Hsalen.
  destruct (ConnAddrFromSlice_whole _ _ Hsa) as (atyp & x & sa' & -> & _).
  unfold MaxAddrLen in *.
  destruct (ReadFull_b_stream (Ret:=conn_Addr * option error) c [] buf 0 5
              [x05; x03; rsv; atyp; x] (sa' ++ tail) rest)
    as (c0 & Hread0 & HS0 & Htx0 & Herr0 & Hloc0); [done|done|done|simpl; lia|].
  destruct (AppendFromReader_stream c0 atyp x sa' addr tail rest Hsa HS0)
    as (c1 & Happ & HS1 & Htx1 & Herr1 & Hloc1).
  set (reply := AppendAddrFromAddrPort [x05; x00; rsv] lap).
  pose proof (length_AppendAddrFromAddrPort [x05; x00; rsv] lap) as Hreply. fold reply in Hreply.
  unfold IPv6AddrLen in Hreply. simpl in Hreply.
  set (buf0 := ([x05; x03; rsv] ++ atyp :: x :: sa') ++
               drop (length (atyp :: x :: sa')) (atyp :: x :: drop 5 buf)).
  assert (length buf0 = length buf) as Hbuf0.
  { unfold buf0. simpl in *. len_solve. }
  set (buf1 := reply ++ drop (length reply) (x05 :: x00 :: rsv :: atyp :: x :: sa' ++
                 drop (length (atyp :: x :: sa')) (atyp :: x :: drop 5 buf))).
  exists (conn_Write c1 reply).1, buf1. split_and!.
  { by apply Stream_conn_Write. }
  { rewrite tx_conn_Write. congruence. }
  { rewrite txErr_conn_Write. congruence. }
  { rewrite local_conn_Write. congruence. }
  { unfold buf1. rewrite length_app. destruct reply eqn:E; simpl; [|lia].
    unfold reply, AppendAddrFromAddrPort in E. by destruct (ap_addr lap). }
  unfold call, serverHandleRequest.
  mstep ltac:(reflexivity).
  mstep ltac:(by apply buffer_check).
  mstep ltac:(apply Hread0).
  mstep ltac:(reflexivity).
  mstep ltac:(by apply at_b_eq).
  mstep ltac:(apply when_false).
  mstep ltac:(apply (slice_b_mid _ [x05; x03; rsv] [atyp; x] (drop 5 buf)); done).
  mstep ltac:(cbn [rw b]; rewrite Happ; cbn [r fst];
              rewrite (store_app [x05; x03; rsv] (atyp :: x :: drop 5 buf))
                by (simpl in *; len_solve);
              reflexivity).
  fold buf0. cbv beta iota.
  mstep ltac:(reflexivity).
  rewrite Hsa. cbv beta iota.
  mstep ltac:(reflexivity).
  mstep ltac:(by apply at_b_eq).
  rewrite bool_decide_eq_false_2 by done. cbn [andb].
  rewrite bool_decide_eq_true_2 by done. cbn [andb].
  mstep ltac:(reflexivity).
  cbn [rw]. rewrite Hloc1, Hloc0, Hlocal.
  mstep ltac:(apply set_b_1).
  mstep ltac:(apply (slice_b_mid _ [] [x05; x00; rsv]); done).
  fold reply.
  mstep ltac:(apply copy_b_0; simpl in *; len_solve).
  fold buf1.
  mstep ltac:(apply Write_b_prefix).
  rewrite err_conn_Write, Herr1, Herr0.
  destruct (default None (head (txErr c))) as [e|].
  { mreturn ltac:(reflexivity). reflexivity. }
  mstep ltac:(reflexivity).
  assert (1 ≤ length buf1) as Hb1.
  { unfold buf1. rewrite length_app. destruct reply eqn:E; simpl; [|lia].
    unfold reply, AppendAddrFromAddrPort in E. by destruct (ap_addr lap). }
  mstep ltac:(apply (Read_b_0_1 _ buf1 Hb1)).
  destruct (Read (conn_Write c1 reply).1 1) as [c2 [d err]]. cbn [fst snd].
  destruct (bool_decide (err ≠ None) && bool_decide (err ≠ Some io_EOF)); reflexivity.
Qed.

(** ** The session table *)

Lemma table_ok_update t ss i s s' :
  ss !! i = Some s → s_csid s' = s_csid s →
  (before_delete (s_pc s) = true → before_delete (s_pc s') = true) →
  table_ok t ss → table_ok t (<[i := s']> ss).
Proof.
  intros Hi Hcsid Hpc Hok csid j Hj.
  destruct (Hok csid j Hj) as (sj & Hsj & Hc & Hb).
  destruct (decide (i = j)) as [->|Hne].
  - exists s'. rewrite list_lookup_insert_eq by (by eapply lookup_lt_Some).
    split_and!; [done|congruence|]. apply Hpc. congruence.
  - exists sj. by rewrite list_lookup_insert_ne.
Qed.

Lemma table_ok_insert t ss s :
  before_delete (s_pc s) = true →
  table_ok t ss → table_ok (<[s_csid s := length ss]> t) (ss ++ [s]).
Proof.
  intros Hpc Hok csid j Hj.
  destruct (decide (s_csid s = csid)) as [<-|Hne].
  - rewrite lookup_insert_eq in Hj. injection Hj as <-.
    exists s. by rewrite list_lookup_middle.
  - rewrite lookup_insert_ne in Hj by done.
    destruct (Hok csid j Hj) as (sj & Hsj & Hc & Hb).
    exists sj. split; [|done]. apply lookup_app_l_Some. done.
Qed.

Lemma table_ok_delete t ss i s s' :
  ss !! i = Some s → s_csid s' = s_csid s →
  table_ok t ss → table_ok (delete (s_csid s) t) (<[i := s']> ss).
Proof.
  intros Hi Hcsid Hok csid j Hj.
  apply lookup_delete_Some in Hj as [Hne Hj].
  destruct (Hok csid j Hj) as (sj & Hsj & Hc & Hb).
  destruct (decide (i = j)) as [->|Hij]; [congruence|].
  exists sj. by rewrite list_lookup_insert_ne.
Qed.

Lemma sess_step_Some i pc w f w' :
  sess_step i pc w f = Some w' →
  ∃ s, sessions w !! i = Some s ∧ s_pc s = pc ∧ w' = f s w.
Proof.
  unfold sess_step. intros H.
  destruct (sessions w !! i) as [s|]; simpl in H; [|done].
  destruct (decide (s_pc s = pc)); [|done]. injection H as <-. eauto.
Qed.

Lemma up_step_Some i pc w f w' :
  up_step i pc w f = Some w' →
  ∃ s, sessions w !! i = Some s ∧ s_up s = pc ∧ w' = f s w.
Proof.
  unfold up_step. intros H.
  destruct (sessions w !! i) as [s|]; simpl in H; [|done].
  destruct (decide (s_up s = pc)); [|done]. injection H as <-. eauto.
Qed.

(** A step of a session's goroutine or of its uplink. *)
Ltac session_step H :=
  first [apply sess_step_Some in H as (?s & ?Hs & ?Hpc & ->)
        |apply up_step_Some in H as (?s & ?Hs & ?Hpc & ->)].

Ltac relay_fields :=
  cbn [table sessions put_session set_sessions set_table set_wg set_lock set_stop
       set_ingress set_serverConn set_mwg set_started
       s_csid s_pc set_s_pc set_s_up set_s_state set_s_natConn set_s_sendCh
       set_s_sendChClean] in *.

Lemma step_table_ok a w w' :
  step a w = Some w' → table_ok (table w) (sessions w) → table_ok (table w') (sessions w').
Proof.
  intros Hstep Hok.
  destruct a; simpl in Hstep; try session_step Hstep.
  all: try (repeat (case_match; simplify_option_eq); try done; relay_fields;
            try (by eapply table_ok_update; eauto); fail).
  - (* ActIngressHandle *)
    destruct (ingress w); try done. destruct ok; [|by simplify_eq].
    destruct (table w !! csid) as [i|] eqn:Ht.
    + destruct (sessions w !! i) as [s|] eqn:Hs; simplify_option_eq. relay_fields.
      by eapply table_ok_update.
    + simplify_eq. relay_fields.
      apply (table_ok_insert _ _ (mkSession csid _ _ _ _ _ _)); done.
  - (* ActStopSwap *)
    destruct (stop w) as [| | | |[|csid todo]| | | |]; try done.
    destruct (table w !! csid) as [i|]; simpl in Hstep; [|done].
    destruct (sessions w !! i) as [s|] eqn:Hs; simpl in Hstep; [|done].
    assert (table_ok (table w) (<[i := set_s_state (Some TheServerConn) s]> (sessions w)))
      as Hok1 by (by eapply table_ok_update).
    destruct (s_state s) as [[j|]|]; simplify_option_eq; relay_fields; try done.
    match goal with
    | H : <[_ := _]> _ !! j = Some ?sj |- _ => by eapply (table_ok_update _ _ j sj)
    end.
  - (* ActSessLock *)
    destruct (lock w); [done|]. session_step Hstep. relay_fields.
    by eapply table_ok_update.
  - (* ActSessDelete *)
    relay_fields. by eapply table_ok_delete.
  - (* ActSessUnlock *)
    relay_fields. eapply table_ok_update; eauto. by rewrite Hpc.
  - (* ActSessDrain *)
    relay_fields. eapply table_ok_update; eauto.
    + by destruct (s_sendChClean s).
    + by rewrite Hpc.
  - (* ActUpSend *)
    destruct (sessions w !! i) as [s|] eqn:Hs; simpl in Hstep; [|done].
    destruct (s_up s), (ch_len (s_sendCh s)); simplify_eq. relay_fields.
    by eapply table_ok_update.
  - (* ActUpEnd *)
    destruct (sessions w !! i) as [s|] eqn:Hs; simpl in Hstep; [|done].
    destruct (_ && _); simplify_eq. relay_fields.
    by eapply table_ok_update.
Qed.

(** The steps of [Stop] leave the table as it is. *)
Lemma stop_step_table a w w' :
  match a with
  | ActStopCall | ActStopSetDeadline _ | ActStopWaitIngress | ActStopLock | ActStopSwap
  | ActStopUnlock | ActStopWaitSessions | ActStopClose _ => True
  | _ => False
  end →
  step a w = Some w' → table w' = table w.
Proof.
  intros Ha Hstep. destruct a; try done; simpl in Hstep;
    repeat (case_match; simplify_option_eq); done.
Qed.

(** ** The scenarios of the specification *)

(** Method selection: the client sends 05 01 00, the server answers
    05 00 and reports success. *)
Example scenario_method_selection :
  let c := mkConn [([x05; x01; x00], None)] [] [] None in
  let res := call (serverHandleMethodSelection MethodNoAuthenticationRequired) c scratch in
  tx (rw res.1) = [[x05; x00]] ∧ res.2 = Ok None.
Proof. vm_compute. done. Qed.

(** No acceptable method: 05 01 02 against a server that wants method
    0 is answered 05 FF. *)
Example scenario_no_acceptable_method :
  let c := mkConn [([x05; x01; x02], None)] [] [] None in
  let res := call (serverHandleMethodSelection MethodNoAuthenticationRequired) c scratch in
  tx (rw res.1) = [[x05; xff]] ∧ res.2 = Ok (Some (Socks5 ErrNoAcceptableAuthMethod)).
Proof. vm_compute. done. Qed.

(** Username/password success: user/pass against a table that has
    them is answered 01 00. *)
Example scenario_username_password :
  let c := mkConn [(AppendAuthMsg (mkUserInfo "user" "pass") [], None)] [] [] None in
  let res := call (serverHandleUsernamePassword {[ "user"%string := mkUserInfo "user" "pass" ]})
                  c scratch in
  AppendAuthMsg (mkUserInfo "user" "pass") []
  = [x01; x04; x75; x73; x65; x72; x04; x70; x61; x73; x73]
  ∧ tx (rw res.1) = [[x01; x00]] ∧ res.2 = Ok ("user"%string, None).
Proof. vm_compute. done. Qed.

(** CONNECT to example.com:443 through [ServerAccept]: both replies,
    and the target handed to the caller. *)
Example scenario_connect_domain :
  let c := mkConn [([x05; x01; x00], None);
                   ([x05; x01; x00; x03; x0b; x65; x78; x61; x6d; x70; x6c; x65; x2e;
                     x63; x6f; x6d; x01; xbb], None)] [] [] None in
  let res := ServerAccept true false c in
  tx (rw res.1) = [[x05; x00]; [x05; x00; x00; x01; x00; x00; x00; x00; x00; x00]]
  ∧ res.2 = Ok (AddrDomain "example.com" 443, None).
Proof. vm_compute. done. Qed.

(** The UDP ASSOCIATE reply repeats the reserved octet of the request:
    only its second byte is set before the address is appended. *)
Example udp_associate_reply_reserved_octet :
  let c := mkConn [([x05; x03; x7f; x01; x00; x00; x00; x00; x12; x34], None)]
                  [] [] (Some endpoint_10_0_0_1_51820) in
  tx (rw (call (serverHandleRequest true true) c scratch).1)
  = [[x05; x00; x7f; x01; x0a; x00; x00; x01; xca; x6c]].
Proof. vm_compute. done. Qed.

(** [Validate] accepts exactly the lengths 1 to 255, and
    [AuthMsgLength] is the length of what [AppendAuthMsg] appends. *)
Lemma Validate_None u :
  Validate u = None
  ↔ 1 ≤ len_string (Username u) ≤ 255 ∧ 1 ≤ len_string (Password u) ≤ 255.
Proof.
  unfold Validate.
  destruct (255 <? len_string (Username u)) eqn:Hu;
    destruct (255 <? len_string (Password u)) eqn:Hp;
    rewrite ?Nat.ltb_lt, ?Nat.ltb_ge in *;
    do 2 case_bool_decide; cbn [orb]; split; try done; lia.
Qed.

Lemma length_AppendAuthMsg u b0 : length (AppendAuthMsg u b0) = length b0 + AuthMsgLength u.
Proof. unfold AppendAuthMsg, AuthMsgLength, len_string. len_solve. Qed.

(** * The claims *)

(** ** C9: which errors are of the unsupported kind *)

(** C9. An error value of the SOCKS5 engine matches
    [errors.ErrUnsupported] under [errors.Is] exactly when it is an
    [UnsupportedVersionError], an [UnsupportedAuthMethodError], an
    [UnsupportedCommandError] or an
    [UnsupportedUsernamePasswordAuthVersionError]; the sentinels
    (incorrect credentials, no acceptable method, zero NMETHODS, ULEN or
    PLEN, UDP ASSOCIATE done, the length errors) and reply errors do
    not. *)
Theorem errors_Is_ErrUnsupported_iff (e : socks5_error) :
  errors_Is (Socks5 e) errors_ErrUnsupported = true
  ↔ (∃ v, e = UnsupportedVersionError v)
    ∨ (∃ m, e = UnsupportedAuthMethodError m)
    ∨ (∃ c, e = UnsupportedCommandError c)
    ∨ (∃ v, e = UnsupportedUsernamePasswordAuthVersionError v).
Proof.
  split.
  - destruct e; cbn; try discriminate; eauto 6.
  - intros [[v ->]|[[m ->]|[[c ->]|[v ->]]]]; reflexivity.
Qed.

(** ** C8: the prefixed reader *)

Section prefixed_reader.
Context {R : Type} `{Reader R}.

(** C8. While the prefix of a prefixed reader is non-empty, [Read]
    returns the first [min(len(p), len(prefix))] bytes of the prefix
    with a nil error, keeps the rest of the prefix and leaves the
    underlying reader as it was; with the prefix drained, [Read] is
    the underlying reader's [Read].  So no call returns bytes of
    both. *)
Theorem prefixedReader_Read_prefix_then_reader (pr : prefixedReader R) (n : nat) :
  (prefix pr ≠ [] →
     Read pr n = (mkPrefixedReader (drop (n `min` length (prefix pr)) (prefix pr)) (r pr),
                  (take n (prefix pr), None))
     ∧ length (take n (prefix pr)) = n `min` length (prefix pr))
  ∧ (prefix pr = [] →
     Read pr n = (mkPrefixedReader [] (Read (r pr) n).1, (Read (r pr) n).2)).
Proof.
  split.
  - intros Hne. rewrite length_take. split; [|done].
    unfold Read at 1, prefixedReader_Reader, prefixedReader_Read.
    destruct (prefix pr) as [|x l] eqn:E; [done|]. cbn [length Nat.ltb Nat.leb].
    by rewrite length_take.
  - intros Hnil. destruct pr as [p r0]. simpl in Hnil. subst p.
    apply prefixedReader_Read_nil.
Qed.
End prefixed_reader.

(** A two-byte prefix and a one-byte [Read]: one byte of the prefix
    comes back and the connection underneath is untouched. *)
Lemma prefixedReader_Read_prefix_then_reader_witness :
  Read (mkPrefixedReader [x01; x02] (mkConn [([x03], None)] [] [] None)) 1
  = (mkPrefixedReader [x02] (mkConn [([x03], None)] [] [] None), ([x01], None)).
Proof.
  apply (proj1 (prefixedReader_Read_prefix_then_reader
                  (mkPrefixedReader [x01; x02] (mkConn [([x03], None)] [] [] None)) 1)).
  discriminate.
Defined.

(** ** C7 and C6: method selection *)

(** C7, as the claim has it, fails: the server reads three bytes before
    it looks at NMETHODS, so a client that sends VER = 5, NMETHODS = 0
    and nothing more gets [io.ErrUnexpectedEOF], not the zero-NMETHODS
    failure. *)
Lemma zero_nmethods_two_bytes_counterexample :
  let c := mkConn [([x05; x00], None)] [] [] None in
  (call (serverHandleMethodSelection MethodNoAuthenticationRequired) c scratch).2
  = Ok (Some io_ErrUnexpectedEOF)
  ∧ (call (serverHandleMethodSelection MethodNoAuthenticationRequired) c scratch).2
    ≠ Ok (Some (Socks5 errZeroNMETHODS)).
Proof. split; [vm_compute; reflexivity|vm_compute; discriminate]. Qed.

(** C7, amended. Once the three-byte read is complete (VER = 5,
    NMETHODS = 0 and one more byte, in any segmentation),
    [serverHandleMethodSelection] returns the zero-NMETHODS failure and
    has written nothing. *)
Theorem serverHandleMethodSelection_zero_nmethods c buf method x tail rest :
  1 + 1 + 255 ≤ length buf →
  Stream c (x05 :: x00 :: x :: tail) rest →
  ∃ s, call (serverHandleMethodSelection method) c buf
         = (s, Ok (Some (Socks5 errZeroNMETHODS)))
       ∧ tx (rw s) = tx c.
Proof.
  intros Hbuf HS.
  destruct (serverHandleMethodSelection_zero c buf method x tail rest Hbuf HS)
    as (s & Hcall & Htx & _).
  by exists s.
Qed.

Lemma serverHandleMethodSelection_zero_nmethods_witness :
  let c := mkConn [([x05], None); ([x00; x02], None)] [] [] None in
  1 + 1 + 255 ≤ length scratch
  ∧ Stream c (x05 :: x00 :: x02 :: []) []
  ∧ ∃ s, call (serverHandleMethodSelection MethodNoAuthenticationRequired) c scratch
           = (s, Ok (Some (Socks5 errZeroNMETHODS)))
         ∧ tx (rw s) = tx c.
Proof.
  intros c.
  assert (1 + 1 + 255 ≤ length scratch) as Hbuf by (vm_compute; lia).
  assert (Stream c (x05 :: x00 :: x02 :: []) []) as HS
    by (exists [[x05]; [x00; x02]]; split; reflexivity).
  split; [exact Hbuf|]. split; [exact HS|].
  exact (serverHandleMethodSelection_zero_nmethods c scratch
           MethodNoAuthenticationRequired x02 [] [] Hbuf HS).
Defined.

(** C6. With NMETHODS = 255 and the acceptable method only in the last
    place (index 254), [serverHandleMethodSelection] reads the 254
    method bytes that remain and no more, finds the method at index 254
    and writes the selection message [5, method]; it returns nil when
    that write succeeds. *)
Theorem serverHandleMethodSelection_last_of_255 c buf method ms tail rest :
  1 + 1 + 255 ≤ length buf →
  length ms = 255 →
  ms !! 254 = Some method →
  (∀ j, j < 254 → ms !! j ≠ Some method) →
  Stream c (x05 :: xff :: ms ++ tail) rest →
  WriteSucceeds c →
  bytes_IndexByte ms method = 254%Z
  ∧ ∃ s, call (serverHandleMethodSelection method) c buf = (s, Ok None)
         ∧ tx (rw s) = tx c ++ [[x05; method]]
         ∧ Stream (rw s) tail rest.
Proof.
  intros Hbuf Hlen Hlast Hbefore HS Hw.
  assert (bytes_IndexByte ms method = 254%Z) as Hidx
    by (by rewrite (bytes_IndexByte_first ms method 254)).
  split; [done|].
  destruct (serverHandleMethodSelection_many c buf method xff ms tail rest)
    as (s & Hcall & Htx & HS'); try done.
  - vm_compute. lia.
  - by rewrite Hidx.
  - exists s. by rewrite Hw in Hcall.
Qed.

Lemma serverHandleMethodSelection_last_of_255_witness :
  let ms := replicate 254 x01 ++ [x02] in
  let c := mkConn [(x05 :: xff :: take 100 ms, None); (drop 100 ms, None)] [] [] None in
  bytes_IndexByte ms x02 = 254%Z
  ∧ ∃ s, call (serverHandleMethodSelection x02) c scratch = (s, Ok None)
         ∧ tx (rw s) = tx c ++ [[x05; x02]]
         ∧ Stream (rw s) [] [].
Proof.
  intros ms c.
  apply (serverHandleMethodSelection_last_of_255 c scratch x02 ms [] []).
  - vm_compute. lia.
  - reflexivity.
  - reflexivity.
  - intros j Hj. unfold ms. rewrite lookup_app_l by (rewrite length_replicate; lia).
    rewrite lookup_replicate_2 by lia. discriminate.
  - exists [x05 :: xff :: take 100 ms; drop 100 ms]. split; [reflexivity|].
    vm_compute. reflexivity.
  - reflexivity.
Defined.

(** ** C4 and C5: username/password authentication *)

(** C4. For every authentication message with version 1 and non-zero
    ULEN and PLEN, [serverHandleUsernamePassword] writes the two bytes
    [1, STATUS], where STATUS is 0 exactly when the username is a key of
    the credentials table and the password octets are that entry's
    password, and is 1 otherwise; with a non-zero STATUS the response is
    on the stream when the incorrect-credentials failure is returned. *)
Theorem serverHandleUsernamePassword_status
    (table : gmap string UserInfo) c buf ulen uname plen passwd tail rest :
  1 + 1 + 255 + 1 ≤ length buf →
  Stream c (UsernamePasswordAuthVersion :: ulen :: uname ++ plen :: passwd ++ tail) rest →
  length uname = int_of_byte ulen → int_of_byte ulen ≠ 0 →
  length passwd = int_of_byte plen → int_of_byte plen ≠ 0 →
  ∃ s status res,
    call (serverHandleUsernamePassword table) c buf = (s, Ok res)
    ∧ tx (rw s) = tx c ++ [[x01; status]]
    ∧ (status = x00
       ↔ ∃ userInfo, table !! string_of_bytes uname = Some userInfo
                     ∧ passwd = bytes_of_string (Password userInfo))
    ∧ (status ≠ x00 →
       status = x01 ∧ res = (EmptyString, Some (Socks5 ErrIncorrectUsernamePassword))).
Proof.
  intros Hbuf HS Hulen Hu0 Hplen Hp0.
  destruct (serverHandleUsernamePassword_stream table c buf ulen uname plen passwd tail rest)
    as (s & Hcall & Htx & _); try done.
  cbv zeta in Hcall, Htx.
  set (status := if negb _ || _ then x01 else x00) in *.
  exists s, status. eexists. split; [exact Hcall|]. split; [exact Htx|].
  assert (status = x00
          ↔ ∃ userInfo, table !! string_of_bytes uname = Some userInfo
                        ∧ passwd = bytes_of_string (Password userInfo)) as Hiff.
  { clear Hcall Htx. unfold status. clear status.
    destruct (table !! string_of_bytes uname) as [ui|] eqn:Hlook; simpl.
    - case_bool_decide as Hpw.
      + split; [done|]. intros (ui' & [= <-] & ->).
        exfalso. apply Hpw. apply string_of_bytes_of_string.
      + split; [|done]. intros _. exists ui. split; [done|].
        apply (proj1 (string_of_bytes_inj _ _)).
        destruct (decide (string_of_bytes passwd = Password ui)); [done|by destruct Hpw].
    - split; [done|]. by intros (ui' & ? & _). }
  split; [exact Hiff|].
  intros Hne. rewrite bool_decide_eq_true_2 by done. split; [|done].
  unfold status in *. by destruct (negb _ || _).
Qed.

Lemma serverHandleUsernamePassword_status_witness :
  let table : gmap string UserInfo := {[ "user"%string := mkUserInfo "user" "pass" ]} in
  let c := mkConn [([x01; x04; x75; x73; x65], None);
                   ([x72; x04; x70; x61; x73; x74], None)] [] [] None in
  ∃ s status res,
    call (serverHandleUsernamePassword table) c scratch = (s, Ok res)
    ∧ tx (rw s) = tx c ++ [[x01; status]]
    ∧ (status = x00
       ↔ ∃ userInfo, table !! string_of_bytes [x75; x73; x65; x72] = Some userInfo
                     ∧ [x70; x61; x73; x74] = bytes_of_string (Password userInfo))
    ∧ (status ≠ x00 →
       status = x01 ∧ res = (EmptyString, Some (Socks5 ErrIncorrectUsernamePassword))).
Proof.
  intros table c.
  apply (serverHandleUsernamePassword_status table c scratch
           x04 [x75; x73; x65; x72] x04 [x70; x61; x73; x74] [] []).
  - vm_compute. lia.
  - exists [[x01; x04; x75; x73; x65]; [x72; x04; x70; x61; x73; x74]].
    split; reflexivity.
  - reflexivity.
  - vm_compute. lia.
  - reflexivity.
  - vm_compute. lia.
Defined.

Lemma AppendAuthMsg_layout u :
  AppendAuthMsg u []
  = UsernamePasswordAuthVersion :: byte_of_int (len_string (Username u))
    :: bytes_of_string (Username u)
    ++ byte_of_int (len_string (Password u)) :: bytes_of_string (Password u).
Proof. unfold AppendAuthMsg. simpl. by rewrite <- !app_assoc. Qed.

(** C5. For a [UserInfo] whose username and password are 1 to 255
    bytes long, the message [AppendAuthMsg] builds on an empty buffer,
    fed to [serverHandleUsernamePassword] with a table that maps the
    username to that [UserInfo], is answered with STATUS 0; the call
    returns the username, and the password octets read over UNAME in
    the buffer are those of the [UserInfo]. *)
Theorem AppendAuthMsg_serverHandleUsernamePassword
    (u : UserInfo) (table : gmap string UserInfo) c buf tail rest :
  1 ≤ len_string (Username u) ≤ 255 →
  1 ≤ len_string (Password u) ≤ 255 →
  table !! Username u = Some u →
  1 + 1 + 255 + 1 ≤ length buf →
  Stream c (AppendAuthMsg u [] ++ tail) rest →
  WriteSucceeds c →
  ∃ s, call (serverHandleUsernamePassword table) c buf = (s, Ok (Username u, None))
       ∧ tx (rw s) = tx c ++ [[x01; x00]]
       ∧ slice (b s) 2 (2 + len_string (Password u)) = bytes_of_string (Password u)
       ∧ Stream (rw s) tail rest.
Proof.
  intros Hu Hp Htable Hbuf HS Hw.
  rewrite AppendAuthMsg_layout in HS. simpl in HS. rewrite <- app_assoc in HS. simpl in HS.
  destruct (serverHandleUsernamePassword_stream table c buf
              (byte_of_int (len_string (Username u))) (bytes_of_string (Username u))
              (byte_of_int (len_string (Password u))) (bytes_of_string (Password u))
              tail rest)
    as (s & Hcall & Htx & HS' & Hsl); try done.
  - by rewrite int_of_byte_of_int by lia.
  - rewrite int_of_byte_of_int by lia. lia.
  - by rewrite int_of_byte_of_int by lia.
  - rewrite int_of_byte_of_int by lia. lia.
  - cbv zeta in Hcall, Htx. rewrite !string_of_bytes_of_string, Htable in Hcall, Htx.
    change (default (mkUserInfo EmptyString EmptyString) (Some u)) with u in Hcall, Htx.
    rewrite (bool_decide_eq_true_2 (is_Some (Some u))) in Hcall, Htx by eauto.
    rewrite (bool_decide_eq_false_2 (Password u ≠ Password u)) in Hcall, Htx by (by intros ?).
    cbn [negb orb] in Hcall, Htx.
    rewrite (bool_decide_eq_false_2 (x00 ≠ x00)) in Hcall by (by intros ?).
    rewrite Hw in Hcall.
    by exists s.
Qed.

Lemma AppendAuthMsg_serverHandleUsernamePassword_witness :
  let u := mkUserInfo "user" "pass" in
  let c := mkConn [([x01; x04; x75], None); ([x73; x65; x72; x04; x70; x61; x73; x73], None)]
                  [] [] None in
  ∃ s, call (serverHandleUsernamePassword {[ Username u := u ]}) c scratch
         = (s, Ok (Username u, None))
       ∧ tx (rw s) = tx c ++ [[x01; x00]]
       ∧ slice (b s) 2 (2 + len_string (Password u)) = bytes_of_string (Password u)
       ∧ Stream (rw s) [] [].
Proof.
  intros u c.
  apply (AppendAuthMsg_serverHandleUsernamePassword u {[ Username u := u ]} c scratch [] []).
  - vm_compute. lia.
  - vm_compute. lia.
  - apply lookup_singleton_eq.
  - vm_compute. lia.
  - exists [[x01; x04; x75]; [x73; x65; x72; x04; x70; x61; x73; x73]].
    split; reflexivity.
  - reflexivity.
Defined.

(** ** C1 and C3: UDP ASSOCIATE *)

(** C1, as the claim has it, fails: when the read that holds the
    connection open returns an error other than [io.EOF], that error is
    what [serverHandleRequest] returns with the target address, not the
    UDP-ASSOCIATE-done signal.  The reply had been written. *)
Lemma udp_associate_read_error_counterexample :
  let c := udp_associate_conn [([], Some (TransportError 104))] in
  let res := call (serverHandleRequest true true) c scratch in
  tx (rw res.1) = [[x05; x00; x00; x01; x0a; x00; x00; x01; xca; x6c]]
  ∧ res.2 = Ok (AddrIP (mkAddrPort (IPv4 x00 x00 x00 x00) 4660), Some (TransportError 104))
  ∧ res.2 ≠ Ok (AddrIP (mkAddrPort (IPv4 x00 x00 x00 x00) 4660),
                Some (Socks5 ErrUDPAssociateDone)).
Proof. vm_compute. split_and!; [reflexivity|reflexivity|discriminate]. Qed.

(** C1, amended. On a TCP connection, for a UDP ASSOCIATE request with
    UDP enabled, once the success reply is written the server issues one
    [Read] of one byte; when that read returns without an error or with
    [io.EOF], [serverHandleRequest] returns the decoded target address
    with the UDP-ASSOCIATE-done signal, and when it returns any other
    error, the address with that error. *)
Theorem serverHandleRequest_udp_associate_hold
    enableTCP c buf rsv sa addr tail rest localAddrPort :
  3 + MaxAddrLen ≤ length buf →
  Stream c (Version :: CmdUDPAssociate :: rsv :: sa ++ tail) rest →
  ConnAddrFromSlice sa = (addr, length sa, None) →
  local c = Some localAddrPort →
  WriteSucceeds c →
  ∃ c1 s,
    tx c1 = tx c ++ [AppendAddrFromAddrPort [Version; ReplySucceeded; rsv] localAddrPort]
    ∧ Stream c1 tail rest
    ∧ rw s = (Read c1 1).1
    ∧ call (serverHandleRequest enableTCP true) c buf
      = (s, Ok (addr, match (Read c1 1).2.2 with
                      | None | Some io_EOF => Some (Socks5 ErrUDPAssociateDone)
                      | Some e => Some e
                      end)).
Proof.
  intros Hbuf HS Hsa Hlocal Hw.
  destruct (serverHandleRequest_udp enableTCP c buf rsv sa addr tail rest localAddrPort)
    as (c1 & buf1 & HS1 & Htx1 & _ & _ & _ & Hcall); try done.
  rewrite Hw in Hcall.
  destruct (Read c1 1) as [c2 [d err]] eqn:Hread.
  exists c1. eexists. split; [exact Htx1|]. split; [exact HS1|].
  rewrite Hread. cbn [fst snd]. split; [|rewrite Hcall; f_equal; f_equal; f_equal].
  - reflexivity.
  - destruct err as [e|]; [|reflexivity].
    destruct (decide (e = io_EOF)) as [->|Hne]; [reflexivity|].
    rewrite !bool_decide_eq_true_2 by congruence. by destruct e.
Qed.

Lemma serverHandleRequest_udp_associate_hold_witness :
  let c := udp_associate_conn [] in
  ∃ c1 s,
    tx c1 = tx c ++ [AppendAddrFromAddrPort [Version; ReplySucceeded; x00]
                       endpoint_10_0_0_1_51820]
    ∧ Stream c1 [] []
    ∧ rw s = (Read c1 1).1
    ∧ call (serverHandleRequest true true) c scratch
      = (s, Ok (AddrIP (mkAddrPort (IPv4 x00 x00 x00 x00) 4660),
                match (Read c1 1).2.2 with
                | None | Some io_EOF => Some (Socks5 ErrUDPAssociateDone)
                | Some e => Some e
                end)).
Proof.
  intros c.
  apply (serverHandleRequest_udp_associate_hold true c scratch x00
           [x01; x00; x00; x00; x00; x12; x34]
           (AddrIP (mkAddrPort (IPv4 x00 x00 x00 x00) 4660)) [] [] endpoint_10_0_0_1_51820).
  - vm_compute. lia.
  - exists [[x05; x03; x00; x01; x00; x00; x00; x00; x12; x34]]. split; reflexivity.
  - reflexivity.
  - reflexivity.
  - reflexivity.
Defined.

(** C3, as the claim has it, fails: 51820 is 0xCA6C, so the two port
    bytes of the reply are CA 6C, not CA 7C. *)
Lemma udp_associate_reply_counterexample :
  let c := udp_associate_conn [] in
  tx (rw (call (serverHandleRequest true true) c scratch).1)
  = [[x05; x00; x00; x01; x0a; x00; x00; x01; xca; x6c]]
  ∧ tx (rw (call (serverHandleRequest true true) c scratch).1)
    ≠ [[x05; x00; x00; x01; x0a; x00; x00; x01; xca; x7c]].
Proof. vm_compute. split; [reflexivity|discriminate]. Qed.

(** C3, amended. When [serverHandleRequest] accepts a UDP ASSOCIATE
    request whose reserved octet is 00 on a TCP connection whose local
    endpoint is 10.0.0.1:51820, the reply it writes is the ten bytes
    05 00 00 01 0A 00 00 01 CA 6C. *)
Theorem serverHandleRequest_udp_associate_reply enableTCP c buf sa addr tail rest :
  3 + MaxAddrLen ≤ length buf →
  Stream c (Version :: CmdUDPAssociate :: x00 :: sa ++ tail) rest →
  ConnAddrFromSlice sa = (addr, length sa, None) →
  local c = Some endpoint_10_0_0_1_51820 →
  tx (rw (call (serverHandleRequest enableTCP true) c buf).1)
  = tx c ++ [[x05; x00; x00; x01; x0a; x00; x00; x01; xca; x6c]].
Proof.
  intros Hbuf HS Hsa Hlocal.
  destruct (serverHandleRequest_udp enableTCP c buf x00 sa addr tail rest
              endpoint_10_0_0_1_51820)
    as (c1 & buf1 & HS1 & Htx1 & _ & _ & _ & Hcall); try done.
  rewrite Hcall. destruct (default None (head (txErr c))); [exact Htx1|].
  destruct (Read c1 1) as [c2 [d err]] eqn:Hread. cbn [fst rw].
  unfold Read, Conn_Reader, conn_Read in Hread.
  destruct (rx_read (rx c1) 1). injection Hread as <- _. exact Htx1.
Qed.

Lemma serverHandleRequest_udp_associate_reply_witness :
  tx (rw (call (serverHandleRequest true true) (udp_associate_conn []) scratch).1)
  = tx (udp_associate_conn []) ++ [[x05; x00; x00; x01; x0a; x00; x00; x01; xca; x6c]].
Proof.
  apply (serverHandleRequest_udp_associate_reply true (udp_associate_conn []) scratch
           [x01; x00; x00; x00; x00; x12; x34]
           (AddrIP (mkAddrPort (IPv4 x00 x00 x00 x00) 4660)) [] []).
  - vm_compute. lia.
  - exists [[x05; x03; x00; x01; x00; x00; x00; x00; x12; x34]]. split; reflexivity.
  - reflexivity.
  - reflexivity.
Defined.

(** ** C2 and C10: [Stop] and the session table *)


Example stop_returns_before_delete :
  ∃ w s, run stop_during_teardown (NewUDPSessionRelay 16) = Some w
         ∧ stop w = StopReturned None
         ∧ table w !! 7%N = Some 0
         ∧ sessions w !! 0 = Some s ∧ s_pc s = SessTeardownDelete ∧ s_up s = UpFinished.
Proof. do 2 eexists. split; [vm_compute; reflexivity|]. done. Qed.

(** C10. [Stop] on a relay whose [serverConn] is nil returns nil in its
    first step and changes nothing: the listener stays nil, no deadline
    is set, the lock is not taken, the table, the session objects, both
    wait groups and the ingress loop are as before. *)
Theorem Stop_without_Start w :
  serverConn w = None →
  stop w = StopNotCalled →
  ∃ w', step ActStopCall w = Some w'
        ∧ stop w' = StopReturned None
        ∧ serverConn w' = None
        ∧ lock w' = lock w
        ∧ table w' = table w
        ∧ sessions w' = sessions w
        ∧ mwg w' = mwg w ∧ wg w' = wg w
        ∧ ingress w' = ingress w ∧ started w' = started w
        ∧ sendChannelCapacity w' = sendChannelCapacity w.
Proof.
  intros Hnil Hstop. exists (set_stop (StopReturned None) w).
  simpl. rewrite Hstop, Hnil. done.
Qed.

Lemma Stop_without_Start_witness :
  ∃ w', step ActStopCall (NewUDPSessionRelay 16) = Some w'
        ∧ stop w' = StopReturned None
        ∧ serverConn w' = None
        ∧ lock w' = false
        ∧ table w' = ∅
        ∧ sessions w' = []
        ∧ mwg w' = 0 ∧ wg w' = 0
        ∧ ingress w' = IngressNotStarted ∧ started w' = false
        ∧ sendChannelCapacity w' = 16.
Proof.
  apply (Stop_without_Start (NewUDPSessionRelay 16)); reflexivity.
Defined.


(** * Further properties *)

(** ** Reads on any connection *)

Lemma rx_read_frame (c : Conn) n :
  tx (Read c n).1 = tx c ∧ txErr (Read c n).1 = txErr c ∧ local (Read c n).1 = local c.
Proof.
  unfold Read, Conn_Reader, conn_Read. by destruct (rx_read (rx c) n).
Qed.

Lemma ReadAtLeast_loop_frame fuel : ∀ (c : Conn) size min got err c' res,
  ReadAtLeast_loop fuel c size min got err = Some (c', res) →
  tx c' = tx c ∧ txErr c' = txErr c ∧ local c' = local c.
Proof.
  induction fuel as [|fuel IH]; intros c size min got err c' res; simpl.
  - destruct (_ && _); [done|]. by intros [= <- <-].
  - destruct (_ && _); [|by intros [= <- <-]].
    destruct (Read c (size - length got)) as [c1 [d e]] eqn:Hread.
    intros Hloop. destruct (IH _ _ _ _ _ _ _ Hloop) as (H1 & H2 & H3).
    pose proof (rx_read_frame c (size - length got)) as (F1 & F2 & F3).
    rewrite Hread in F1, F2, F3. simpl in *. split_and!; congruence.
Qed.

(** [io.ReadFull] on a connection touches nothing but what is still to
    arrive. *)
Lemma io_ReadFull_frame (c : Conn) n :
  tx (io_ReadFull c n).1 = tx c
  ∧ txErr (io_ReadFull c n).1 = txErr c
  ∧ local (io_ReadFull c n).1 = local c.
Proof.
  unfold io_ReadFull.
  destruct (ReadAtLeast_loop n c n n [] None) as [[c' res]|] eqn:Hloop; [|done].
  by eapply ReadAtLeast_loop_frame.
Qed.

Lemma length_store_any buf off data :
  off ≤ length buf → length (store buf off data) = length buf.
Proof.
  intros H. unfold store. rewrite !length_app, !length_take, length_drop. lia.
Qed.

Lemma store_lookup_lt buf off data i :
  i < off → off ≤ length buf → store buf off data !! i = buf !! i.
Proof.
  intros Hi Hoff. unfold store.
  rewrite lookup_app_l by (rewrite length_take; lia).
  by rewrite lookup_take_lt.
Qed.

(** [io.ReadFull(rw, b[lo:hi])] whatever the connection delivers: the
    buffer keeps its length and the bytes below [lo]. *)
Lemma ReadFull_b_any {Ret} c buf lo hi :
  lo ≤ hi → hi ≤ length buf →
  ∃ c' buf' err,
    ReadFull_b (Ret:=Ret) lo hi (mkSt c buf) = (mkSt c' buf', Next err)
    ∧ length buf' = length buf
    ∧ (∀ i, i < lo → buf' !! i = buf !! i)
    ∧ tx c' = tx c ∧ txErr c' = txErr c ∧ local c' = local c.
Proof.
  intros Hlo Hhi. unfold ReadFull_b. cbn [b rw].
  rewrite (proj2 (Nat.leb_le _ _)) by done.
  rewrite (proj2 (Nat.leb_le _ _)) by done. cbn [andb].
  pose proof (io_ReadFull_frame c (hi - lo)) as Hframe.
  destruct (io_ReadFull c (hi - lo)) as [c' [d err]]. simpl in Hframe.
  exists c', (store buf lo d), err. split_and!; try tauto.
  - apply length_store_any. lia.
  - intros i Hi. apply store_lookup_lt; lia.
Qed.

(** ** Method selection, every case *)

Lemma bytes_IndexByte_absent s c : c ∉ s → bytes_IndexByte s c = (-1)%Z.
Proof.
  induction s as [|x s IH]; [done|].
  intros [Hne Hnin]%not_elem_of_cons. simpl.
  rewrite decide_False by done. by rewrite IH.
Qed.

Lemma bytes_IndexByte_minus_one s c : bytes_IndexByte s c = (-1)%Z ↔ c ∉ s.
Proof.
  split; [|apply bytes_IndexByte_absent].
  intros H Hin. by apply bytes_IndexByte_found in Hin.
Qed.

(** A greeting with NMETHODS >= 1, in any segmentation: what
    [serverHandleMethodSelection] returns, writes and leaves behind. *)
Lemma serverHandleMethodSelection_stream c buf method nm ms tail rest :
  1 + 1 + 255 ≤ length buf →
  Stream c (Version :: nm :: ms ++ tail) rest →
  length ms = int_of_byte nm → 1 ≤ int_of_byte nm →
  ∃ s, call (serverHandleMethodSelection method) c buf
         = (s, Ok (if decide (method ∈ ms) then default None (head (txErr c))
                   else Some (Socks5 ErrNoAcceptableAuthMethod)))
       ∧ tx (rw s) = tx c ++ [[Version; if decide (method ∈ ms) then method
                                        else MethodNoAcceptable]]
       ∧ Stream (rw s) tail rest
       ∧ txErr (rw s) = drop 1 (txErr c)
       ∧ local (rw s) = local c
       ∧ length (b s) = length buf.
Proof.
  intros Hbuf HS Hlen Hnm.
  destruct ms as [|m0 ms]; [simpl in Hlen; lia|].
  pose proof (int_of_byte_le nm) as Hnm'.
  destruct (ReadFull_b_stream (Ret:=option error) c [] buf 0 3 [x05; nm; m0] (ms ++ tail) rest)
    as (c1 & Hread1 & HS1 & Htx1 & Herr1 & Hloc1); [done|done|done|simpl; lia|].
  (* the method index, and the connection once the methods are in *)
  assert (∃ c2 z, Stream c2 tail rest ∧ tx c2 = tx c ∧ txErr c2 = txErr c
            ∧ local c2 = local c
            ∧ (z = (-1)%Z ↔ method ∉ m0 :: ms)
            ∧ ∀ B (k : Z → M (option error) B),
                (match int_of_byte nm with
                 | 0 => Return (Some (Socks5 errZeroNMETHODS))
                 | 1 => b2 ← at_b 2;
                        mret (if bool_decide (b2 ≠ method) then (-1)%Z else 0%Z)
                 | _ => err ← ReadFull_b 3 (3 + int_of_byte nm - 1);
                        check err Some;;
                        methods ← slice_b 2 (2 + int_of_byte nm);
                        mret (bytes_IndexByte methods method)
                 end ≫= k)
                  (mkSt c1 (([] ++ [x05; nm; m0]) ++ drop (length [x05; nm; m0]) buf))
                = k z (mkSt c2 (x05 :: nm :: (m0 :: ms) ++ drop (length ms) (drop 3 buf))))
    as (c2 & z & HS2 & Htx2 & Herr2 & Hloc2 & Hz & Hidx).
  { destruct (int_of_byte nm) as [|[|n]] eqn:En; [lia|..].
    - destruct ms; [|simpl in Hlen; lia].
      exists c1, (if bool_decide (m0 ≠ method) then (-1)%Z else 0%Z).
      do 4 (split; [done|]). split.
      + rewrite list_elem_of_singleton. case_bool_decide; split; try done; congruence.
      + intros B k.
        mstep ltac:(mstep ltac:(by apply at_b_eq); reflexivity).
        cbn [app drop length]. by rewrite drop_0.
    - destruct (ReadFull_b_stream (Ret:=option error) c1 [x05; nm; m0] (drop 3 buf)
                  3 (3 + S (S n) - 1) ms tail rest)
        as (c2 & Hread2 & HS2 & Htx2 & Herr2 & Hloc2);
        [done|done|simpl in Hlen; lia|rewrite length_drop; simpl in Hlen; lia|].
      exists c2, (bytes_IndexByte (m0 :: ms) method).
      do 4 (split; [congruence|]). split; [apply bytes_IndexByte_minus_one|].
      intros B k.
      mstep ltac:(
        mstep ltac:(apply Hread2);
        mstep ltac:(reflexivity);
        mstep ltac:(apply (slice_b_mid _ [x05; nm] (m0 :: ms)); [done|simpl in *; lia]);
        reflexivity).
      reflexivity. }
  unfold call, serverHandleMethodSelection.
  mstep ltac:(reflexivity).
  mstep ltac:(by apply buffer_check).
  mstep ltac:(apply Hread1).
  mstep ltac:(reflexivity).
  mstep ltac:(by apply at_b_eq).
  mstep ltac:(apply when_false).
  mstep ltac:(by apply at_b_eq).
  cbv zeta. rewrite Hidx.
  destruct (decide (method ∈ m0 :: ms)) as [Hin|Hnin].
  - mstep ltac:(rewrite bool_decide_eq_false_2 by (rewrite Hz; by intros ?); apply when_false).
    mstep ltac:(apply set_b_1).
    mstep ltac:(apply Write_b_0_2).
    rewrite err_conn_Write, Herr2.
    eexists. split; [reflexivity|]. cbn [rw b].
    rewrite tx_conn_Write, txErr_conn_Write, local_conn_Write, Htx2, Herr2, Hloc2.
    split; [done|]. split; [by apply Stream_conn_Write|]. do 2 (split; [done|]).
    cbn [length] in *. rewrite length_app, !length_drop. cbn [length]. lia.
  - mreturn ltac:(
      rewrite bool_decide_eq_true_2 by (by apply Hz); rewrite when_true;
      mstep ltac:(apply set_b_1);
      mstep ltac:(apply Write_b_0_2);
      reflexivity).
    eexists. split; [reflexivity|]. cbn [rw b].
    rewrite tx_conn_Write, txErr_conn_Write, local_conn_Write, Htx2, Herr2, Hloc2.
    split; [done|]. split; [by apply Stream_conn_Write|]. do 2 (split; [done|]).
    cbn [length] in *. rewrite length_app, !length_drop. cbn [length]. lia.
Qed.

(** X1. Method selection is membership.  For a greeting with version 5
    and NMETHODS >= 1, the server answers [5, method] when [method] is
    among the methods offered and [5, 0xFF] with the no-acceptable
    failure when it is not; it consumes the greeting and nothing
    else. *)
Theorem serverHandleMethodSelection_selects c buf method nm ms tail rest :
  1 + 1 + 255 ≤ length buf →
  Stream c (Version :: nm :: ms ++ tail) rest →
  length ms = int_of_byte nm → 1 ≤ int_of_byte nm →
  ∃ s, call (serverHandleMethodSelection method) c buf
         = (s, Ok (if decide (method ∈ ms) then default None (head (txErr c))
                   else Some (Socks5 ErrNoAcceptableAuthMethod)))
       ∧ tx (rw s) = tx c ++ [[Version; if decide (method ∈ ms) then method
                                        else MethodNoAcceptable]]
       ∧ Stream (rw s) tail rest.
Proof.
  intros Hbuf HS Hlen Hnm.
  destruct (serverHandleMethodSelection_stream c buf method nm ms tail rest)
    as (s & Hcall & Htx & HS' & _); try done.
  by exists s.
Qed.

Lemma serverHandleMethodSelection_selects_witness :
  let c := mkConn [([x05; x02; x00], None); ([x02], None)] [] [] None in
  ∃ s, call (serverHandleMethodSelection x01) c scratch
         = (s, Ok (if decide (x01 ∈ [x00; x02]) then default None (head (txErr c))
                   else Some (Socks5 ErrNoAcceptableAuthMethod)))
       ∧ tx (rw s) = tx c ++ [[Version; if decide (x01 ∈ [x00; x02]) then x01
                                        else MethodNoAcceptable]]
       ∧ Stream (rw s) [] [].
Proof.
  intros c.
  apply (serverHandleMethodSelection_selects c scratch x01 x02 [x00; x02] [] []).
  - vm_compute. lia.
  - exists [[x05; x02; x00]; [x02]]. split; reflexivity.
  - reflexivity.
  - vm_compute. lia.
Defined.

Lemma at_b_any {Ret} c buf i :
  i < length buf →
  ∃ x, buf !! i = Some x ∧ at_b (Ret:=Ret) i (mkSt c buf) = (mkSt c buf, Next x).
Proof.
  intros Hi. destruct (lookup_lt_is_Some_2 buf i Hi) as [x Hx].
  exists x. split; [done|]. by apply at_b_eq.
Qed.

Lemma slice_b_any {Ret} c buf lo hi :
  lo ≤ hi → hi ≤ length buf →
  slice_b (Ret:=Ret) lo hi (mkSt c buf) = (mkSt c buf, Next (slice buf lo hi)).
Proof.
  intros Hlo Hhi. unfold slice_b. cbn [b].
  rewrite (proj2 (Nat.leb_le _ _)) by done.
  by rewrite (proj2 (Nat.leb_le _ _)) by done.
Qed.

(** Every way [serverHandleMethodSelection] can end, with what it
    leaves of the connection. *)
Lemma serverHandleMethodSelection_outcomes c buf method :
  1 + 1 + 255 ≤ length buf →
  ∃ s res,
    call (serverHandleMethodSelection method) c buf = (s, Ok res)
    ∧ length (b s) = length buf
    ∧ local (rw s) = local c
    ∧ ((tx (rw s) = tx c ∧ res ≠ None)
       ∨ (tx (rw s) = tx c ++ [[Version; MethodNoAcceptable]]
          ∧ res = Some (Socks5 ErrNoAcceptableAuthMethod))
       ∨ (tx (rw s) = tx c ++ [[Version; method]] ∧ txErr (rw s) = drop 1 (txErr c)
          ∧ res = default None (head (txErr c)))).
Proof.
  intros Hbuf.
  unfold call, serverHandleMethodSelection.
  mstep ltac:(reflexivity).
  mstep ltac:(by apply buffer_check).
  destruct (ReadFull_b_any (Ret:=option error) c buf 0 3)
    as (c1 & buf1 & err1 & Hread1 & Hlen1 & _ & Htx1 & Herr1 & Hloc1); [lia|lia|].
  mstep ltac:(apply Hread1).
  destruct err1 as [e|].
  { mreturn ltac:(reflexivity). do 2 eexists. split; [reflexivity|]. cbn [b rw].
    split; [done|]. split; [congruence|]. left. by split. }
  mstep ltac:(reflexivity).
  destruct (at_b_any (Ret:=option error) c1 buf1 0) as (b0 & Hb0 & Hat0); [lia|].
  mstep ltac:(apply Hat0).
  case_bool_decide as Hver.
  { mreturn ltac:(reflexivity). do 2 eexists. split; [reflexivity|]. cbn [b rw].
    split; [done|]. split; [congruence|]. left. by split. }
  mstep ltac:(apply when_false).
  subst b0.
  destruct (at_b_any (Ret:=option error) c1 buf1 1) as (b1 & Hb1 & Hat1); [lia|].
  mstep ltac:(apply Hat1). cbv zeta.
  pose proof (int_of_byte_le b1) as Hle.
  (* the methods are in, or the function has returned *)
  assert (∃ c2 buf2, tx c2 = tx c ∧ txErr c2 = txErr c ∧ local c2 = local c
            ∧ length buf2 = length buf
            ∧ buf2 !! 0 = Some Version
            ∧ ((∃ e, ∀ B (k : Z → M (option error) B),
                  (match int_of_byte b1 with
                   | 0 => Return (Some (Socks5 errZeroNMETHODS))
                   | 1 => b2 ← at_b 2;
                          mret (if bool_decide (b2 ≠ method) then (-1)%Z else 0%Z)
                   | _ => err ← ReadFull_b 3 (3 + int_of_byte b1 - 1);
                          check err Some;;
                          methods ← slice_b 2 (2 + int_of_byte b1);
                          mret (bytes_IndexByte methods method)
                   end ≫= k) (mkSt c1 buf1) = (mkSt c2 buf2, Returned (Some e)))
               ∨ (∃ z, ∀ B (k : Z → M (option error) B),
                  (match int_of_byte b1 with
                   | 0 => Return (Some (Socks5 errZeroNMETHODS))
                   | 1 => b2 ← at_b 2;
                          mret (if bool_decide (b2 ≠ method) then (-1)%Z else 0%Z)
                   | _ => err ← ReadFull_b 3 (3 + int_of_byte b1 - 1);
                          check err Some;;
                          methods ← slice_b 2 (2 + int_of_byte b1);
                          mret (bytes_IndexByte methods method)
                   end ≫= k) (mkSt c1 buf1) = k z (mkSt c2 buf2))))
    as (c2 & buf2 & Htx2 & Herr2 & Hloc2 & Hlen2 & Hv2 & Hmethods).
  { destruct (int_of_byte b1) as [|[|n]] eqn:En.
    - exists c1, buf1. split_and!; try done. left. eexists. intros B k.
      mreturn ltac:(reflexivity). reflexivity.
    - exists c1, buf1. split_and!; try done. right.
      destruct (at_b_any (Ret:=option error) c1 buf1 2) as (b2 & Hb2 & Hat2); [lia|].
      eexists. intros B k.
      mstep ltac:(mstep ltac:(apply Hat2); reflexivity). reflexivity.
    - destruct (ReadFull_b_any (Ret:=option error) c1 buf1 3 (3 + S (S n) - 1))
        as (c2 & buf2 & err2 & Hread2 & Hlen2 & Hlow & Htx2 & Herr2 & Hloc2); [lia|lia|].
      exists c2, buf2. split_and!; try congruence.
      { rewrite Hlow by lia. done. }
      destruct err2 as [e|].
      + left. exists e. intros B k.
        mreturn ltac:(mstep ltac:(apply Hread2); mreturn ltac:(reflexivity); reflexivity).
        reflexivity.
      + right. eexists. intros B k.
        mstep ltac:(
          mstep ltac:(apply Hread2);
          mstep ltac:(reflexivity);
          mstep ltac:(apply slice_b_any; lia);
          reflexivity).
        reflexivity. }
  destruct Hmethods as [(e & Hret)|(z & Hnext)].
  { rewrite Hret. do 2 eexists. split; [reflexivity|]. cbn [b rw].
    split; [done|]. split; [congruence|]. left. by split. }
  rewrite Hnext.
  destruct buf2 as [|x [|y l]]; [simpl in Hlen2; lia..|].
  injection Hv2 as ->.
  case_bool_decide as Hz.
  - mreturn ltac:(rewrite when_true;
                  mstep ltac:(apply set_b_1);
                  mstep ltac:(apply Write_b_0_2);
                  reflexivity).
    do 2 eexists. split; [reflexivity|]. cbn [b rw].
    split; [by rewrite <- Hlen2|]. rewrite local_conn_Write. split; [congruence|].
    right; left. rewrite tx_conn_Write. split; congruence.
  - mstep ltac:(apply when_false).
    mstep ltac:(apply set_b_1).
    mstep ltac:(apply Write_b_0_2).
    do 2 eexists. split; [reflexivity|]. cbn [b rw].
    split; [by rewrite <- Hlen2|]. rewrite local_conn_Write. split; [congruence|].
    right; right.
    rewrite tx_conn_Write, txErr_conn_Write, err_conn_Write. split_and!; congruence.
Qed.

(** X2. Whatever the peer sends and the network does,
    [serverHandleMethodSelection] with a buffer of the documented size
    does not panic, and it either writes nothing and fails, or writes
    [5, 0xFF] and returns the no-acceptable failure, or writes
    [5, method] and returns the error of that write. *)
Theorem serverHandleMethodSelection_any c buf method :
  1 + 1 + 255 ≤ length buf →
  ∃ s res,
    call (serverHandleMethodSelection method) c buf = (s, Ok res)
    ∧ length (b s) = length buf
    ∧ ((tx (rw s) = tx c ∧ res ≠ None)
       ∨ (tx (rw s) = tx c ++ [[Version; MethodNoAcceptable]]
          ∧ res = Some (Socks5 ErrNoAcceptableAuthMethod))
       ∨ (tx (rw s) = tx c ++ [[Version; method]]
          ∧ res = default None (head (txErr c)))).
Proof.
  intros Hbuf.
  destruct (serverHandleMethodSelection_outcomes c buf method Hbuf)
    as (s & res & Hcall & Hlen & _ & Hcases).
  exists s, res. do 2 (split; [done|]).
  destruct Hcases as [?|[?|(? & _ & ?)]]; eauto.
Qed.

Lemma serverHandleMethodSelection_any_witness :
  ∃ s res,
    call (serverHandleMethodSelection x00) (mkConn [([x05; x01], Some io_EOF)] [] [] None)
         scratch = (s, Ok res)
    ∧ length (b s) = length scratch
    ∧ ((tx (rw s) = [] ∧ res ≠ None)
       ∨ (tx (rw s) = [] ++ [[Version; MethodNoAcceptable]]
          ∧ res = Some (Socks5 ErrNoAcceptableAuthMethod))
       ∨ (tx (rw s) = [] ++ [[Version; x00]] ∧ res = None)).
Proof.
  apply (serverHandleMethodSelection_any (mkConn [([x05; x01], Some io_EOF)] [] [] None)
           scratch x00).
  vm_compute. lia.
Defined.

(** ** Authentication, every case *)

(** Every way [serverHandleUsernamePassword] can end, with what it
    leaves of the connection. *)
Lemma serverHandleUsernamePassword_outcomes (table : gmap string UserInfo) c buf :
  1 + 1 + 255 + 1 ≤ length buf →
  ∃ s res,
    call (serverHandleUsernamePassword table) c buf = (s, Ok res)
    ∧ length (b s) = length buf
    ∧ local (rw s) = local c
    ∧ ((tx (rw s) = tx c ∧ res.1 = EmptyString ∧ res.2 ≠ None)
       ∨ (tx (rw s) = tx c ++ [[x01; x01]] ∧ txErr (rw s) = drop 1 (txErr c)
          ∧ res = (EmptyString, Some (Socks5 ErrIncorrectUsernamePassword)))
       ∨ (tx (rw s) = tx c ++ [[x01; x00]] ∧ txErr (rw s) = drop 1 (txErr c)
          ∧ ∃ key userInfo, table !! key = Some userInfo
              ∧ res = (Username userInfo, default None (head (txErr c))))).
Proof.
  intros Hbuf.
  unfold call, serverHandleUsernamePassword.
  mstep ltac:(reflexivity).
  mstep ltac:(by apply buffer_check).
  destruct (ReadFull_b_any (Ret:=string * option error) c buf 0 4)
    as (c1 & buf1 & err1 & Hread1 & Hlen1 & _ & Htx1 & Herr1 & Hloc1); [lia|lia|].
  mstep ltac:(apply Hread1).
  destruct err1 as [e|].
  { mreturn ltac:(reflexivity). do 2 eexists. split; [reflexivity|]. cbn [b rw].
    split; [done|]. split; [congruence|]. left. by split_and!. }
  mstep ltac:(reflexivity).
  destruct (at_b_any (Ret:=string * option error) c1 buf1 0) as (b0 & Hb0 & Hat0); [lia|].
  mstep ltac:(apply Hat0).
  case_bool_decide as Hver.
  { mreturn ltac:(reflexivity). do 2 eexists. split; [reflexivity|]. cbn [b rw].
    split; [done|]. split; [congruence|]. left. by split_and!. }
  mstep ltac:(apply when_false). subst b0.
  destruct (at_b_any (Ret:=string * option error) c1 buf1 1) as (b1 & Hb1 & Hat1); [lia|].
  mstep ltac:(apply Hat1). cbv zeta.
  pose proof (int_of_byte_le b1) as Hle.
  case_bool_decide as Hulen.
  { mreturn ltac:(reflexivity). do 2 eexists. split; [reflexivity|]. cbn [b rw].
    split; [done|]. split; [congruence|]. left. by split_and!. }
  mstep ltac:(apply when_false).
  (* the rest of UNAME and PLEN are in, or the function has returned *)
  assert (∃ c2 buf2, tx c2 = tx c ∧ txErr c2 = txErr c ∧ local c2 = local c
            ∧ length buf2 = length buf
            ∧ buf2 !! 0 = Some UsernamePasswordAuthVersion
            ∧ ((∃ e, ∀ B (k : () → M (string * option error) B),
                  (when (1 <? int_of_byte b1)
                     (err ← ReadFull_b 4 (4 + int_of_byte b1 - 1);
                      check err (λ e, (EmptyString, Some e))) ≫= k) (mkSt c1 buf1)
                  = (mkSt c2 buf2, Returned (EmptyString, Some e)))
               ∨ (∀ B (k : () → M (string * option error) B),
                  (when (1 <? int_of_byte b1)
                     (err ← ReadFull_b 4 (4 + int_of_byte b1 - 1);
                      check err (λ e, (EmptyString, Some e))) ≫= k) (mkSt c1 buf1)
                  = k () (mkSt c2 buf2))))
    as (c2 & buf2 & Htx2 & Herr2 & Hloc2 & Hlen2 & Hv2 & Huname).
  { destruct (1 <? int_of_byte b1) eqn:Hgt.
    - destruct (ReadFull_b_any (Ret:=string * option error) c1 buf1 4 (4 + int_of_byte b1 - 1))
        as (c2 & buf2 & err2 & Hread2 & Hlen2 & Hlow & Htx2 & Herr2 & Hloc2);
        [apply Nat.ltb_lt in Hgt; lia|lia|].
      exists c2, buf2. split_and!; try congruence.
      { rewrite Hlow by lia. done. }
      destruct err2 as [e|].
      + left. exists e. intros B k.
        mreturn ltac:(rewrite when_true; mstep ltac:(apply Hread2); reflexivity).
        reflexivity.
      + right. intros B k.
        mstep ltac:(rewrite when_true; mstep ltac:(apply Hread2); reflexivity).
        reflexivity.
    - exists c1, buf1. split_and!; try done. right. intros B k.
      mstep ltac:(apply when_false). reflexivity. }
  destruct Huname as [(e & Hret)|Hnext].
  { rewrite Hret. do 2 eexists. split; [reflexivity|]. cbn [b rw].
    split; [done|]. split; [congruence|]. left. by split_and!. }
  rewrite Hnext.
  mstep ltac:(apply slice_b_any; lia).
  set (uname := slice buf2 2 (2 + int_of_byte b1)).
  destruct (at_b_any (Ret:=string * option error) c2 buf2 (2 + int_of_byte b1))
    as (bp & Hbp & Hatp); [lia|].
  mstep ltac:(apply Hatp).
  pose proof (int_of_byte_le bp) as Hple.
  destruct (bool_decide (int_of_byte bp = 0)) eqn:Hplen.
  { mreturn ltac:(reflexivity). do 2 eexists. split; [reflexivity|]. cbn [b rw].
    split; [done|]. split; [congruence|]. left. by split_and!. }
  mstep ltac:(apply when_false).
  destruct (ReadFull_b_any (Ret:=string * option error) c2 buf2 2 (2 + int_of_byte bp))
    as (c3 & buf3 & err3 & Hread3 & Hlen3 & Hlow3 & Htx3 & Herr3 & Hloc3); [lia|lia|].
  mstep ltac:(apply Hread3).
  destruct err3 as [e|].
  { mreturn ltac:(reflexivity). do 2 eexists. split; [reflexivity|]. cbn [b rw].
    split; [congruence|]. split; [congruence|]. left. split_and!; [congruence|done..]. }
  mstep ltac:(reflexivity).
  mstep ltac:(apply slice_b_any; lia).
  set (passwd := slice buf3 2 (2 + int_of_byte bp)).
  assert (buf3 !! 0 = Some x01) as Hv3 by (rewrite Hlow3 by lia; done).
  destruct buf3 as [|x [|y l]]; [simpl in Hlen3; lia..|].
  injection Hv3 as ->.
  match goal with |- context [set_b 1 ?st] => set (status := st) end.
  set (userInfo := default _ (table !! string_of_bytes uname)) in *.
  assert (status = x01
          ∨ (status = x00 ∧ table !! string_of_bytes uname = Some userInfo)) as Hstatus.
  { unfold status, userInfo.
    destruct (table !! string_of_bytes uname) as [ui|]; [|by left].
    rewrite bool_decide_eq_true_2 by eauto. cbn [negb orb].
    destruct (bool_decide (string_of_bytes passwd ≠ _)); [by left|by right]. }
  clearbody status userInfo.
  mstep ltac:(apply set_b_1).
  mstep ltac:(apply Write_b_0_2).
  destruct Hstatus as [->|[-> Hlook]].
  - mreturn ltac:(reflexivity).
    do 2 eexists. split; [reflexivity|]. cbn [b rw].
    split; [cbn [length] in *; congruence|].
    rewrite local_conn_Write, tx_conn_Write, txErr_conn_Write.
    split; [congruence|]. right; left. split_and!; [congruence|congruence|done].
  - mstep ltac:(reflexivity).
    do 2 eexists. split; [reflexivity|]. cbn [b rw].
    split; [cbn [length] in *; congruence|].
    rewrite local_conn_Write, tx_conn_Write, txErr_conn_Write, err_conn_Write.
    split; [congruence|]. right; right.
    do 2 (split; [congruence|]). exists (string_of_bytes uname), userInfo.
    split; [done|]. congruence.
Qed.

(** X3. Whatever the peer sends and the network does,
    [serverHandleUsernamePassword] with a buffer of the documented size
    does not panic; it either writes nothing and fails with an empty
    username, or writes [1, 1] and returns the incorrect-credentials
    failure, or writes [1, 0] and returns the [Username] of an entry of
    the credentials table. *)
Theorem serverHandleUsernamePassword_any (table : gmap string UserInfo) c buf :
  1 + 1 + 255 + 1 ≤ length buf →
  ∃ s res,
    call (serverHandleUsernamePassword table) c buf = (s, Ok res)
    ∧ length (b s) = length buf
    ∧ ((tx (rw s) = tx c ∧ res.1 = EmptyString ∧ res.2 ≠ None)
       ∨ (tx (rw s) = tx c ++ [[x01; x01]]
          ∧ res = (EmptyString, Some (Socks5 ErrIncorrectUsernamePassword)))
       ∨ (tx (rw s) = tx c ++ [[x01; x00]]
          ∧ ∃ key userInfo, table !! key = Some userInfo
              ∧ res = (Username userInfo, default None (head (txErr c))))).
Proof.
  intros Hbuf.
  destruct (serverHandleUsernamePassword_outcomes table c buf Hbuf)
    as (s & res & Hcall & Hlen & _ & Hcases).
  exists s, res. do 2 (split; [done|]).
  destruct Hcases as [?|[(? & _ & ?)|(? & _ & ?)]]; eauto.
Qed.

Lemma serverHandleUsernamePassword_any_witness :
  ∃ s res,
    call (serverHandleUsernamePassword ∅)
         (mkConn [([x01; x01; x61; x01], None); ([x62], Some io_EOF)] [] [] None) scratch
    = (s, Ok res)
    ∧ length (b s) = length scratch
    ∧ ((tx (rw s) = [] ∧ res.1 = EmptyString ∧ res.2 ≠ None)
       ∨ (tx (rw s) = [] ++ [[x01; x01]]
          ∧ res = (EmptyString, Some (Socks5 ErrIncorrectUsernamePassword)))
       ∨ (tx (rw s) = [] ++ [[x01; x00]]
          ∧ ∃ key userInfo, (∅ : gmap string UserInfo) !! key = Some userInfo
              ∧ res = (Username userInfo, None))).
Proof.
  apply (serverHandleUsernamePassword_any ∅
           (mkConn [([x01; x01; x61; x01], None); ([x62], Some io_EOF)] [] [] None) scratch).
  vm_compute. lia.
Defined.

(** ** Requests, every command *)

Lemma replyWithStatus_eq {Ret} c buf status :
  3 + IPv4AddrLen ≤ length buf →
  ∃ buf', replyWithStatus (Ret:=Ret) status (mkSt c buf)
          = (mkSt (conn_Write c (status_reply status)).1 buf',
             Next (conn_Write c (status_reply status)).2)
          ∧ length buf' = length buf.
Proof.
  intros Hlen. unfold IPv4AddrLen in Hlen.
  do 10 (destruct buf as [|? buf]; [simpl in Hlen; lia|]).
  eexists. split.
  - unfold replyWithStatus.
    mstep ltac:(apply slice_b_any; unfold IPv4AddrLen; cbn [length]; lia).
    mstep ltac:(reflexivity).
    mstep ltac:(reflexivity).
    mstep ltac:(reflexivity).
    mstep ltac:(reflexivity).
    unfold Write_b. cbn -[conn_Write status_reply]. rewrite take_0.
    unfold status_reply, IPv4UnspecifiedAddr. cbn [app].
    by destruct (conn_Write c _).
  - rewrite take_nil, drop_0. reflexivity.
Qed.

(** Up to the dispatch on CMD: a request with a well-formed address
    [sa] is read, not a byte more, and decoded; what follows is the
    [switch] of [serverHandleRequest]. *)
Lemma serverHandleRequest_dispatch enableTCP enableUDP c buf cmd rsv sa addr tail rest :
  3 + MaxAddrLen ≤ length buf →
  Stream c (Version :: cmd :: rsv :: sa ++ tail) rest →
  ConnAddrFromSlice sa = (addr, length sa, None) →
  ∃ c0 l,
    Stream c0 tail rest ∧ tx c0 = tx c ∧ txErr c0 = txErr c ∧ local c0 = local c
    ∧ length (Version :: cmd :: rsv :: l) = length buf
    ∧ call (serverHandleRequest enableTCP enableUDP) c buf
      = call (if bool_decide (cmd = CmdConnect) && enableTCP then
                err ← replyWithStatus ReplySucceeded;
                mret (addr, err)
              else if bool_decide (cmd = CmdUDPAssociate) && enableUDP then
                tc ← (λ s, (s, Next (local (rw s))));
                match tc with
                | None => Return (addr, Some zerocopy_ErrAcceptRequiresTCPConn)
                | Some localAddrPort =>
                    set_b 1 ReplySucceeded;;
                    hd ← slice_b 0 3;
                    let reply := AppendAddrFromAddrPort hd localAddrPort in
                    copy_b 0 reply;;
                    err ← Write_b 0 (length reply);
                    check err (λ e, (addr, Some e));;
                    err ← Read_b 0 1;
                    when (bool_decide (err ≠ None) && bool_decide (err ≠ Some io_EOF))
                      (Return (addr, err));;
                    mret (addr, Some (Socks5 ErrUDPAssociateDone))
                end
              else
                _ ← replyWithStatus ReplyCommandNotSupported;
                mret (addr, Some (Socks5 (UnsupportedCommandError cmd))))
             c0 (Version :: cmd :: rsv :: l).
Proof.
  intros Hbuf HS Hsa.
  pose proof (ConnAddrFromSlice_whole_length _ _ Hsa) as Hsalen.
  destruct (ConnAddrFromSlice_whole _ _ Hsa) as (atyp & x & sa' & -> & _).
  unfold MaxAddrLen in *.
  destruct (ReadFull_b_stream (Ret:=conn_Addr * option error) c [] buf 0 5
              [x05; cmd; rsv; atyp; x] (sa' ++ tail) rest)
    as (c0 & Hread0 & HS0 & Htx0 & Herr0 & Hloc0); [done|done|done|simpl; lia|].
  destruct (AppendFromReader_stream c0 atyp x sa' addr tail rest Hsa HS0)
    as (c1 & Happ & HS1 & Htx1 & Herr1 & Hloc1).
  exists c1, ((atyp :: x :: sa') ++ drop (length (atyp :: x :: sa')) (atyp :: x :: drop 5 buf)).
  split; [done|]. split; [congruence|]. split; [congruence|]. split; [congruence|].
  split; [cbn [length] in *; len_solve|].
  unfold call at 1, serverHandleRequest.
  mstep ltac:(reflexivity).
  mstep ltac:(by apply buffer_check).
  mstep ltac:(apply Hread0).
  mstep ltac:(reflexivity).
  mstep ltac:(by apply at_b_eq).
  mstep ltac:(apply when_false).
  mstep ltac:(apply (slice_b_mid _ [x05; cmd; rsv] [atyp; x] (drop 5 buf)); done).
  mstep ltac:(cbn [rw b]; rewrite Happ; cbn [r fst];
              rewrite (store_app [x05; cmd; rsv] (atyp :: x :: drop 5 buf))
                by (cbn [length] in *; len_solve);
              reflexivity).
  cbv beta iota.
  mstep ltac:(reflexivity).
  rewrite Hsa. cbv beta iota.
  mstep ltac:(reflexivity).
  mstep ltac:(by apply at_b_eq).
  reflexivity.
Qed.

(** A CONNECT request with a well-formed address, in any segmentation,
    when CONNECT is enabled. *)
Lemma serverHandleRequest_connect_stream enableUDP c buf rsv sa addr tail rest :
  3 + MaxAddrLen ≤ length buf →
  Stream c (Version :: CmdConnect :: rsv :: sa ++ tail) rest →
  ConnAddrFromSlice sa = (addr, length sa, None) →
  ∃ s, call (serverHandleRequest true enableUDP) c buf
         = (s, Ok (addr, default None (head (txErr c))))
       ∧ tx (rw s) = tx c ++ [[x05; x00; x00; x01; x00; x00; x00; x00; x00; x00]]
       ∧ Stream (rw s) tail rest
       ∧ length (b s) = length buf.
Proof.
  intros Hbuf HS Hsa.
  destruct (serverHandleRequest_dispatch true enableUDP c buf CmdConnect rsv sa addr tail rest)
    as (c0 & l & HS0 & Htx0 & Herr0 & _ & Hlen0 & ->); try done.
  cbn [andb]. rewrite bool_decide_eq_true_2 by done. cbn [andb].
  destruct (replyWithStatus_eq (Ret:=conn_Addr * option error) c0
              (Version :: CmdConnect :: rsv :: l) ReplySucceeded)
    as (buf' & Hreply & Hlen'); [unfold MaxAddrLen, IPv4AddrLen in *; lia|].
  unfold call. mstep ltac:(apply Hreply).
  eexists. split; [cbn [mret M_ret]; rewrite err_conn_Write, Herr0; reflexivity|].
  cbn [rw b]. rewrite tx_conn_Write, Htx0.
  split; [done|]. split; [by apply Stream_conn_Write|congruence].
Qed.

(** X4. CONNECT, when enabled.  The server answers a CONNECT request
    with the success reply for the unspecified IPv4 address and hands
    the decoded target to the caller, with the error of the write; the
    stream is left at the first byte after the request. *)
Theorem serverHandleRequest_connect enableUDP c buf rsv sa addr tail rest :
  3 + MaxAddrLen ≤ length buf →
  Stream c (Version :: CmdConnect :: rsv :: sa ++ tail) rest →
  ConnAddrFromSlice sa = (addr, length sa, None) →
  ∃ s, call (serverHandleRequest true enableUDP) c buf
         = (s, Ok (addr, default None (head (txErr c))))
       ∧ tx (rw s) = tx c ++ [[x05; x00; x00; x01; x00; x00; x00; x00; x00; x00]]
       ∧ Stream (rw s) tail rest
       ∧ length (b s) = length buf.
Proof. apply serverHandleRequest_connect_stream. Qed.

Lemma serverHandleRequest_connect_witness :
  let c := mkConn [([x05; x01; x00; x03; x01; x61], None); ([x00; x50; x99], None)]
                  [] [] None in
  ∃ s, call (serverHandleRequest true false) c scratch
         = (s, Ok (AddrDomain "a" 80, default None (head (txErr c))))
       ∧ tx (rw s) = tx c ++ [[x05; x00; x00; x01; x00; x00; x00; x00; x00; x00]]
       ∧ Stream (rw s) [x99] []
       ∧ length (b s) = length scratch.
Proof.
  intros c.
  apply (serverHandleRequest_connect false c scratch x00 [x03; x01; x61; x00; x50]
           (AddrDomain "a" 80) [x99] []).
  - vm_compute. lia.
  - exists [[x05; x01; x00; x03; x01; x61]; [x00; x50; x99]]. split; reflexivity.
  - reflexivity.
Defined.

(** X5. A command that is not enabled.  For BIND, for any unknown
    command, for CONNECT without TCP and for UDP ASSOCIATE without UDP,
    the server writes the command-not-supported reply and returns the
    decoded target with [UnsupportedCommandError(cmd)], whether or not
    that write succeeds. *)
Theorem serverHandleRequest_unsupported_command
    enableTCP enableUDP c buf cmd rsv sa addr tail rest :
  3 + MaxAddrLen ≤ length buf →
  Stream c (Version :: cmd :: rsv :: sa ++ tail) rest →
  ConnAddrFromSlice sa = (addr, length sa, None) →
  ¬ (cmd = CmdConnect ∧ enableTCP = true) →
  ¬ (cmd = CmdUDPAssociate ∧ enableUDP = true) →
  ∃ s, call (serverHandleRequest enableTCP enableUDP) c buf
         = (s, Ok (addr, Some (Socks5 (UnsupportedCommandError cmd))))
       ∧ tx (rw s) = tx c ++ [[x05; x07; x00; x01; x00; x00; x00; x00; x00; x00]].
Proof.
  intros Hbuf HS Hsa Htcp Hudp.
  destruct (serverHandleRequest_dispatch enableTCP enableUDP c buf cmd rsv sa addr tail rest)
    as (c0 & l & HS0 & Htx0 & Herr0 & _ & Hlen0 & ->); try done.
  assert (bool_decide (cmd = CmdConnect) && enableTCP = false) as ->.
  { case_bool_decide; [|done]. destruct enableTCP; [|done]. by destruct Htcp. }
  assert (bool_decide (cmd = CmdUDPAssociate) && enableUDP = false) as ->.
  { case_bool_decide; [|done]. destruct enableUDP; [|done]. by destruct Hudp. }
  destruct (replyWithStatus_eq (Ret:=conn_Addr * option error) c0
              (Version :: cmd :: rsv :: l) ReplyCommandNotSupported)
    as (buf' & Hreply & Hlen'); [unfold MaxAddrLen, IPv4AddrLen in *; lia|].
  unfold call. mstep ltac:(apply Hreply).
  eexists. split; [reflexivity|].
  cbn [rw]. by rewrite tx_conn_Write, Htx0.
Qed.

Lemma serverHandleRequest_unsupported_command_witness :
  let c := mkConn [([x05; x02; x00; x01; x7f; x00; x00; x01; x00; x50], None)]
                  [] [Some (TransportError 32)] None in
  ∃ s, call (serverHandleRequest true true) c scratch
         = (s, Ok (AddrIP (mkAddrPort (IPv4 x7f x00 x00 x01) 80),
                   Some (Socks5 (UnsupportedCommandError CmdBind))))
       ∧ tx (rw s) = tx c ++ [[x05; x07; x00; x01; x00; x00; x00; x00; x00; x00]].
Proof.
  intros c.
  apply (serverHandleRequest_unsupported_command true true c scratch CmdBind x00
           [x01; x7f; x00; x00; x01; x00; x50]
           (AddrIP (mkAddrPort (IPv4 x7f x00 x00 x01) 80)) [] []).
  - vm_compute. lia.
  - exists [[x05; x02; x00; x01; x7f; x00; x00; x01; x00; x50]]. split; reflexivity.
  - reflexivity.
  - by intros [? _].
  - by intros [? _].
Defined.

(** X6. UDP ASSOCIATE needs a TCP connection.  On any other
    [io.ReadWriter] the server returns the decoded target with
    [zerocopy.ErrAcceptRequiresTCPConn] and writes no reply. *)
Theorem serverHandleRequest_udp_requires_tcp enableTCP c buf rsv sa addr tail rest :
  3 + MaxAddrLen ≤ length buf →
  Stream c (Version :: CmdUDPAssociate :: rsv :: sa ++ tail) rest →
  ConnAddrFromSlice sa = (addr, length sa, None) →
  local c = None →
  ∃ s, call (serverHandleRequest enableTCP true) c buf
         = (s, Ok (addr, Some zerocopy_ErrAcceptRequiresTCPConn))
       ∧ tx (rw s) = tx c.
Proof.
  intros Hbuf HS Hsa Hlocal.
  destruct (serverHandleRequest_dispatch enableTCP true c buf CmdUDPAssociate rsv sa addr
              tail rest)
    as (c0 & l & HS0 & Htx0 & Herr0 & Hloc0 & Hlen0 & ->); try done.
  rewrite bool_decide_eq_false_2 by done. cbn [andb].
  rewrite bool_decide_eq_true_2 by done. cbn [andb].
  unfold call. mstep ltac:(reflexivity). cbn [rw]. rewrite Hloc0, Hlocal.
  eexists. split; [reflexivity|]. done.
Qed.

Lemma serverHandleRequest_udp_requires_tcp_witness :
  let c := mkConn [([x05; x03; x00; x01; x00; x00; x00; x00; x00; x00], None)] [] [] None in
  ∃ s, call (serverHandleRequest true true) c scratch
         = (s, Ok (AddrIP (mkAddrPort (IPv4 x00 x00 x00 x00) 0),
                   Some zerocopy_ErrAcceptRequiresTCPConn))
       ∧ tx (rw s) = tx c.
Proof.
  intros c.
  apply (serverHandleRequest_udp_requires_tcp true c scratch x00
           [x01; x00; x00; x00; x00; x00; x00]
           (AddrIP (mkAddrPort (IPv4 x00 x00 x00 x00) 0)) [] []).
  - vm_compute. lia.
  - exists [[x05; x03; x00; x01; x00; x00; x00; x00; x00; x00]]. split; reflexivity.
  - reflexivity.
  - reflexivity.
Defined.

(** ** Requests on any connection *)

(** What every [Read] of a reader preserves, [io.ReadFull] preserves. *)
Lemma ReadAtLeast_loop_inv {R} `{Reader R} (P : R → Prop) :
  (∀ r n, P r → P (Read r n).1) →
  ∀ fuel r size min got err r' res,
    P r → ReadAtLeast_loop fuel r size min got err = Some (r', res) → P r'.
Proof.
  intros HP. induction fuel as [|fuel IH]; intros r0 size min got err r' res Hr; simpl.
  - destruct (_ && _); [done|]. by intros [= <- <-].
  - destruct (_ && _); [|by intros [= <- <-]].
    pose proof (HP r0 (size - length got) Hr) as Hr1.
    destruct (Read r0 (size - length got)) as [r1 [d e]]. simpl in Hr1.
    by apply IH.
Qed.

Lemma io_ReadFull_inv {R} `{Reader R} (P : R → Prop) r n :
  (∀ r n, P r → P (Read r n).1) → P r → P (io_ReadFull r n).1.
Proof.
  intros HP Hr. unfold io_ReadFull.
  destruct (ReadAtLeast_loop n r n n [] None) as [[r' res]|] eqn:Hloop; [|done].
  by eapply (ReadAtLeast_loop_inv P).
Qed.

Lemma prefixedReader_Read_same_writer c (pr : prefixedReader Conn) n :
  same_writer c pr → same_writer c (Read pr n).1.
Proof.
  intros Hpr. unfold Read, prefixedReader_Reader, prefixedReader_Read.
  destruct (0 <? length (prefix pr)); [done|].
  pose proof (rx_read_frame (r pr) n) as (F1 & F2 & F3).
  destruct (Read (r pr) n) as [c' res]. unfold same_writer in *. simpl in *.
  destruct Hpr as (? & ? & ?). split_and!; congruence.
Qed.

(** Decoding an address from the prefixed reader reads, it never
    writes; when it fails it returns no bytes. *)
Lemma AppendFromReader_same_writer c (pr : prefixedReader Conn) :
  same_writer c pr →
  same_writer c (AppendFromReader [] pr).1.
Proof.
  intros Hpr. unfold AppendFromReader.
  pose proof (io_ReadFull_inv (same_writer c) pr 2
                (prefixedReader_Read_same_writer c) Hpr) as H1.
  destruct (io_ReadFull pr 2) as [r1 [hd err]]. simpl in H1.
  destruct err as [e|]; [done|].
  destruct hd as [|atyp [|x [|? ?]]]; try done.
  destruct (if decide (atyp = AtypIPv4) then _ else _) as [n|e]; [|done].
  pose proof (io_ReadFull_inv (same_writer c) r1 n
                (prefixedReader_Read_same_writer c) H1) as H2.
  destruct (io_ReadFull r1 n) as [r2 [tl err]]. simpl in H2.
  by destruct err.
Qed.

(** Every way [serverHandleRequest] can end. *)
Lemma serverHandleRequest_outcomes enableTCP enableUDP c buf :
  3 + MaxAddrLen ≤ length buf →
  ∃ s res,
    call (serverHandleRequest enableTCP enableUDP) c buf = (s, Ok res)
    ∧ (res.2 = None →
       enableTCP = true ∧ tx (rw s) = tx c ++ [status_reply ReplySucceeded]).
Proof.
  intros Hbuf. unfold MaxAddrLen in Hbuf.
  unfold call, serverHandleRequest.
  mstep ltac:(reflexivity).
  mstep ltac:(by apply buffer_check).
  destruct (ReadFull_b_any (Ret:=conn_Addr * option error) c buf 0 5)
    as (c1 & buf1 & err1 & Hread1 & Hlen1 & _ & Htx1 & Herr1 & Hloc1); [lia|lia|].
  mstep ltac:(apply Hread1).
  destruct err1 as [e|].
  { mreturn ltac:(reflexivity). do 2 eexists. split; [reflexivity|]. done. }
  mstep ltac:(reflexivity).
  destruct (at_b_any (Ret:=conn_Addr * option error) c1 buf1 0) as (b0 & Hb0 & Hat0); [lia|].
  mstep ltac:(apply Hat0).
  case_bool_decide as Hver.
  { mreturn ltac:(reflexivity). do 2 eexists. split; [reflexivity|]. done. }
  mstep ltac:(apply when_false).
  mstep ltac:(apply slice_b_any; lia).
  assert (same_writer c (newPrefixedReader (slice buf1 3 5) c1)) as Hsw by done.
  apply AppendFromReader_same_writer in Hsw.
  destruct (AppendFromReader [] (newPrefixedReader (slice buf1 3 5) c1))
    as [pr [sa err]] eqn:Happ.
  destruct Hsw as (Htx2 & Herr2 & Hloc2). cbn [fst] in Htx2, Herr2, Hloc2.
  mstep ltac:(cbn [rw b]; rewrite Happ; reflexivity).
  cbv beta iota. cbn [fst].
  assert (length (store buf1 3 sa) = length buf) as Hlen2
    by (rewrite length_store_any; lia).
  set (buf2 := store buf1 3 sa) in *. clearbody buf2.
  destruct err as [e|].
  { mreturn ltac:(reflexivity). do 2 eexists. split; [reflexivity|]. done. }
  mstep ltac:(reflexivity).
  destruct (ConnAddrFromSlice sa) as [[addr n] err].
  destruct err as [e|].
  { mreturn ltac:(reflexivity). do 2 eexists. split; [reflexivity|]. done. }
  mstep ltac:(reflexivity).
  destruct (at_b_any (Ret:=conn_Addr * option error) (r pr) buf2 1) as (cmd & Hcmd & Hat1);
    [lia|].
  mstep ltac:(apply Hat1).
  destruct (bool_decide (cmd = CmdConnect) && enableTCP) eqn:Hconnect.
  { apply andb_true_iff in Hconnect as [_ ->].
    destruct (replyWithStatus_eq (Ret:=conn_Addr * option error) (r pr) buf2 ReplySucceeded)
      as (buf' & Hreply & Hlen'); [unfold IPv4AddrLen; lia|].
    mstep ltac:(apply Hreply).
    do 2 eexists. split; [reflexivity|]. intros _. split; [done|].
    cbn [rw]. by rewrite tx_conn_Write, Htx2. }
  destruct (bool_decide (cmd = CmdUDPAssociate) && enableUDP).
  - mstep ltac:(reflexivity). cbn [rw].
    destruct (local (r pr)) as [lap|].
    + destruct buf2 as [|x [|y l]]; [simpl in Hlen2; lia..|].
      mstep ltac:(apply set_b_1).
      mstep ltac:(apply slice_b_any; simpl in *; lia).
      pose proof (length_AppendAddrFromAddrPort (slice (x :: ReplySucceeded :: l) 0 3) lap)
        as Hreply.
      assert (length (slice (x :: ReplySucceeded :: l) 0 3) ≤ 3) as Hhd
        by (unfold slice; rewrite length_take; lia).
      unfold IPv6AddrLen in Hreply.
      set (reply := AppendAddrFromAddrPort _ lap) in *. clearbody reply.
      mstep ltac:(apply copy_b_0; simpl in *; lia).
      mstep ltac:(apply Write_b_prefix).
      destruct (conn_Write (r pr) reply) as [c3 [e|]].
      { mreturn ltac:(reflexivity). do 2 eexists. split; [reflexivity|]. done. }
      mstep ltac:(reflexivity).
      mstep ltac:(apply Read_b_0_1; rewrite length_app, length_drop; simpl in *; lia).
      match goal with
      | |- context [bool_decide (?e ≠ None)] =>
          destruct (bool_decide (e ≠ None) && bool_decide (e ≠ Some io_EOF)) eqn:Hhold
      end.
      * mreturn ltac:(reflexivity). do 2 eexists. split; [reflexivity|].
        cbn [snd]. intros Hnone. rewrite Hnone in Hhold.
        by rewrite bool_decide_eq_false_2 in Hhold by (by intros ?).
      * mstep ltac:(apply when_false).
        do 2 eexists. split; [reflexivity|]. done.
    + do 2 eexists. split; [reflexivity|]. done.
  - destruct (replyWithStatus_eq (Ret:=conn_Addr * option error) (r pr) buf2
                ReplyCommandNotSupported)
      as (buf' & Hreply & Hlen'); [unfold IPv4AddrLen; lia|].
    mstep ltac:(apply Hreply).
    do 2 eexists. split; [reflexivity|]. done.
Qed.

(** X7. Whatever the peer sends and the network does,
    [serverHandleRequest] with a buffer of the documented size does not
    panic, and it returns without an error in one case only: CONNECT is
    enabled and the success reply has been written. *)
Theorem serverHandleRequest_any enableTCP enableUDP c buf :
  3 + MaxAddrLen ≤ length buf →
  ∃ s res,
    call (serverHandleRequest enableTCP enableUDP) c buf = (s, Ok res)
    ∧ (res.2 = None →
       enableTCP = true
       ∧ tx (rw s) = tx c ++ [[x05; x00; x00; x01; x00; x00; x00; x00; x00; x00]]).
Proof. apply serverHandleRequest_outcomes. Qed.

Lemma serverHandleRequest_any_witness :
  ∃ s res,
    call (serverHandleRequest false true)
         (mkConn [([x05; x03; x00; x03], None); ([x00], Some io_EOF)] [] [] None) scratch
    = (s, Ok res)
    ∧ (res.2 = None →
       false = true
       ∧ tx (rw s) = [] ++ [[x05; x00; x00; x01; x00; x00; x00; x00; x00; x00]]).
Proof.
  apply (serverHandleRequest_any false true
           (mkConn [([x05; x03; x00; x03], None); ([x00], Some io_EOF)] [] [] None) scratch).
  vm_compute. lia.
Defined.

(** ** The accept functions *)

Lemma length_accept_buffer : length (replicate (3 + MaxAddrLen) x00) = 3 + MaxAddrLen.
Proof. apply length_replicate. Qed.

(** X8. No peer makes [ServerAccept] panic, and it returns without an
    error in one case only: CONNECT is enabled, and the server has
    written the method selection [5, 0] and the success reply, in this
    order, and nothing else. *)
Theorem ServerAccept_any enableTCP enableUDP c :
  ∃ s res,
    ServerAccept enableTCP enableUDP c = (s, Ok res)
    ∧ (res.2 = None →
       enableTCP = true
       ∧ tx (rw s) = tx c ++ [[x05; x00];
                              [x05; x00; x00; x01; x00; x00; x00; x00; x00; x00]]).
Proof.
  unfold ServerAccept.
  destruct (serverHandleMethodSelection_outcomes c (replicate (3 + MaxAddrLen) x00)
              MethodNoAuthenticationRequired)
    as (s & res & -> & Hlen & _ & Hcases);
    [rewrite length_accept_buffer; unfold MaxAddrLen; lia|].
  rewrite length_accept_buffer in Hlen.
  destruct res as [e|]; [by do 2 eexists|].
  destruct Hcases as [[_ ?]|[[_ ?]|(Htx & _ & _)]]; [done..|].
  destruct (serverHandleRequest_outcomes enableTCP enableUDP (rw s) (b s))
    as (s' & res & -> & Hok); [lia|].
  exists s', res. split; [done|]. intros Hnone.
  destruct (Hok Hnone) as [-> Htx']. split; [done|].
  rewrite Htx', Htx, <- app_assoc. reflexivity.
Qed.

(** X9. No peer makes [ServerAcceptUsernamePassword] panic, and it
    returns without an error in one case only: CONNECT is enabled, the
    username returned is that of an entry of the credentials table, and
    the server has written the method selection [5, 2], the
    authentication status [1, 0] and the success reply, in this order,
    and nothing else. *)
Theorem ServerAcceptUsernamePassword_any (table : gmap string UserInfo)
    enableTCP enableUDP c :
  ∃ s res,
    ServerAcceptUsernamePassword table enableTCP enableUDP c = (s, Ok res)
    ∧ (res.2 = None →
       enableTCP = true
       ∧ (∃ key userInfo, table !! key = Some userInfo ∧ res.1.2 = Username userInfo)
       ∧ tx (rw s) = tx c ++ [[x05; x02]; [x01; x00];
                              [x05; x00; x00; x01; x00; x00; x00; x00; x00; x00]]).
Proof.
  unfold ServerAcceptUsernamePassword.
  destruct (serverHandleMethodSelection_outcomes c (replicate (3 + MaxAddrLen) x00)
              MethodUsernamePassword)
    as (s & res & -> & Hlen & _ & Hcases);
    [rewrite length_accept_buffer; unfold MaxAddrLen; lia|].
  rewrite length_accept_buffer in Hlen. unfold MaxAddrLen in Hlen.
  destruct res as [e|]; [by do 2 eexists|].
  destruct Hcases as [[_ ?]|[[_ ?]|(Htx & _ & _)]]; [done..|].
  destruct (serverHandleUsernamePassword_outcomes table (rw s) (b s))
    as (s1 & [username err] & -> & Hlen1 & _ & Hcases1); [lia|].
  destruct err as [e|]; [by do 2 eexists|].
  destruct Hcases1 as [(_ & _ & ?)|[(_ & _ & ?)|(Htx1 & _ & key & userInfo & Hlook & Hres)]];
    [done..|].
  injection Hres as -> _.
  destruct (serverHandleRequest_outcomes enableTCP enableUDP (rw s1) (b s1))
    as (s2 & [addr err] & -> & Hok); [unfold MaxAddrLen; lia|].
  do 2 eexists. split; [reflexivity|]. cbn [fst snd]. intros Hnone.
  destruct (Hok Hnone) as [-> Htx2]. split; [done|]. split; [by eauto|].
  rewrite Htx2, Htx1, Htx, <- !app_assoc. reflexivity.
Qed.

(** A well-formed authentication message, in any segmentation: the
    outcome of [serverHandleUsernamePassword] with what it leaves of
    the connection and of the buffer. *)
Lemma serverHandleUsernamePassword_stream_frame
    (table : gmap string UserInfo) c buf ulen uname plen passwd tail rest :
  1 + 1 + 255 + 1 ≤ length buf →
  Stream c (x01 :: ulen :: uname ++ plen :: passwd ++ tail) rest →
  length uname = int_of_byte ulen → int_of_byte ulen ≠ 0 →
  length passwd = int_of_byte plen → int_of_byte plen ≠ 0 →
  let lookup := table !! string_of_bytes uname in
  let userInfo := default (mkUserInfo EmptyString EmptyString) lookup in
  let status :=
    if negb (bool_decide (is_Some lookup))
       || bool_decide (string_of_bytes passwd ≠ Password userInfo)
    then x01 else x00 in
  ∃ s, call (serverHandleUsernamePassword table) c buf
         = (s, Ok (if bool_decide (status ≠ x00)
                   then (EmptyString, Some (Socks5 ErrIncorrectUsernamePassword))
                   else (Username userInfo, default None (head (txErr c)))))
       ∧ tx (rw s) = tx c ++ [[x01; status]]
       ∧ Stream (rw s) tail rest
       ∧ txErr (rw s) = drop 1 (txErr c)
       ∧ length (b s) = length buf.
Proof.
  intros Hbuf HS Hulen Hu0 Hplen Hp0 lookup userInfo status.
  destruct (serverHandleUsernamePassword_stream table c buf ulen uname plen passwd tail rest)
    as (s & Hcall & Htx & HS' & _); try done.
  destruct (serverHandleUsernamePassword_outcomes table c buf Hbuf)
    as (s' & res & Hcall' & Hlen & _ & Hcases).
  rewrite Hcall in Hcall'. injection Hcall' as <- _.
  exists s. do 3 (split; [done|]). split; [|done].
  destruct Hcases as [(Htx' & _)|[(_ & ? & _)|(_ & ? & _)]]; [|done..].
  rewrite Htx in Htx'. apply (f_equal length) in Htx'.
  rewrite length_app in Htx'. simpl in Htx'. lia.
Qed.

Lemma elem_of_methods_length (method : byte) ms nm :
  method ∈ ms → length ms = int_of_byte nm → 1 ≤ int_of_byte nm.
Proof. intros Hin <-. destruct ms; [by apply elem_of_nil in Hin|simpl; lia]. Qed.

(** The whole handshake of a CONNECT without authentication, in any
    segmentation. *)
Lemma ServerAccept_connect_stream enableUDP c nm ms rsv sa addr tail rest :
  Stream c (Version :: nm :: ms ++ Version :: CmdConnect :: rsv :: sa ++ tail) rest →
  length ms = int_of_byte nm →
  MethodNoAuthenticationRequired ∈ ms →
  ConnAddrFromSlice sa = (addr, length sa, None) →
  txErr c = [] →
  ∃ s, ServerAccept true enableUDP c = (s, Ok (addr, None))
       ∧ tx (rw s) = tx c ++ [[x05; x00];
                              [x05; x00; x00; x01; x00; x00; x00; x00; x00; x00]]
       ∧ Stream (rw s) tail rest.
Proof.
  intros HS Hlen Hin Hsa Hw. unfold ServerAccept.
  destruct (serverHandleMethodSelection_stream c (replicate (3 + MaxAddrLen) x00)
              MethodNoAuthenticationRequired nm ms
              (Version :: CmdConnect :: rsv :: sa ++ tail) rest)
    as (s & -> & Htx & HS1 & Herr1 & _ & Hlen1);
    [rewrite length_accept_buffer; unfold MaxAddrLen; lia|done|done
    |by eapply elem_of_methods_length|].
  rewrite decide_True in Htx by done. rewrite decide_True by done. rewrite Hw in Herr1 |- *. cbn [head default].
  rewrite length_accept_buffer in Hlen1.
  destruct (serverHandleRequest_connect_stream enableUDP (rw s) (b s) rsv sa addr tail rest)
    as (s' & -> & Htx' & HS' & _); [lia|done|done|].
  rewrite Herr1. cbn [drop head default].
  exists s'. split; [done|]. split; [|done].
  rewrite Htx', Htx, <- app_assoc. reflexivity.
Qed.

(** X10. A CONNECT handshake without authentication.  The client offers
    method 0 among its methods and sends a CONNECT request with a
    well-formed address; when no write fails [ServerAccept] answers
    [5, 0] and the success reply, returns the target, and leaves the
    stream at the first byte after the request. *)
Theorem ServerAccept_connect enableUDP c nm ms rsv sa addr tail rest :
  Stream c (Version :: nm :: ms ++ Version :: CmdConnect :: rsv :: sa ++ tail) rest →
  length ms = int_of_byte nm →
  MethodNoAuthenticationRequired ∈ ms →
  ConnAddrFromSlice sa = (addr, length sa, None) →
  txErr c = [] →
  ∃ s, ServerAccept true enableUDP c = (s, Ok (addr, None))
       ∧ tx (rw s) = tx c ++ [[x05; x00];
                              [x05; x00; x00; x01; x00; x00; x00; x00; x00; x00]]
       ∧ Stream (rw s) tail rest.
Proof. apply ServerAccept_connect_stream. Qed.

Lemma ServerAccept_connect_witness :
  let c := mkConn [([x05; x02; x02], None);
                   ([x00; x05; x01; x00; x01; x7f; x00; x00; x01; x01; xbb; x16], None)]
                  [] [] None in
  ∃ s, ServerAccept true false c
         = (s, Ok (AddrIP (mkAddrPort (IPv4 x7f x00 x00 x01) 443), None))
       ∧ tx (rw s) = tx c ++ [[x05; x00];
                              [x05; x00; x00; x01; x00; x00; x00; x00; x00; x00]]
       ∧ Stream (rw s) [x16] [].
Proof.
  intros c.
  apply (ServerAccept_connect false c x02 [x02; x00] x00
           [x01; x7f; x00; x00; x01; x01; xbb]
           (AddrIP (mkAddrPort (IPv4 x7f x00 x00 x01) 443)) [x16] []).
  - exists [[x05; x02; x02];
            [x00; x05; x01; x00; x01; x7f; x00; x00; x01; x01; xbb; x16]].
    split; reflexivity.
  - reflexivity.
  - apply list_elem_of_In. simpl. tauto.
  - reflexivity.
  - reflexivity.
Defined.

(** The whole handshake of a CONNECT with username and password, in any
    segmentation. *)
Lemma ServerAcceptUsernamePassword_connect_stream
    (table : gmap string UserInfo) (u : UserInfo) enableUDP c nm ms rsv sa addr tail rest :
  Stream c (Version :: nm :: ms ++ AppendAuthMsg u []
              ++ Version :: CmdConnect :: rsv :: sa ++ tail) rest →
  length ms = int_of_byte nm →
  MethodUsernamePassword ∈ ms →
  Validate u = None →
  table !! Username u = Some u →
  ConnAddrFromSlice sa = (addr, length sa, None) →
  txErr c = [] →
  ∃ s, ServerAcceptUsernamePassword table true enableUDP c
         = (s, Ok (addr, Username u, None))
       ∧ tx (rw s) = tx c ++ [[x05; x02]; [x01; x00];
                              [x05; x00; x00; x01; x00; x00; x00; x00; x00; x00]]
       ∧ Stream (rw s) tail rest.
Proof.
  intros HS Hlen Hin Hvalid Htable Hsa Hw. unfold ServerAcceptUsernamePassword.
  apply Validate_None in Hvalid as [Hu Hp].
  rewrite AppendAuthMsg_layout in HS. simpl in HS. rewrite <- app_assoc in HS. simpl in HS.
  edestruct (serverHandleMethodSelection_stream c (replicate (3 + MaxAddrLen) x00)
               MethodUsernamePassword nm ms)
    as (s & -> & Htx & HS1 & Herr1 & _ & Hlen1);
    [rewrite length_accept_buffer; unfold MaxAddrLen; lia|exact HS|done
    |by eapply elem_of_methods_length|].
  rewrite decide_True in Htx by done. rewrite decide_True by done. rewrite Hw in Herr1 |- *. cbn [head default].
  rewrite length_accept_buffer in Hlen1. unfold MaxAddrLen in Hlen1.
  destruct (serverHandleUsernamePassword_stream_frame table (rw s) (b s)
              (byte_of_int (len_string (Username u))) (bytes_of_string (Username u))
              (byte_of_int (len_string (Password u))) (bytes_of_string (Password u))
              (Version :: CmdConnect :: rsv :: sa ++ tail) rest)
    as (s1 & Hcall1 & Htx1 & HS2 & Herr2 & Hlen2); try done.
  - lia.
  - by rewrite int_of_byte_of_int by lia.
  - rewrite int_of_byte_of_int by lia. lia.
  - by rewrite int_of_byte_of_int by lia.
  - rewrite int_of_byte_of_int by lia. lia.
  - cbv zeta in Hcall1, Htx1.
    rewrite !string_of_bytes_of_string, Htable in Hcall1, Htx1.
    change (default (mkUserInfo EmptyString EmptyString) (Some u)) with u in Hcall1, Htx1.
    rewrite (bool_decide_eq_true_2 (is_Some (Some u))) in Hcall1, Htx1 by eauto.
    rewrite (bool_decide_eq_false_2 (Password u ≠ Password u)) in Hcall1, Htx1
      by (by intros ?).
    cbn [negb orb] in Hcall1, Htx1.
    rewrite (bool_decide_eq_false_2 (x00 ≠ x00)) in Hcall1 by (by intros ?).
    rewrite Herr1 in Hcall1, Herr2. cbn [drop head default] in Hcall1, Herr2.
    rewrite Hcall1.
    destruct (serverHandleRequest_connect_stream enableUDP (rw s1) (b s1) rsv sa addr
                tail rest)
      as (s2 & -> & Htx2 & HS3 & _); [unfold MaxAddrLen; lia|done|done|].
    rewrite Herr2. cbn [head default].
    exists s2. split; [done|]. split; [|done].
    rewrite Htx2, Htx1, Htx, <- !app_assoc. reflexivity.
Qed.

(** X11. A CONNECT handshake with username and password.  The client
    offers method 2, sends the message [AppendAuthMsg] builds for a
    valid [UserInfo] that the credentials table holds under its
    username, and a CONNECT request; when no write fails
    [ServerAcceptUsernamePassword] answers [5, 2], [1, 0] and the
    success reply, and returns the target and the username. *)
Theorem ServerAcceptUsernamePassword_connect
    (table : gmap string UserInfo) (u : UserInfo) enableUDP c nm ms rsv sa addr tail rest :
  Stream c (Version :: nm :: ms ++ AppendAuthMsg u []
              ++ Version :: CmdConnect :: rsv :: sa ++ tail) rest →
  length ms = int_of_byte nm →
  MethodUsernamePassword ∈ ms →
  Validate u = None →
  table !! Username u = Some u →
  ConnAddrFromSlice sa = (addr, length sa, None) →
  txErr c = [] →
  ∃ s, ServerAcceptUsernamePassword table true enableUDP c
         = (s, Ok (addr, Username u, None))
       ∧ tx (rw s) = tx c ++ [[x05; x02]; [x01; x00];
                              [x05; x00; x00; x01; x00; x00; x00; x00; x00; x00]]
       ∧ Stream (rw s) tail rest.
Proof. apply ServerAcceptUsernamePassword_connect_stream. Qed.

Lemma ServerAcceptUsernamePassword_connect_witness :
  let u := mkUserInfo "user" "pass" in
  let c := mkConn [([x05; x01; x02; x01; x04; x75], None);
                   ([x73; x65; x72; x04; x70; x61; x73; x73], None);
                   ([x05; x01; x00; x03; x01; x61; x00; x50], None)]
                  [] [] None in
  ∃ s, ServerAcceptUsernamePassword {[ Username u := u ]} true false c
         = (s, Ok (AddrDomain "a" 80, Username u, None))
       ∧ tx (rw s) = tx c ++ [[x05; x02]; [x01; x00];
                              [x05; x00; x00; x01; x00; x00; x00; x00; x00; x00]]
       ∧ Stream (rw s) [] [].
Proof.
  intros u c.
  apply (ServerAcceptUsernamePassword_connect {[ Username u := u ]} u false c x01 [x02] x00
           [x03; x01; x61; x00; x50] (AddrDomain "a" 80) [] []).
  - exists [[x05; x01; x02; x01; x04; x75];
            [x73; x65; x72; x04; x70; x61; x73; x73];
            [x05; x01; x00; x03; x01; x61; x00; x50]].
    split; reflexivity.
  - reflexivity.
  - apply list_elem_of_In. simpl. tauto.
  - reflexivity.
  - apply lookup_singleton_eq.
  - reflexivity.
  - reflexivity.
Defined.

(** X12. No request is served without valid credentials.  When the
    username is not in the credentials table, or the password differs
    from the entry's, [ServerAcceptUsernamePassword] answers [5, 2] and
    [1, 1], returns the incorrect-credentials failure with an empty
    username, and reads nothing of what the client sent after the
    authentication message; a failure of the status write is not
    reported. *)
Theorem ServerAcceptUsernamePassword_rejects
    (table : gmap string UserInfo) enableTCP enableUDP c nm ms ulen uname plen passwd
    tail rest :
  Stream c (Version :: nm :: ms
              ++ UsernamePasswordAuthVersion :: ulen :: uname ++ plen :: passwd ++ tail) rest →
  length ms = int_of_byte nm →
  MethodUsernamePassword ∈ ms →
  length uname = int_of_byte ulen → int_of_byte ulen ≠ 0 →
  length passwd = int_of_byte plen → int_of_byte plen ≠ 0 →
  (∀ userInfo, table !! string_of_bytes uname = Some userInfo →
               Password userInfo ≠ string_of_bytes passwd) →
  WriteSucceeds c →
  ∃ s, ServerAcceptUsernamePassword table enableTCP enableUDP c
         = (s, Ok (AddrZero, EmptyString, Some (Socks5 ErrIncorrectUsernamePassword)))
       ∧ tx (rw s) = tx c ++ [[x05; x02]; [x01; x01]]
       ∧ Stream (rw s) tail rest.
Proof.
  intros HS Hlen Hin Hulen Hu0 Hplen Hp0 Hbad Hw. unfold ServerAcceptUsernamePassword.
  edestruct (serverHandleMethodSelection_stream c (replicate (3 + MaxAddrLen) x00)
               MethodUsernamePassword nm ms)
    as (s & -> & Htx & HS1 & Herr1 & _ & Hlen1);
    [rewrite length_accept_buffer; unfold MaxAddrLen; lia|exact HS|done
    |by eapply elem_of_methods_length|].
  rewrite decide_True in Htx by done. rewrite decide_True by done. rewrite Hw.
  rewrite length_accept_buffer in Hlen1. unfold MaxAddrLen in Hlen1.
  destruct (serverHandleUsernamePassword_stream_frame table (rw s) (b s)
              ulen uname plen passwd tail rest)
    as (s1 & Hcall1 & Htx1 & HS2 & _); try done; [lia|].
  cbv zeta in Hcall1, Htx1.
  assert ((if negb (bool_decide (is_Some (table !! string_of_bytes uname)))
              || bool_decide (string_of_bytes passwd
                              ≠ Password (default (mkUserInfo EmptyString EmptyString)
                                            (table !! string_of_bytes uname)))
           then x01 else x00) = x01) as Hstatus.
  { destruct (table !! string_of_bytes uname) as [ui|] eqn:Hlook; [|done].
    rewrite bool_decide_eq_true_2 by eauto. cbn [negb orb default].
    rewrite bool_decide_eq_true_2; [done|]. intros Heq. by apply (Hbad ui). }
  rewrite Hstatus in Hcall1, Htx1.
  rewrite (bool_decide_eq_true_2 (x01 ≠ x00)) in Hcall1 by done.
  rewrite Hcall1.
  exists s1. split; [done|]. split; [|done].
  rewrite Htx1, Htx, <- app_assoc. reflexivity.
Qed.

Lemma ServerAcceptUsernamePassword_rejects_witness :
  let table : gmap string UserInfo := {[ "user"%string := mkUserInfo "user" "pass" ]} in
  let c := mkConn [([x05; x01; x02], None);
                   ([x01; x04; x75; x73; x65; x72; x04; x70; x61; x73; x74], None);
                   ([x05; x01; x00; x03; x01; x61; x00; x50], None)]
                  [] [None; Some (TransportError 32)] None in
  ∃ s, ServerAcceptUsernamePassword table true true c
         = (s, Ok (AddrZero, EmptyString, Some (Socks5 ErrIncorrectUsernamePassword)))
       ∧ tx (rw s) = tx c ++ [[x05; x02]; [x01; x01]]
       ∧ Stream (rw s) [x05; x01; x00; x03; x01; x61; x00; x50] [].
Proof.
  intros table c.
  apply (ServerAcceptUsernamePassword_rejects table true true c x01 [x02]
           x04 [x75; x73; x65; x72] x04 [x70; x61; x73; x74]
           [x05; x01; x00; x03; x01; x61; x00; x50] []).
  - exists [[x05; x01; x02];
            [x01; x04; x75; x73; x65; x72; x04; x70; x61; x73; x74];
            [x05; x01; x00; x03; x01; x61; x00; x50]].
    split; reflexivity.
  - reflexivity.
  - apply list_elem_of_In. simpl. tauto.
  - reflexivity.
  - vm_compute. lia.
  - reflexivity.
  - vm_compute. lia.
  - intros userInfo Hlook.
    assert (userInfo = mkUserInfo "user" "pass") as ->; [|done].
    unfold table in Hlook.
    change (string_of_bytes [x75; x73; x65; x72]) with "user"%string in Hlook.
    rewrite lookup_singleton_eq in Hlook. congruence.
  - reflexivity.
Defined.

(** ** The client half *)

Lemma Write_p_eq {Ret} c buf p :
  Write_p (Ret:=Ret) p (mkSt c buf) = (mkSt (conn_Write c p).1 buf, Next (conn_Write c p).2).
Proof. unfold Write_p. cbn [rw b]. by destruct (conn_Write c p). Qed.

Lemma set_b_0 {Ret} c x l v :
  set_b (Ret:=Ret) 0 v (mkSt c (x :: l)) = (mkSt c (v :: l), Next ()).
Proof. reflexivity. Qed.

Lemma set_b_2 {Ret} c x y z l v :
  set_b (Ret:=Ret) 2 v (mkSt c (x :: y :: z :: l)) = (mkSt c (x :: y :: v :: l), Next ()).
Proof. reflexivity. Qed.

(** The greeting is written, and the server's two bytes are read, in
    any segmentation. *)
Lemma clientNegotiateAuthMethod_stream c buf method v m tail rest :
  3 ≤ length buf →
  Stream c (v :: m :: tail) rest →
  WriteSucceeds c →
  ∃ s, call (clientNegotiateAuthMethod method) c buf
         = (s, Ok (if bool_decide (v ≠ Version)
                   then Some (Socks5 (UnsupportedVersionError v))
                   else if bool_decide (m ≠ method)
                        then Some (Socks5 (UnsupportedAuthMethodError m))
                        else None))
       ∧ tx (rw s) = tx c ++ [[Version; x01; method]]
       ∧ Stream (rw s) tail rest
       ∧ txErr (rw s) = drop 1 (txErr c)
       ∧ local (rw s) = local c
       ∧ length (b s) = length buf.
Proof.
  intros Hbuf HS Hw.
  destruct buf as [|x0 [|x1 [|x2 l]]]; [simpl in Hbuf; lia..|].
  pose proof (Stream_conn_Write c [Version; x01; method] _ _ HS) as HS1.
  destruct (ReadFull_b_stream (Ret:=option error) (conn_Write c [Version; x01; method]).1
              [] (Version :: x01 :: method :: l) 0 2 [v; m] tail rest)
    as (c2 & Hread & HS2 & Htx2 & Herr2 & Hloc2); [done|done|done|simpl; lia|].
  rewrite tx_conn_Write in Htx2. rewrite txErr_conn_Write in Herr2.
  rewrite local_conn_Write in Hloc2.
  unfold call, clientNegotiateAuthMethod.
  mstep ltac:(reflexivity).
  mstep ltac:(by apply buffer_check).
  mstep ltac:(apply set_b_0).
  mstep ltac:(apply set_b_1).
  mstep ltac:(apply set_b_2).
  mstep ltac:(apply (Write_b_prefix _ [Version; x01; method] l)).
  unfold WriteSucceeds in Hw. rewrite err_conn_Write, Hw.
  mstep ltac:(reflexivity).
  mstep ltac:(apply Hread).
  mstep ltac:(reflexivity).
  mstep ltac:(by apply at_b_eq).
  case_bool_decide as Hv.
  { mreturn ltac:(reflexivity). eexists. split; [reflexivity|]. cbn [rw b].
    split_and!; try done. }
  mstep ltac:(apply when_false).
  mstep ltac:(by apply at_b_eq).
  case_bool_decide as Hm.
  { mreturn ltac:(reflexivity). eexists. split; [reflexivity|]. cbn [rw b].
    split_and!; try done. }
  mstep ltac:(apply when_false).
  eexists. split; [reflexivity|]. cbn [rw b]. split_and!; try done.
Qed.

(** X13. The client's method negotiation.  [clientNegotiateAuthMethod]
    writes the greeting [5, 1, method], reads two bytes and nothing
    more, and succeeds exactly when they are [5, method]; another
    version is reported before another method. *)
Theorem clientNegotiateAuthMethod_reply c buf method v m tail rest :
  3 ≤ length buf →
  Stream c (v :: m :: tail) rest →
  WriteSucceeds c →
  ∃ s, call (clientNegotiateAuthMethod method) c buf
         = (s, Ok (if bool_decide (v ≠ Version)
                   then Some (Socks5 (UnsupportedVersionError v))
                   else if bool_decide (m ≠ method)
                        then Some (Socks5 (UnsupportedAuthMethodError m))
                        else None))
       ∧ tx (rw s) = tx c ++ [[Version; x01; method]]
       ∧ Stream (rw s) tail rest.
Proof.
  intros Hbuf HS Hw.
  destruct (clientNegotiateAuthMethod_stream c buf method v m tail rest)
    as (s & Hcall & Htx & HS' & _); try done.
  by exists s.
Qed.

Lemma clientNegotiateAuthMethod_reply_witness :
  let c := mkConn [([x05], None); ([xff; x07], None)] [] [] None in
  ∃ s, call (clientNegotiateAuthMethod MethodNoAuthenticationRequired) c scratch
         = (s, Ok (if bool_decide (x05 ≠ Version)
                   then Some (Socks5 (UnsupportedVersionError x05))
                   else if bool_decide (xff ≠ MethodNoAuthenticationRequired)
                        then Some (Socks5 (UnsupportedAuthMethodError xff))
                        else None))
       ∧ tx (rw s) = tx c ++ [[Version; x01; MethodNoAuthenticationRequired]]
       ∧ Stream (rw s) [x07] [].
Proof.
  intros c.
  apply (clientNegotiateAuthMethod_reply c scratch MethodNoAuthenticationRequired
           x05 xff [x07] []).
  - vm_compute. lia.
  - exists [[x05]; [xff; x07]]. split; reflexivity.
  - reflexivity.
Defined.

(** The authentication message is written, and the server's two bytes
    are read, in any segmentation. *)
Lemma clientDoUsernamePasswordAuth_stream c buf authMsg v status tail rest :
  2 ≤ length buf →
  Stream c (v :: status :: tail) rest →
  WriteSucceeds c →
  ∃ s, call (clientDoUsernamePasswordAuth authMsg) c buf
         = (s, Ok (if bool_decide (v ≠ UsernamePasswordAuthVersion)
                   then Some (Socks5 (UnsupportedUsernamePasswordAuthVersionError v))
                   else if bool_decide (status ≠ x00)
                        then Some (Socks5 ErrIncorrectUsernamePassword)
                        else None))
       ∧ tx (rw s) = tx c ++ [authMsg]
       ∧ Stream (rw s) tail rest
       ∧ txErr (rw s) = drop 1 (txErr c)
       ∧ local (rw s) = local c
       ∧ length (b s) = length buf.
Proof.
  intros Hbuf HS Hw.
  pose proof (Stream_conn_Write c authMsg _ _ HS) as HS1.
  destruct (ReadFull_b_stream (Ret:=option error) (conn_Write c authMsg).1
              [] buf 0 2 [v; status] tail rest)
    as (c2 & Hread & HS2 & Htx2 & Herr2 & Hloc2); [done|done|done|simpl; lia|].
  rewrite tx_conn_Write in Htx2. rewrite txErr_conn_Write in Herr2.
  rewrite local_conn_Write in Hloc2.
  assert (length (([] ++ [v; status]) ++ drop (length [v; status]) buf) = length buf) as Hlen
    by (rewrite length_app, length_drop; simpl; lia).
  unfold call, clientDoUsernamePasswordAuth.
  mstep ltac:(reflexivity).
  mstep ltac:(by apply buffer_check).
  mstep ltac:(apply Write_p_eq).
  unfold WriteSucceeds in Hw. rewrite err_conn_Write, Hw.
  mstep ltac:(reflexivity).
  mstep ltac:(apply Hread).
  mstep ltac:(reflexivity).
  mstep ltac:(by apply at_b_eq).
  case_bool_decide as Hv.
  { mreturn ltac:(reflexivity). eexists. split; [reflexivity|]. cbn [rw b].
    split_and!; try done. }
  mstep ltac:(apply when_false).
  mstep ltac:(by apply at_b_eq).
  case_bool_decide as Hm.
  { mreturn ltac:(reflexivity). eexists. split; [reflexivity|]. cbn [rw b].
    split_and!; try done. }
  mstep ltac:(apply when_false).
  eexists. split; [reflexivity|]. cbn [rw b]. split_and!; try done.
Qed.

(** X14. The client's username/password authentication.
    [clientDoUsernamePasswordAuth] writes the authentication message as
    it is, reads two bytes and nothing more, and succeeds exactly when
    they are [1, 0]; another version is reported before a non-zero
    status. *)
Theorem clientDoUsernamePasswordAuth_reply c buf authMsg v status tail rest :
  2 ≤ length buf →
  Stream c (v :: status :: tail) rest →
  WriteSucceeds c →
  ∃ s, call (clientDoUsernamePasswordAuth authMsg) c buf
         = (s, Ok (if bool_decide (v ≠ UsernamePasswordAuthVersion)
                   then Some (Socks5 (UnsupportedUsernamePasswordAuthVersionError v))
                   else if bool_decide (status ≠ x00)
                        then Some (Socks5 ErrIncorrectUsernamePassword)
                        else None))
       ∧ tx (rw s) = tx c ++ [authMsg]
       ∧ Stream (rw s) tail rest.
Proof.
  intros Hbuf HS Hw.
  destruct (clientDoUsernamePasswordAuth_stream c buf authMsg v status tail rest)
    as (s & Hcall & Htx & HS' & _); try done.
  by exists s.
Qed.

Lemma clientDoUsernamePasswordAuth_reply_witness :
  let c := mkConn [([x01; x01], None)] [] [] None in
  ∃ s, call (clientDoUsernamePasswordAuth [x01; x01; x61; x01; x62]) c scratch
         = (s, Ok (if bool_decide (x01 ≠ UsernamePasswordAuthVersion)
                   then Some (Socks5 (UnsupportedUsernamePasswordAuthVersionError x01))
                   else if bool_decide (x01 ≠ x00)
                        then Some (Socks5 ErrIncorrectUsernamePassword)
                        else None))
       ∧ tx (rw s) = tx c ++ [[x01; x01; x61; x01; x62]]
       ∧ Stream (rw s) [] [].
Proof.
  intros c.
  apply (clientDoUsernamePasswordAuth_reply c scratch [x01; x01; x61; x01; x62]
           x01 x01 [] []).
  - vm_compute. lia.
  - exists [[x01; x01]]. split; reflexivity.
  - reflexivity.
Defined.

Lemma copy_b_app {Ret} c p q data :
  length data ≤ length q →
  copy_b (Ret:=Ret) (length p) data (mkSt c (p ++ q))
  = (mkSt c ((p ++ data) ++ drop (length data) q), Next ()).
Proof.
  intros H. unfold copy_b. cbn [b rw]. rewrite length_app.
  rewrite (proj2 (Nat.leb_le _ _)) by lia.
  by rewrite store_app.
Qed.

(** Up to the reply: the request is put into the buffer and written in
    one [Write]; what follows is the reading half of
    [clientDoRequest]. *)
Lemma clientDoRequest_sent command targetAddr c buf req :
  3 + MaxAddrLen ≤ length buf →
  WriteAddrFromConnAddr targetAddr = Some req →
  length req ≤ MaxAddrLen →
  WriteSucceeds c →
  ∃ buf1,
    length buf1 = length buf
    ∧ call (clientDoRequest command targetAddr) c buf
      = call (err ← ReadFull_b 0 5;
              check err (λ e, (AddrZero, Some e));;
              b0 ← at_b 0;
              when (bool_decide (b0 ≠ Version))
                (Return (AddrZero, Some (Socks5 (UnsupportedVersionError b0))));;
              b1 ← at_b 1;
              when (bool_decide (b1 ≠ ReplySucceeded))
                (Return (AddrZero, Some (Socks5 (ReplyError b1))));;
              pre ← slice_b 3 5;
              '(sa, err) ← (λ s,
                  let '(pr, res) := AppendFromReader [] (newPrefixedReader pre (rw s)) in
                  (mkSt (r pr) (store (b s) 3 (fst res)), Next res));
              check err (λ e, (AddrZero, Some e));;
              let '(addr, _, err) := ConnAddrFromSlice sa in
              mret (addr, err))
             (conn_Write c (Version :: command :: x00 :: req)).1 buf1.
Proof.
  intros Hbuf Hreq Hlen Hw. unfold MaxAddrLen in *.
  destruct buf as [|x0 [|x1 [|x2 l]]]; [simpl in Hbuf; lia..|].
  exists ((Version :: command :: x00 :: req) ++ drop (length req) l).
  split; [cbn [length] in *; rewrite length_app, length_drop; cbn [length]; lia|].
  unfold call at 1, clientDoRequest.
  mstep ltac:(reflexivity).
  mstep ltac:(by apply buffer_check).
  mstep ltac:(apply set_b_0).
  mstep ltac:(apply set_b_1).
  mstep ltac:(apply set_b_2).
  rewrite Hreq.
  mstep ltac:(mstep ltac:(apply (copy_b_app _ [Version; command; x00] l req);
                          cbn [length] in *; lia);
              reflexivity).
  mstep ltac:(apply (Write_b_prefix _ (Version :: command :: x00 :: req))).
  unfold WriteSucceeds in Hw. rewrite err_conn_Write, Hw.
  mstep ltac:(reflexivity).
  reflexivity.
Qed.

(** A success reply with a well-formed bound address, in any
    segmentation. *)
Lemma clientDoRequest_stream command targetAddr c buf req rsv sa addr tail rest :
  3 + MaxAddrLen ≤ length buf →
  WriteAddrFromConnAddr targetAddr = Some req →
  length req ≤ MaxAddrLen →
  Stream c (Version :: ReplySucceeded :: rsv :: sa ++ tail) rest →
  ConnAddrFromSlice sa = (addr, length sa, None) →
  WriteSucceeds c →
  ∃ s, call (clientDoRequest command targetAddr) c buf = (s, Ok (addr, None))
       ∧ tx (rw s) = tx c ++ [Version :: command :: x00 :: req]
       ∧ Stream (rw s) tail rest.
Proof.
  intros Hbuf Hreq Hlen HS Hsa Hw.
  destruct (clientDoRequest_sent command targetAddr c buf req)
    as (buf1 & Hlen1 & ->); try done.
  pose proof (Stream_conn_Write c (Version :: command :: x00 :: req) _ _ HS) as HS1.
  pose proof (tx_conn_Write c (Version :: command :: x00 :: req)) as Htx1.
  set (c1 := (conn_Write c (Version :: command :: x00 :: req)).1) in *. clearbody c1.
  pose proof (ConnAddrFromSlice_whole_length _ _ Hsa) as Hsalen.
  destruct (ConnAddrFromSlice_whole _ _ Hsa) as (atyp & x & sa' & -> & _).
  unfold MaxAddrLen in *.
  destruct (ReadFull_b_stream (Ret:=conn_Addr * option error) c1 [] buf1 0 5
              [x05; x00; rsv; atyp; x] (sa' ++ tail) rest)
    as (c2 & Hread & HS2 & Htx2 & _); [done|done|done|simpl; lia|].
  destruct (AppendFromReader_stream c2 atyp x sa' addr tail rest Hsa HS2)
    as (c3 & Happ & HS3 & Htx3 & _).
  unfold call.
  mstep ltac:(apply Hread).
  mstep ltac:(reflexivity).
  mstep ltac:(by apply at_b_eq).
  mstep ltac:(apply when_false).
  mstep ltac:(by apply at_b_eq).
  mstep ltac:(apply when_false).
  mstep ltac:(apply (slice_b_mid _ [x05; x00; rsv] [atyp; x] (drop 5 buf1)); done).
  mstep ltac:(cbn [rw b]; rewrite Happ; reflexivity).
  cbv beta iota. cbn [fst r].
  mstep ltac:(reflexivity).
  rewrite Hsa. cbv beta iota.
  eexists. split; [reflexivity|]. cbn [rw]. split; [congruence|done].
Qed.

(** X15. The client's request, answered with success.
    [clientDoRequest] writes [5, command, 0] and the SOCKS address of
    the target in one [Write], reads the reply up to the end of its
    bound address and not a byte more, and returns the bound
    address. *)
Theorem clientDoRequest_reply command targetAddr c buf req rsv sa addr tail rest :
  3 + MaxAddrLen ≤ length buf →
  WriteAddrFromConnAddr targetAddr = Some req →
  length req ≤ MaxAddrLen →
  Stream c (Version :: ReplySucceeded :: rsv :: sa ++ tail) rest →
  ConnAddrFromSlice sa = (addr, length sa, None) →
  WriteSucceeds c →
  ∃ s, call (clientDoRequest command targetAddr) c buf = (s, Ok (addr, None))
       ∧ tx (rw s) = tx c ++ [Version :: command :: x00 :: req]
       ∧ Stream (rw s) tail rest.
Proof. apply clientDoRequest_stream. Qed.

Lemma clientDoRequest_reply_witness :
  let c := mkConn [([x05; x00; x00; x01; x00], None);
                   ([x00; x00; x00; x00; x00; x17], None)] [] [] None in
  ∃ s, call (clientDoRequest CmdConnect (AddrDomain "a" 80)) c scratch
         = (s, Ok (AddrIP (mkAddrPort (IPv4 x00 x00 x00 x00) 0), None))
       ∧ tx (rw s) = tx c ++ [Version :: CmdConnect :: x00 :: [x03; x01; x61; x00; x50]]
       ∧ Stream (rw s) [x17] [].
Proof.
  intros c.
  apply (clientDoRequest_reply CmdConnect (AddrDomain "a" 80) c scratch
           [x03; x01; x61; x00; x50] x00 [x01; x00; x00; x00; x00; x00; x00]
           (AddrIP (mkAddrPort (IPv4 x00 x00 x00 x00) 0)) [x17] []).
  - vm_compute. lia.
  - reflexivity.
  - vm_compute. lia.
  - exists [[x05; x00; x00; x01; x00]; [x00; x00; x00; x00; x00; x17]].
    split; reflexivity.
  - reflexivity.
  - reflexivity.
Defined.

(** X16. The client's request, refused.  When the first five bytes of
    the reply carry another version or a non-zero REP,
    [clientDoRequest] returns the zero address with
    [UnsupportedVersionError] or [ReplyError(REP)]; it has read those
    five bytes only, so the rest of the reply stays on the stream. *)
Theorem clientDoRequest_refused command targetAddr c buf req v rep r2 r3 r4 tail rest :
  3 + MaxAddrLen ≤ length buf →
  WriteAddrFromConnAddr targetAddr = Some req →
  length req ≤ MaxAddrLen →
  Stream c (v :: rep :: r2 :: r3 :: r4 :: tail) rest →
  v ≠ Version ∨ rep ≠ ReplySucceeded →
  WriteSucceeds c →
  ∃ s, call (clientDoRequest command targetAddr) c buf
         = (s, Ok (AddrZero,
                   Some (Socks5 (if bool_decide (v ≠ Version)
                                 then UnsupportedVersionError v else ReplyError rep))))
       ∧ tx (rw s) = tx c ++ [Version :: command :: x00 :: req]
       ∧ Stream (rw s) tail rest.
Proof.
  intros Hbuf Hreq Hlen HS Hbad Hw.
  destruct (clientDoRequest_sent command targetAddr c buf req)
    as (buf1 & Hlen1 & ->); try done.
  pose proof (Stream_conn_Write c (Version :: command :: x00 :: req) _ _ HS) as HS1.
  pose proof (tx_conn_Write c (Version :: command :: x00 :: req)) as Htx1.
  set (c1 := (conn_Write c (Version :: command :: x00 :: req)).1) in *. clearbody c1.
  unfold MaxAddrLen in *.
  destruct (ReadFull_b_stream (Ret:=conn_Addr * option error) c1 [] buf1 0 5
              [v; rep; r2; r3; r4] tail rest)
    as (c2 & Hread & HS2 & Htx2 & _); [done|done|done|simpl; lia|].
  unfold call.
  mstep ltac:(apply Hread).
  mstep ltac:(reflexivity).
  mstep ltac:(by apply at_b_eq).
  case_bool_decide as Hv.
  { mreturn ltac:(reflexivity). eexists. split; [reflexivity|]. cbn [rw].
    split; [congruence|done]. }
  mstep ltac:(apply when_false).
  mstep ltac:(by apply at_b_eq).
  destruct Hbad as [?|Hrep]; [done|].
  rewrite bool_decide_eq_true_2 by done.
  mreturn ltac:(reflexivity). eexists. split; [reflexivity|]. cbn [rw].
  split; [congruence|done].
Qed.

Lemma clientDoRequest_refused_witness :
  let c := mkConn [([x05; x07; x00; x01; x00; x00; x00; x00; x00; x00], None)] [] [] None in
  ∃ s, call (clientDoRequest CmdBind (AddrDomain "a" 80)) c scratch
         = (s, Ok (AddrZero,
                   Some (Socks5 (if bool_decide (x05 ≠ Version)
                                 then UnsupportedVersionError x05 else ReplyError x07))))
       ∧ tx (rw s) = tx c ++ [Version :: CmdBind :: x00 :: [x03; x01; x61; x00; x50]]
       ∧ Stream (rw s) [x00; x00; x00; x00; x00] [].
Proof.
  intros c.
  apply (clientDoRequest_refused CmdBind (AddrDomain "a" 80) c scratch
           [x03; x01; x61; x00; x50] x05 x07 x00 x01 x00 [x00; x00; x00; x00; x00] []).
  - vm_compute. lia.
  - reflexivity.
  - vm_compute. lia.
  - exists [[x05; x07; x00; x01; x00; x00; x00; x00; x00; x00]]. split; reflexivity.
  - by right.
  - reflexivity.
Defined.

(** ** Client and server, face to face *)

(** The client's handshake without authentication against the replies
    [5, 0] and a success reply, in any segmentation. *)
Lemma ClientRequest_stream command targetAddr c req rsv sa addr tail rest :
  WriteAddrFromConnAddr targetAddr = Some req →
  length req ≤ MaxAddrLen →
  Stream c (Version :: MethodNoAuthenticationRequired
              :: Version :: ReplySucceeded :: rsv :: sa ++ tail) rest →
  ConnAddrFromSlice sa = (addr, length sa, None) →
  txErr c = [] →
  ∃ s, ClientRequest command targetAddr c = (s, Ok (addr, None))
       ∧ tx (rw s) = tx c ++ [[Version; x01; MethodNoAuthenticationRequired];
                              Version :: command :: x00 :: req]
       ∧ Stream (rw s) tail rest.
Proof.
  intros Hreq Hlen HS Hsa Hw. unfold ClientRequest.
  destruct (clientNegotiateAuthMethod_stream c (replicate (3 + MaxAddrLen) x00)
              MethodNoAuthenticationRequired Version MethodNoAuthenticationRequired
              (Version :: ReplySucceeded :: rsv :: sa ++ tail) rest)
    as (s & -> & Htx & HS1 & Herr1 & _ & Hlen1);
    [rewrite length_accept_buffer; unfold MaxAddrLen; lia|done
    |by unfold WriteSucceeds; rewrite Hw|].
  rewrite !bool_decide_eq_false_2 by (by intros ?).
  rewrite length_accept_buffer in Hlen1. rewrite Hw in Herr1.
  destruct (clientDoRequest_stream command targetAddr (rw s) (b s) req rsv sa addr tail rest)
    as (s' & -> & Htx' & HS'); try done; [lia|by unfold WriteSucceeds; rewrite Herr1|].
  exists s'. split; [done|]. split; [|done].
  rewrite Htx', Htx, <- app_assoc. reflexivity.
Qed.

(** The client's handshake with username and password against the
    replies [5, 2], [1, 0] and a success reply, in any segmentation. *)
Lemma ClientRequestUsernamePassword_stream
    authMsg command targetAddr c req rsv sa addr tail rest :
  WriteAddrFromConnAddr targetAddr = Some req →
  length req ≤ MaxAddrLen →
  Stream c (Version :: MethodUsernamePassword
              :: UsernamePasswordAuthVersion :: x00
              :: Version :: ReplySucceeded :: rsv :: sa ++ tail) rest →
  ConnAddrFromSlice sa = (addr, length sa, None) →
  txErr c = [] →
  ∃ s, ClientRequestUsernamePassword authMsg command targetAddr c = (s, Ok (addr, None))
       ∧ tx (rw s) = tx c ++ [[Version; x01; MethodUsernamePassword]; authMsg;
                              Version :: command :: x00 :: req]
       ∧ Stream (rw s) tail rest.
Proof.
  intros Hreq Hlen HS Hsa Hw. unfold ClientRequestUsernamePassword.
  edestruct (clientNegotiateAuthMethod_stream c (replicate (3 + MaxAddrLen) x00)
               MethodUsernamePassword Version MethodUsernamePassword)
    as (s & -> & Htx & HS1 & Herr1 & _ & Hlen1);
    [rewrite length_accept_buffer; unfold MaxAddrLen; lia|exact HS
    |by unfold WriteSucceeds; rewrite Hw|].
  rewrite !bool_decide_eq_false_2 by (by intros ?).
  rewrite length_accept_buffer in Hlen1. rewrite Hw in Herr1.
  edestruct (clientDoUsernamePasswordAuth_stream (rw s) (b s) authMsg
               UsernamePasswordAuthVersion x00)
    as (s1 & -> & Htx1 & HS2 & Herr2 & _ & Hlen2);
    [lia|exact HS1|by unfold WriteSucceeds; rewrite Herr1|].
  rewrite !bool_decide_eq_false_2 by (by intros ?).
  rewrite Herr1 in Herr2.
  destruct (clientDoRequest_stream command targetAddr (rw s1) (b s1) req rsv sa addr
              tail rest)
    as (s' & -> & Htx' & HS'); try done; [lia|by unfold WriteSucceeds; rewrite Herr2|].
  exists s'. split; [done|]. split; [|done].
  rewrite Htx', Htx1, Htx, <- !app_assoc. reflexivity.
Qed.

(** X17. [ClientConnect] against [ServerAccept].  Let what arrives at
    the server be what the client writes, and what arrives at the
    client be what the server writes, on fresh connections whose writes
    do not fail, for a target that the address codec encodes and
    decodes back.  Then both handshakes succeed, the server is handed
    the client's target, and what each side wrote is, byte for byte,
    what the other side read, with nothing left over. *)
Theorem ClientConnect_ServerAccept targetAddr req enableUDP client server :
  WriteAddrFromConnAddr targetAddr = Some req →
  ConnAddrFromSlice req = (targetAddr, length req, None) →
  tx client = [] → txErr client = [] → tx server = [] → txErr server = [] →
  Stream server ([x05; x01; x00] ++ x05 :: x01 :: x00 :: req) [] →
  Stream client ([x05; x00] ++ [x05; x00; x00; x01; x00; x00; x00; x00; x00; x00]) [] →
  ∃ cs ss,
    ClientConnect targetAddr client = (cs, Ok None)
    ∧ ServerAccept true enableUDP server = (ss, Ok (targetAddr, None))
    ∧ concat (tx (rw cs)) = [x05; x01; x00] ++ x05 :: x01 :: x00 :: req
    ∧ Stream (rw ss) [] []
    ∧ concat (tx (rw ss)) = [x05; x00] ++ [x05; x00; x00; x01; x00; x00; x00; x00; x00; x00]
    ∧ Stream (rw cs) [] [].
Proof.
  intros Hreq Hround Htxc Herrc Htxs Herrs HSs HSc.
  pose proof (ConnAddrFromSlice_whole_length _ _ Hround) as Hlen.
  destruct (ClientRequest_stream CmdConnect targetAddr client req x00
              [x01; x00; x00; x00; x00; x00; x00]
              (AddrIP (mkAddrPort (IPv4 x00 x00 x00 x00) 0)) [] [])
    as (cs & Hc & Htxc' & HSc'); try done.
  edestruct (ServerAccept_connect_stream enableUDP server x01
               [MethodNoAuthenticationRequired] x00 req targetAddr [] [])
    as (ss & Hs & Htxs' & HSs'); try done.
  { by rewrite app_nil_r. }
  { apply list_elem_of_singleton. done. }
  exists cs, ss. unfold ClientConnect. rewrite Hc, Hs, Htxc', Htxs', Htxc, Htxs.
  split_and!; try done.
  simpl. by rewrite app_nil_r.
Qed.

Lemma ClientConnect_ServerAccept_witness :
  let targetAddr := AddrDomain "a" 80 in
  let req := [x03; x01; x61; x00; x50] in
  let client := mkConn [([x05; x00; x05], None);
                        ([x00; x00; x01; x00; x00; x00; x00; x00; x00], None)] [] [] None in
  let server := mkConn [([x05; x01; x00; x05; x01; x00; x03; x01; x61; x00; x50], None)]
                       [] [] None in
  ∃ cs ss,
    ClientConnect targetAddr client = (cs, Ok None)
    ∧ ServerAccept true false server = (ss, Ok (targetAddr, None))
    ∧ concat (tx (rw cs)) = [x05; x01; x00] ++ x05 :: x01 :: x00 :: req
    ∧ Stream (rw ss) [] []
    ∧ concat (tx (rw ss)) = [x05; x00] ++ [x05; x00; x00; x01; x00; x00; x00; x00; x00; x00]
    ∧ Stream (rw cs) [] [].
Proof.
  intros targetAddr req client server.
  apply (ClientConnect_ServerAccept targetAddr req false client server).
  - reflexivity.
  - reflexivity.
  - reflexivity.
  - reflexivity.
  - reflexivity.
  - reflexivity.
  - exists [[x05; x01; x00; x05; x01; x00; x03; x01; x61; x00; x50]]. split; reflexivity.
  - exists [[x05; x00; x05]; [x00; x00; x01; x00; x00; x00; x00; x00; x00]].
    split; reflexivity.
Defined.

(** X18. [ClientConnectUsernamePassword] against
    [ServerAcceptUsernamePassword].  Let what arrives at the server be
    what the client writes, and what arrives at the client be what the
    server writes, on fresh connections whose writes do not fail.  For
    the message [AppendAuthMsg] builds from a valid [UserInfo] that the
    server's table holds under its username, and a target that the
    address codec encodes and decodes back, both handshakes succeed,
    the server is handed the client's target and username, and what
    each side wrote is what the other side read, with nothing left
    over. *)
Theorem ClientConnectUsernamePassword_ServerAcceptUsernamePassword
    (table : gmap string UserInfo) (u : UserInfo) targetAddr req enableUDP client server :
  Validate u = None →
  table !! Username u = Some u →
  WriteAddrFromConnAddr targetAddr = Some req →
  ConnAddrFromSlice req = (targetAddr, length req, None) →
  tx client = [] → txErr client = [] → tx server = [] → txErr server = [] →
  Stream server ([x05; x01; x02] ++ AppendAuthMsg u [] ++ x05 :: x01 :: x00 :: req) [] →
  Stream client ([x05; x02] ++ [x01; x00]
                   ++ [x05; x00; x00; x01; x00; x00; x00; x00; x00; x00]) [] →
  ∃ cs ss,
    ClientConnectUsernamePassword (AppendAuthMsg u []) targetAddr client = (cs, Ok None)
    ∧ ServerAcceptUsernamePassword table true enableUDP server
      = (ss, Ok (targetAddr, Username u, None))
    ∧ concat (tx (rw cs)) = [x05; x01; x02] ++ AppendAuthMsg u [] ++ x05 :: x01 :: x00 :: req
    ∧ Stream (rw ss) [] []
    ∧ concat (tx (rw ss)) = [x05; x02] ++ [x01; x00]
                              ++ [x05; x00; x00; x01; x00; x00; x00; x00; x00; x00]
    ∧ Stream (rw cs) [] [].
Proof.
  intros Hvalid Htable Hreq Hround Htxc Herrc Htxs Herrs HSs HSc.
  pose proof (ConnAddrFromSlice_whole_length _ _ Hround) as Hlen.
  destruct (ClientRequestUsernamePassword_stream (AppendAuthMsg u []) CmdConnect targetAddr
              client req x00 [x01; x00; x00; x00; x00; x00; x00]
              (AddrIP (mkAddrPort (IPv4 x00 x00 x00 x00) 0)) [] [])
    as (cs & Hc & Htxc' & HSc'); try done.
  edestruct (ServerAcceptUsernamePassword_connect_stream table u enableUDP server x01
               [MethodUsernamePassword] x00 req targetAddr [] [])
    as (ss & Hs & Htxs' & HSs'); try done.
  { by rewrite app_nil_r. }
  { apply list_elem_of_singleton. done. }
  exists cs, ss. unfold ClientConnectUsernamePassword.
  rewrite Hc, Hs, Htxc', Htxs', Htxc, Htxs.
  split_and!; try done.
  simpl. by rewrite !app_nil_r.
Qed.

Lemma ClientConnectUsernamePassword_ServerAcceptUsernamePassword_witness :
  let u := mkUserInfo "user" "pass" in
  let targetAddr := AddrDomain "a" 80 in
  let req := [x03; x01; x61; x00; x50] in
  let client := mkConn [([x05; x02; x01], None);
                        ([x00; x05; x00; x00; x01; x00; x00; x00; x00; x00; x00], None)]
                       [] [] None in
  let server := mkConn [([x05; x01; x02], None);
                        ([x01; x04; x75; x73; x65; x72; x04; x70; x61; x73; x73], None);
                        ([x05; x01; x00; x03; x01; x61; x00; x50], None)]
                       [] [] None in
  ∃ cs ss,
    ClientConnectUsernamePassword (AppendAuthMsg u []) targetAddr client = (cs, Ok None)
    ∧ ServerAcceptUsernamePassword {[ Username u := u ]} true false server
      = (ss, Ok (targetAddr, Username u, None))
    ∧ concat (tx (rw cs)) = [x05; x01; x02] ++ AppendAuthMsg u [] ++ x05 :: x01 :: x00 :: req
    ∧ Stream (rw ss) [] []
    ∧ concat (tx (rw ss)) = [x05; x02] ++ [x01; x00]
                              ++ [x05; x00; x00; x01; x00; x00; x00; x00; x00; x00]
    ∧ Stream (rw cs) [] [].
Proof.
  intros u targetAddr req client server.
  apply (ClientConnectUsernamePassword_ServerAcceptUsernamePassword
           {[ Username u := u ]} u targetAddr req false client server).
  - reflexivity.
  - apply lookup_singleton_eq.
  - reflexivity.
  - reflexivity.
  - reflexivity.
  - reflexivity.
  - reflexivity.
  - reflexivity.
  - exists [[x05; x01; x02];
            [x01; x04; x75; x73; x65; x72; x04; x70; x61; x73; x73];
            [x05; x01; x00; x03; x01; x61; x00; x50]].
    split; reflexivity.
  - exists [[x05; x02; x01];
            [x00; x05; x00; x00; x01; x00; x00; x00; x00; x00; x00]].
    split; reflexivity.
Defined.

(** A read at the end of the stream: the peer has closed. *)
Lemma rx_read_end chunks n :
  concat chunks = [] → rx_read (arriving chunks []) n = ([], ([], Some io_EOF)).
Proof.
  induction chunks as [|chunk chunks IH]; [done|].
  cbn [concat]. intros [-> Hnil]%app_eq_nil.
  unfold arriving. cbn [fmap list_fmap app rx_read length].
  rewrite (proj2 (Nat.ltb_ge n 0)) by lia. by apply IH.
Qed.

Lemma Read_Stream_end (c : Conn) n :
  Stream c [] [] →
  ∃ c', Read c n = (c', ([], Some io_EOF)) ∧ Stream c' [] [] ∧ tx c' = tx c.
Proof.
  intros (chunks & Hrx & Hnil).
  unfold Read, Conn_Reader, conn_Read. rewrite Hrx, rx_read_end by done.
  eexists. split; [reflexivity|]. split; [|done]. by exists [].
Qed.

Lemma AppendAddrFromAddrPort_app hd addrPort :
  AppendAddrFromAddrPort hd addrPort = hd ++ AppendAddrFromAddrPort [] addrPort.
Proof. unfold AppendAddrFromAddrPort. by destruct (ap_addr addrPort). Qed.

(** X19. [ClientUDPAssociate] against [ServerAccept].  Let what arrives
    at the server be what the client writes, and what arrives at the
    client be what the server writes, on fresh connections whose writes
    do not fail, the server's being a TCP connection with local
    endpoint [localAddrPort].  Then the client is handed that local
    endpoint as the bound address, as the address codec decodes it,
    and once the client has closed the connection the server returns
    the client's target with [ErrUDPAssociateDone]. *)
Theorem ClientUDPAssociate_ServerAccept
    targetAddr req localAddrPort bound enableTCP client server :
  WriteAddrFromConnAddr targetAddr = Some req →
  ConnAddrFromSlice req = (targetAddr, length req, None) →
  local server = Some localAddrPort →
  ConnAddrFromSlice (AppendAddrFromAddrPort [] localAddrPort)
  = (bound, length (AppendAddrFromAddrPort [] localAddrPort), None) →
  tx client = [] → txErr client = [] → tx server = [] → txErr server = [] →
  Stream server ([x05; x01; x00] ++ x05 :: x03 :: x00 :: req) [] →
  Stream client ([x05; x00] ++ x05 :: x00 :: x00
                   :: AppendAddrFromAddrPort [] localAddrPort) [] →
  ∃ cs ss,
    ClientUDPAssociate targetAddr client = (cs, Ok (bound, None))
    ∧ ServerAccept enableTCP true server
      = (ss, Ok (targetAddr, Some (Socks5 ErrUDPAssociateDone)))
    ∧ concat (tx (rw cs)) = [x05; x01; x00] ++ x05 :: x03 :: x00 :: req
    ∧ Stream (rw ss) [] []
    ∧ concat (tx (rw ss)) = [x05; x00] ++ x05 :: x00 :: x00
                              :: AppendAddrFromAddrPort [] localAddrPort
    ∧ Stream (rw cs) [] [].
Proof.
  intros Hreq Hround Hlocal Hbound Htxc Herrc Htxs Herrs HSs HSc.
  pose proof (ConnAddrFromSlice_whole_length _ _ Hround) as Hlen.
  destruct (ClientRequest_stream CmdUDPAssociate targetAddr client req x00
              (AppendAddrFromAddrPort [] localAddrPort) bound [] [])
    as (cs & Hc & Htxc' & HSc'); try done.
  { cbn [app] in HSc. by rewrite app_nil_r. }
  edestruct (serverHandleMethodSelection_stream server (replicate (3 + MaxAddrLen) x00)
               MethodNoAuthenticationRequired x01 [MethodNoAuthenticationRequired])
    as (s & Hsel & Htx & HS1 & Herr1 & Hloc1 & Hlen1);
    [rewrite length_accept_buffer; unfold MaxAddrLen; lia|exact HSs|done
    |vm_compute; lia|].
  rewrite decide_True in Hsel by (by apply list_elem_of_singleton).
  rewrite decide_True in Htx by (by apply list_elem_of_singleton).
  rewrite Herrs in Hsel, Herr1. cbn [head default drop] in Hsel, Herr1.
  rewrite length_accept_buffer in Hlen1.
  destruct (serverHandleRequest_udp enableTCP (rw s) (b s) x00 req targetAddr [] []
              localAddrPort)
    as (c1 & buf1 & HS2 & Htx2 & _ & _ & _ & Hcall); try done.
  { lia. }
  { by rewrite app_nil_r. }
  { congruence. }
  rewrite Herr1 in Hcall. cbn [head default] in Hcall.
  destruct (Read_Stream_end c1 1 HS2) as (c2 & Hread & HS3 & Htx3).
  rewrite Hread in Hcall.
  rewrite (bool_decide_eq_false_2 (Some io_EOF ≠ Some io_EOF)) in Hcall
    by (intros Hne; by apply Hne).
  rewrite andb_false_r in Hcall.
  exists cs, (mkSt c2 (store buf1 0 [])). unfold ClientUDPAssociate, ServerAccept.
  rewrite Hc, Hsel, Hcall. cbn [rw].
  rewrite Htxc', Htx3, Htx2, Htx, Htxc, Htxs, AppendAddrFromAddrPort_app.
  split_and!; try done.
  - simpl. by rewrite app_nil_r.
  - simpl. by rewrite app_nil_r.
Qed.

Lemma ClientUDPAssociate_ServerAccept_witness :
  let targetAddr := AddrIP (mkAddrPort (IPv4 x00 x00 x00 x00) 0) in
  let req := [x01; x00; x00; x00; x00; x00; x00] in
  let localAddrPort := mkAddrPort (IPv4 x0a x00 x00 x01) 4660 in
  let client := mkConn [([x05; x00], None);
                        ([x05; x00; x00; x01; x0a; x00; x00; x01; x12; x34], None)]
                       [] [] None in
  let server := mkConn [([x05; x01; x00], None);
                        ([x05; x03; x00; x01; x00; x00; x00; x00; x00; x00], None)]
                       [] [] (Some localAddrPort) in
  ∃ cs ss,
    ClientUDPAssociate targetAddr client = (cs, Ok (AddrIP localAddrPort, None))
    ∧ ServerAccept false true server
      = (ss, Ok (targetAddr, Some (Socks5 ErrUDPAssociateDone)))
    ∧ concat (tx (rw cs)) = [x05; x01; x00] ++ x05 :: x03 :: x00 :: req
    ∧ Stream (rw ss) [] []
    ∧ concat (tx (rw ss)) = [x05; x00] ++ x05 :: x00 :: x00
                              :: AppendAddrFromAddrPort [] localAddrPort
    ∧ Stream (rw cs) [] [].
Proof.
  intros targetAddr req localAddrPort client server.
  apply (ClientUDPAssociate_ServerAccept targetAddr req localAddrPort
           (AddrIP localAddrPort) false client server).
  - reflexivity.
  - reflexivity.
  - reflexivity.
  - reflexivity.
  - reflexivity.
  - reflexivity.
  - reflexivity.
  - reflexivity.
  - exists [[x05; x01; x00]; [x05; x03; x00; x01; x00; x00; x00; x00; x00; x00]].
    split; reflexivity.
  - exists [[x05; x00]; [x05; x00; x00; x01; x0a; x00; x00; x01; x12; x34]].
    split; reflexivity.
Defined.

(** ** The client half on any connection *)

(** Every way [clientNegotiateAuthMethod] can end. *)
Lemma clientNegotiateAuthMethod_outcomes c buf method :
  3 ≤ length buf →
  ∃ s res,
    call (clientNegotiateAuthMethod method) c buf = (s, Ok res)
    ∧ length (b s) = length buf
    ∧ (res = None → tx (rw s) = tx c ++ [[Version; x01; method]]).
Proof.
  intros Hbuf.
  destruct buf as [|x0 [|x1 [|x2 l]]]; [simpl in Hbuf; lia..|].
  pose proof (tx_conn_Write c [Version; x01; method]) as Htx1.
  unfold call, clientNegotiateAuthMethod.
  mstep ltac:(reflexivity).
  mstep ltac:(by apply buffer_check).
  mstep ltac:(apply set_b_0).
  mstep ltac:(apply set_b_1).
  mstep ltac:(apply set_b_2).
  mstep ltac:(apply (Write_b_prefix _ [Version; x01; method] l)).
  destruct (conn_Write c [Version; x01; method]) as [c1 [e|]]; cbn [fst snd] in *.
  { mreturn ltac:(reflexivity). do 2 eexists. split; [reflexivity|]. by split. }
  mstep ltac:(reflexivity).
  destruct (ReadFull_b_any (Ret:=option error) c1 ([Version; x01; method] ++ l) 0 2)
    as (c2 & buf2 & err2 & Hread & Hlen2 & _ & Htx2 & _); [lia|simpl; lia|].
  mstep ltac:(apply Hread).
  destruct err2 as [e|].
  { mreturn ltac:(reflexivity). do 2 eexists. split; [reflexivity|]. by split. }
  mstep ltac:(reflexivity).
  destruct (at_b_any (Ret:=option error) c2 buf2 0) as (b0 & _ & Hat0);
    [simpl in Hlen2; lia|].
  mstep ltac:(apply Hat0).
  case_bool_decide.
  { mreturn ltac:(reflexivity). do 2 eexists. split; [reflexivity|]. by split. }
  mstep ltac:(apply when_false).
  destruct (at_b_any (Ret:=option error) c2 buf2 1) as (b1 & _ & Hat1);
    [simpl in Hlen2; lia|].
  mstep ltac:(apply Hat1).
  case_bool_decide.
  { mreturn ltac:(reflexivity). do 2 eexists. split; [reflexivity|]. by split. }
  mstep ltac:(apply when_false).
  do 2 eexists. split; [reflexivity|]. cbn [rw b]. split; [done|]. congruence.
Qed.

(** Every way [clientDoUsernamePasswordAuth] can end. *)
Lemma clientDoUsernamePasswordAuth_outcomes c buf authMsg :
  2 ≤ length buf →
  ∃ s res,
    call (clientDoUsernamePasswordAuth authMsg) c buf = (s, Ok res)
    ∧ length (b s) = length buf
    ∧ (res = None → tx (rw s) = tx c ++ [authMsg]).
Proof.
  intros Hbuf.
  pose proof (tx_conn_Write c authMsg) as Htx1.
  unfold call, clientDoUsernamePasswordAuth.
  mstep ltac:(reflexivity).
  mstep ltac:(by apply buffer_check).
  mstep ltac:(apply Write_p_eq).
  destruct (conn_Write c authMsg) as [c1 [e|]]; cbn [fst snd] in *.
  { mreturn ltac:(reflexivity). do 2 eexists. split; [reflexivity|]. by split. }
  mstep ltac:(reflexivity).
  destruct (ReadFull_b_any (Ret:=option error) c1 buf 0 2)
    as (c2 & buf2 & err2 & Hread & Hlen2 & _ & Htx2 & _); [lia|lia|].
  mstep ltac:(apply Hread).
  destruct err2 as [e|].
  { mreturn ltac:(reflexivity). do 2 eexists. split; [reflexivity|]. by split. }
  mstep ltac:(reflexivity).
  destruct (at_b_any (Ret:=option error) c2 buf2 0) as (b0 & _ & Hat0); [lia|].
  mstep ltac:(apply Hat0).
  case_bool_decide.
  { mreturn ltac:(reflexivity). do 2 eexists. split; [reflexivity|]. by split. }
  mstep ltac:(apply when_false).
  destruct (at_b_any (Ret:=option error) c2 buf2 1) as (b1 & _ & Hat1); [lia|].
  mstep ltac:(apply Hat1).
  case_bool_decide.
  { mreturn ltac:(reflexivity). do 2 eexists. split; [reflexivity|]. by split. }
  mstep ltac:(apply when_false).
  do 2 eexists. split; [reflexivity|]. cbn [rw b]. split; [done|]. congruence.
Qed.

(** Every way [clientDoRequest] can end, for a target that has a SOCKS
    address. *)
Lemma clientDoRequest_outcomes command targetAddr c buf req :
  3 + MaxAddrLen ≤ length buf →
  WriteAddrFromConnAddr targetAddr = Some req →
  length req ≤ MaxAddrLen →
  ∃ s res,
    call (clientDoRequest command targetAddr) c buf = (s, Ok res)
    ∧ (res.2 = None → tx (rw s) = tx c ++ [Version :: command :: x00 :: req]).
Proof.
  intros Hbuf Hreq Hlen. unfold MaxAddrLen in *.
  destruct buf as [|x0 [|x1 [|x2 l]]]; [simpl in Hbuf; lia..|].
  pose proof (tx_conn_Write c (Version :: command :: x00 :: req)) as Htx1.
  unfold call, clientDoRequest.
  mstep ltac:(reflexivity).
  mstep ltac:(by apply buffer_check).
  mstep ltac:(apply set_b_0).
  mstep ltac:(apply set_b_1).
  mstep ltac:(apply set_b_2).
  rewrite Hreq.
  mstep ltac:(mstep ltac:(apply (copy_b_app _ [Version; command; x00] l req);
                          cbn [length] in *; lia);
              reflexivity).
  mstep ltac:(apply (Write_b_prefix _ (Version :: command :: x00 :: req))).
  assert (length ((Version :: command :: x00 :: req) ++ drop (length req) l)
          = length (x0 :: x1 :: x2 :: l)) as Hlen1
    by (cbn [length] in *; rewrite length_app, length_drop; cbn [length]; lia).
  set (buf1 := (Version :: command :: x00 :: req) ++ drop (length req) l) in *.
  clearbody buf1.
  destruct (conn_Write c (Version :: command :: x00 :: req)) as [c1 [e|]];
    cbn [fst snd] in *.
  { mreturn ltac:(reflexivity). do 2 eexists. split; [reflexivity|]. done. }
  mstep ltac:(reflexivity).
  destruct (ReadFull_b_any (Ret:=conn_Addr * option error) c1 buf1 0 5)
    as (c2 & buf2 & err2 & Hread & Hlen2 & _ & Htx2 & Herr2 & Hloc2);
    [lia|simpl in *; lia|].
  mstep ltac:(apply Hread).
  destruct err2 as [e|].
  { mreturn ltac:(reflexivity). do 2 eexists. split; [reflexivity|]. done. }
  mstep ltac:(reflexivity).
  destruct (at_b_any (Ret:=conn_Addr * option error) c2 buf2 0) as (b0 & _ & Hat0);
    [simpl in *; lia|].
  mstep ltac:(apply Hat0).
  case_bool_decide.
  { mreturn ltac:(reflexivity). do 2 eexists. split; [reflexivity|]. done. }
  mstep ltac:(apply when_false).
  destruct (at_b_any (Ret:=conn_Addr * option error) c2 buf2 1) as (b1 & _ & Hat1);
    [simpl in *; lia|].
  mstep ltac:(apply Hat1).
  case_bool_decide.
  { mreturn ltac:(reflexivity). do 2 eexists. split; [reflexivity|]. done. }
  mstep ltac:(apply when_false).
  mstep ltac:(apply slice_b_any; simpl in *; lia).
  assert (same_writer c2 (newPrefixedReader (slice buf2 3 5) c2)) as Hsw by done.
  apply AppendFromReader_same_writer in Hsw.
  destruct (AppendFromReader [] (newPrefixedReader (slice buf2 3 5) c2))
    as [pr [sa err]] eqn:Happ.
  destruct Hsw as (Htx3 & _). cbn [fst] in Htx3.
  mstep ltac:(cbn [rw b]; rewrite Happ; reflexivity).
  cbv beta iota. cbn [fst].
  destruct err as [e|].
  { mreturn ltac:(reflexivity). do 2 eexists. split; [reflexivity|]. done. }
  mstep ltac:(reflexivity).
  destruct (ConnAddrFromSlice sa) as [[addr n] err].
  do 2 eexists. split; [reflexivity|]. cbn [rw snd]. intros _. congruence.
Qed.

(** X20. No server makes [ClientRequest] panic.  For a target that has
    a SOCKS address of at most [MaxAddrLen] bytes, whatever arrives and
    whichever write fails, [ClientRequest] returns; and when it returns
    without an error it has written the greeting [5, 1, 0] and the
    request, each in one [Write], and nothing else. *)
Theorem ClientRequest_any command targetAddr req c :
  WriteAddrFromConnAddr targetAddr = Some req →
  length req ≤ MaxAddrLen →
  ∃ s res,
    ClientRequest command targetAddr c = (s, Ok res)
    ∧ (res.2 = None →
       tx (rw s) = tx c ++ [[x05; x01; x00]; x05 :: command :: x00 :: req]).
Proof.
  intros Hreq Hlen. unfold ClientRequest.
  destruct (clientNegotiateAuthMethod_outcomes c (replicate (3 + MaxAddrLen) x00)
              MethodNoAuthenticationRequired)
    as (s & res & -> & Hlen1 & Htx1);
    [rewrite length_accept_buffer; unfold MaxAddrLen; lia|].
  rewrite length_accept_buffer in Hlen1.
  destruct res as [e|]; [by do 2 eexists|].
  destruct (clientDoRequest_outcomes command targetAddr (rw s) (b s) req)
    as (s' & res & -> & Htx2); [lia|done|done|].
  exists s', res. split; [done|]. intros Hnone.
  rewrite (Htx2 Hnone), (Htx1 eq_refl), <- app_assoc. reflexivity.
Qed.

Lemma ClientRequest_any_witness :
  let c := mkConn [([x05; x00; x05; x00; x00; x09], Some io_EOF)] [] [] None in
  ∃ s res,
    ClientRequest CmdConnect (AddrDomain "a" 80) c = (s, Ok res)
    ∧ (res.2 = None →
       tx (rw s) = tx c ++ [[x05; x01; x00];
                            x05 :: CmdConnect :: x00 :: [x03; x01; x61; x00; x50]]).
Proof.
  intros c.
  apply (ClientRequest_any CmdConnect (AddrDomain "a" 80) [x03; x01; x61; x00; x50] c).
  - reflexivity.
  - vm_compute. lia.
Defined.

(** X21. No server makes [ClientRequestUsernamePassword] panic.  For a
    target that has a SOCKS address of at most [MaxAddrLen] bytes,
    whatever arrives and whichever write fails, it returns; and when it
    returns without an error it has written the greeting [5, 1, 2], the
    authentication message as it was given, and the request, each in
    one [Write], and nothing else. *)
Theorem ClientRequestUsernamePassword_any authMsg command targetAddr req c :
  WriteAddrFromConnAddr targetAddr = Some req →
  length req ≤ MaxAddrLen →
  ∃ s res,
    ClientRequestUsernamePassword authMsg command targetAddr c = (s, Ok res)
    ∧ (res.2 = None →
       tx (rw s) = tx c ++ [[x05; x01; x02]; authMsg; x05 :: command :: x00 :: req]).
Proof.
  intros Hreq Hlen. unfold ClientRequestUsernamePassword.
  destruct (clientNegotiateAuthMethod_outcomes c (replicate (3 + MaxAddrLen) x00)
              MethodUsernamePassword)
    as (s & res & -> & Hlen1 & Htx1);
    [rewrite length_accept_buffer; unfold MaxAddrLen; lia|].
  rewrite length_accept_buffer in Hlen1.
  destruct res as [e|]; [by do 2 eexists|].
  destruct (clientDoUsernamePasswordAuth_outcomes (rw s) (b s) authMsg)
    as (s1 & res & -> & Hlen2 & Htx2); [unfold MaxAddrLen in *; lia|].
  destruct res as [e|]; [by do 2 eexists|].
  destruct (clientDoRequest_outcomes command targetAddr (rw s1) (b s1) req)
    as (s' & res & -> & Htx3); [lia|done|done|].
  exists s', res. split; [done|]. intros Hnone.
  rewrite (Htx3 Hnone), (Htx2 eq_refl), (Htx1 eq_refl), <- !app_assoc. reflexivity.
Qed.

Lemma ClientRequestUsernamePassword_any_witness :
  let c := mkConn [([x05; x02; x01], None); ([x01], Some io_EOF)] [] [] None in
  ∃ s res,
    ClientRequestUsernamePassword [x01; x01; x61; x01; x62] CmdUDPAssociate
      (AddrIP (mkAddrPort (IPv4 x00 x00 x00 x00) 0)) c = (s, Ok res)
    ∧ (res.2 = None →
       tx (rw s) = tx c ++ [[x05; x01; x02]; [x01; x01; x61; x01; x62];
                            x05 :: CmdUDPAssociate :: x00
                              :: [x01; x00; x00; x00; x00; x00; x00]]).
Proof.
  intros c.
  apply (ClientRequestUsernamePassword_any [x01; x01; x61; x01; x62] CmdUDPAssociate
           (AddrIP (mkAddrPort (IPv4 x00 x00 x00 x00) 0))
           [x01; x00; x00; x00; x00; x00; x00] c).
  - reflexivity.
  - vm_compute. lia.
Defined.

(** ** The goroutines of the relay *)

Lemma sum_list_with_insert {A} (f : A → nat) l i x y :
  l !! i = Some x →
  sum_list_with f (<[i := y]> l) + f x = sum_list_with f l + f y.
Proof.
  revert i. induction l as [|a l IH]; intros [|i] Hi; simplify_eq/=; [lia|].
  specialize (IH i Hi). lia.
Qed.

Lemma sum_list_with_lookup_le {A} (f : A → nat) l i x :
  l !! i = Some x → f x ≤ sum_list_with f l.
Proof.
  revert i. induction l as [|a l IH]; intros [|i] Hi; simplify_eq/=; [lia|].
  specialize (IH i Hi). lia.
Qed.

Lemma run_invariant (P : Relay → Prop) :
  (∀ a w w', step a w = Some w' → P w → P w') →
  ∀ acts w w', run acts w = Some w' → P w → P w'.
Proof.
  intros Hstep. induction acts as [|a acts IH]; intros w w'; simpl.
  - by intros [= <-].
  - destruct (step a w) as [w1|] eqn:Ha; simpl; [|done].
    intros Hrun Hw. apply (IH w1 w' Hrun). by eapply Hstep.
Qed.

Lemma reachable_invariant (P : Relay → Prop) :
  (∀ capacity, P (NewUDPSessionRelay capacity)) →
  (∀ a w w', step a w = Some w' → P w → P w') →
  ∀ w, reachable w → P w.
Proof.
  intros Hinit Hstep w (capacity & acts & Hrun).
  by eapply (run_invariant P Hstep acts _ w Hrun).
Qed.

(** Taking a step apart: the relay and the sessions it touches, field
    by field. *)
Ltac relay_simpl :=
  cbn [sendChannelCapacity serverConn mwg wg lock table sessions started ingress stop
       put_session set_sessions set_table set_wg set_lock set_stop set_ingress
       set_serverConn set_mwg set_started
       s_csid s_state s_natConn s_sendCh s_sendChClean s_pc s_up
       set_s_pc set_s_up set_s_state set_s_natConn set_s_sendCh set_s_sendChClean
       ch_len ch_closed deadline closed] in *.

Ltac step_inv :=
  repeat first
    [ match goal with
      | H : sess_step _ _ _ _ = Some _ |- _ =>
          apply sess_step_Some in H as (?s & ?Hs & ?Hpc & ->)
      | H : up_step _ _ _ _ = Some _ |- _ =>
          apply up_step_Some in H as (?s & ?Hs & ?Hpc & ->)
      end
    | progress simplify_option_eq
    | match goal with
      | H : context [match ?x with _ => _ end] |- _ => destruct x eqn:?
      | H : context [if ?x then _ else _] |- _ => destruct x eqn:?
      end ];
  relay_simpl.

Ltac step_cases H :=
  match type of H with
  | step ?a ?w = Some _ =>
      destruct w; destruct a; cbn [step] in H; relay_simpl; step_inv;
      repeat match goal with s : Session |- _ => destruct s end;
      relay_simpl; simplify_eq;
      repeat match goal with
             | |- context [if ?x then _ else _] => is_var x; destruct x
             | |- context [match ?x with _ => _ end] => is_var x; destruct x
             end;
      relay_simpl
  end.

(** *** [Start] and the ingress goroutine *)

Lemma step_start_ok a w w' : step a w = Some w' → start_ok w → start_ok w'.
Proof.
  intros Hstep (Hstarted & Hconn & Hmwg). unfold start_ok. step_cases Hstep.
  all: unfold deadline_now, close_conn in *.
  all: repeat match goal with
              | H : ?x = ?x → _ |- _ => specialize (H eq_refl)
              | x : option UDPConn |- _ => destruct x
              | x : bool |- _ => destruct x
              end.
  all: simplify_eq/=.
  all: intuition (try congruence; try discriminate).
Qed.

(** *** The lock and the wait group *)

Ltac weigh f :=
  rewrite ?sum_list_with_app; cbn [sum_list_with];
  repeat match goal with
  | Hs : ?l !! ?i = Some ?s |- _ =>
      match goal with
      | |- context [sum_list_with f (<[i := ?s']> l)] =>
          let H := fresh "Hsum" in
          pose proof (sum_list_with_insert f l i s s' Hs) as H;
          generalize dependent (sum_list_with f (<[i := s']> l)); intros
      | H' : context [sum_list_with f (<[i := ?s']> l)] |- _ =>
          let H := fresh "Hsum" in
          pose proof (sum_list_with_insert f l i s s' Hs) as H;
          generalize dependent (sum_list_with f (<[i := s']> l)); intros
      end
  end.

Lemma step_lock_holders a w w' :
  step a w = Some w' → start_ok w →
  lock_holders w = Nat.b2n (lock w) → lock_holders w' = Nat.b2n (lock w').
Proof.
  intros Hstep (Hstarted & _ & _) Hinv. unfold lock_holders in *. step_cases Hstep.
  all: weigh session_in_lock.
  all: unfold session_in_lock in *; relay_simpl.
  all: repeat match goal with
              | H : ?x = ?x → _ |- _ => specialize (H eq_refl)
              | x : bool |- _ => destruct x
              end.
  all: simplify_eq/=.
  all: try lia.
Qed.

(** *** A session's channel, socket and goroutines *)

Lemma Forall_session_ok_insert l i s' :
  Forall (λ s, session_ok s = true) l →
  (∀ s, l !! i = Some s → session_ok s = true → session_ok s' = true) →
  Forall (λ s, session_ok s = true) (<[i := s']> l).
Proof.
  intros Hall Hs'. destruct (l !! i) as [s|] eqn:Hi.
  - apply Forall_insert; [done|]. apply (Hs' s); [done|].
    by eapply (proj1 (Forall_lookup _ _) Hall).
  - rewrite list_insert_ge; [done|]. by apply lookup_ge_None.
Qed.

Lemma step_sessions_ok a w w' :
  step a w = Some w' →
  Forall (λ s, session_ok s = true) (sessions w) →
  Forall (λ s, session_ok s = true) (sessions w').
Proof.
  intros Hstep Hinv. step_cases Hstep.
  all: try done.
  all: repeat (apply Forall_session_ok_insert; [|intros ? ? ?]).
  all: try (apply Forall_app_2; [|apply Forall_singleton]).
  all: try done.
  all: simplify_eq; clear Hinv.
  all: unfold session_ok, try_send, close_conn, deadline_now, deadline_ahead,
         before_close, before_swap in *;
       relay_simpl.
  all: repeat match goal with
              | H : bool_decide _ = true |- _ => apply bool_decide_eq_true in H
              | H : context [match ?x with _ => _ end] |- _ => is_var x; destruct x
              | |- context [match ?x with _ => _ end] => is_var x; destruct x
              | H : context [conn_open ?x] |- _ => is_var x; destruct x as [[? []]|]
              | |- context [conn_open (_ <$> ?x)] => is_var x; destruct x as [[? []]|]
              | |- context [_ <$> ?x = None] => is_var x; destruct x as [[? []]|]
              | H : context [ch_closed ?x] |- _ => is_var x; destruct x as [? []]
              | |- context [if ?x then _ else _] => destruct x
              end.
  all: simplify_eq/=; try done.
  all: repeat match goal with
              | H : bool_decide _ = true |- _ => apply bool_decide_eq_true in H
              end.
  all: by simplify_eq/=.
Qed.

(** What [session_ok] says of the sessions a step touches. *)
Ltac session_ok_facts Hall :=
  repeat match goal with
  | Hs : ?l !! ?i = Some ?s |- _ =>
      lazymatch type of Hall with
      | Forall _ l =>
          lazymatch goal with
          | _ : session_ok s = true |- _ => fail
          | _ => pose proof (proj1 (Forall_lookup _ _) Hall i s Hs : session_ok s = true)
          end
      end
  end.

Lemma step_workers a w w' :
  step a w = Some w' →
  Forall (λ s, session_ok s = true) (sessions w) →
  wg w = workers w → wg w' = workers w'.
Proof.
  intros Hstep Hall Hinv. unfold workers in *. step_cases Hstep.
  all: session_ok_facts Hall; clear Hall.
  all: weigh session_workers.
  all: unfold session_workers in *; relay_simpl.
  all: simplify_eq/=.
  all: try lia.
  all: unfold session_ok, before_swap, before_close in *; relay_simpl.
  all: repeat match goal with
              | H : context [match ?x with _ => _ end] |- _ => is_var x; destruct x
              end.
  all: simplify_eq/=; try done; try lia.
Qed.

(** *** The table holds every live session *)

Lemma table_complete_update t ss i s s' :
  ss !! i = Some s → s_csid s' = s_csid s →
  (before_delete (s_pc s') = true → before_delete (s_pc s) = true) →
  table_complete t ss → table_complete t (<[i := s']> ss).
Proof.
  intros Hi Hcsid Hpc Hc j sj Hj Hlive.
  destruct (decide (i = j)) as [->|Hne].
  - rewrite list_lookup_insert_eq in Hj by (by eapply lookup_lt_Some).
    injection Hj as <-. rewrite Hcsid. apply Hc; auto.
  - rewrite list_lookup_insert_ne in Hj by done. by apply Hc.
Qed.

Lemma table_complete_insert t ss s :
  t !! s_csid s = None →
  table_complete t ss → table_complete (<[s_csid s := length ss]> t) (ss ++ [s]).
Proof.
  intros Hnone Hc j sj Hj Hlive.
  apply lookup_app_Some in Hj as [Hj|[Hlen Hj]].
  - pose proof (Hc j sj Hj Hlive) as Ht.
    rewrite lookup_insert_ne; [done|]. intros Heq. congruence.
  - apply list_lookup_singleton_Some in Hj as [Hj <-].
    replace j with (length ss) by lia. apply lookup_insert_eq.
Qed.

Lemma table_complete_delete t ss i s s' :
  ss !! i = Some s → before_delete (s_pc s) = true → before_delete (s_pc s') = false →
  table_complete t ss → table_complete (delete (s_csid s) t) (<[i := s']> ss).
Proof.
  intros Hi Hlive Hdead Hc j sj Hj Hlivej.
  destruct (decide (i = j)) as [->|Hne].
  - rewrite list_lookup_insert_eq in Hj by (by eapply lookup_lt_Some).
    injection Hj as <-. congruence.
  - rewrite list_lookup_insert_ne in Hj by done.
    pose proof (Hc j sj Hj Hlivej) as Htj. pose proof (Hc i s Hi Hlive) as Hti.
    rewrite lookup_delete_ne; [done|]. intros Heq. rewrite Heq in Hti. congruence.
Qed.

Lemma step_table_complete a w w' :
  step a w = Some w' →
  table_complete (table w) (sessions w) → table_complete (table w') (sessions w').
Proof.
  intros Hstep Hinv. step_cases Hstep.
  all: try done.
  all: try (by eapply table_complete_update; [eassumption|done|done|done]).
  all: try (by eapply table_complete_update;
              [eassumption|done|done
              |eapply table_complete_update; [eassumption|done|done|done]]).
  all: try (by apply (table_complete_insert _ _ (mkSession _ _ _ _ _ _ _))).
  all: try (by eapply (table_complete_delete _ _ _ (mkSession _ _ _ _ _ _ _));
              [eassumption|done|done|done]).
Qed.

(** *** [Stop] *)

Lemma step_stop_waited a w w' :
  step a w = Some w' → start_ok w → stop_waited w → stop_waited w'.
Proof.
  intros Hstep (Hstarted & Hconn & Hmwg) (Hlistener & Hgone). unfold stop_waited.
  step_cases Hstep.
  all: unfold deadline_now, close_conn, conn_closed in *.
  all: cbn [stop_before_wait stop_past_ingress ingress_running orb] in *.
  all: repeat match goal with
              | H : ?x = ?x → _ |- _ => specialize (H eq_refl)
              | x : option UDPConn |- _ => destruct x as [[? ?]|]
              | x : bool |- _ => destruct x
              end.
  all: simplify_eq/=.
  all: try (split; [try done; try (intros _; by apply Hlistener)
                   |try done; try (intros _; by apply Hgone)]).
  all: try (intuition (try congruence; try discriminate); fail).
  all: intros _; destruct ingress0; simplify_eq/=; try done.
  all: exfalso; by apply Hlistener, Hconn.
Qed.

Ltac lookup_cases H :=
  repeat first
    [ apply list_lookup_insert_Some in H as [(-> & <- & ?)|(? & H)]
    | apply lookup_app_Some in H as [H|[? H]]
    | apply list_lookup_singleton_Some in H as [? <-] ].

Lemma elem_of_table_keys (t : gmap N nat) csid i :
  t !! csid = Some i → csid ∈ (map_to_list t).*1.
Proof.
  intros Hi. apply list_elem_of_fmap. exists (csid, i). split; [done|].
  by apply elem_of_map_to_list.
Qed.

Lemma before_swap_before_delete pc : before_swap pc = true → before_delete pc = true.
Proof. by destruct pc. Qed.

Lemma stop_marked_past pc csid : stop_marked pc csid = true → stop_past_ingress pc = true.
Proof. by destruct pc. Qed.

Lemma conn_closed_deadline_now c : conn_closed (deadline_now c) = conn_closed c.
Proof. by destruct c. Qed.

Lemma conn_closed_close_conn c : c ≠ None → conn_closed (close_conn c) = true.
Proof. by destruct c. Qed.

(** A live session other than the table's entry for [csid] has another
    session ID. *)
Lemma marked_other t ss csid i todo j sj (c : bool) :
  table_complete t ss →
  t !! csid = Some i → ss !! j = Some sj → i ≠ j →
  before_swap (s_pc sj) = true →
  bool_decide (s_csid sj ∉ todo) || c = true →
  bool_decide (s_csid sj ∉ csid :: todo) || c = true.
Proof.
  intros Hc Hi Hj Hne Hpre Hmark.
  apply orb_true_iff in Hmark as [Hm|Hm]; [|by rewrite Hm, orb_true_r].
  apply bool_decide_eq_true in Hm. rewrite bool_decide_eq_true_2; [done|].
  intros [Heq|Hin]%elem_of_cons; [|done].
  pose proof (Hc j sj Hj (before_swap_before_delete _ Hpre)) as Htj.
  rewrite Heq in Htj. congruence.
Qed.

Lemma step_marked_ok a w w' :
  step a w = Some w' →
  stop_waited w → table_complete (table w) (sessions w) →
  marked_ok w → marked_ok w'.
Proof.
  intros Hstep (Hlistener & Hgone) Hcomplete Hinv. unfold marked_ok in *.
  step_cases Hstep.
  all: intros j sj Hj Hpre Hmark; relay_simpl.
  all: rewrite ?conn_closed_deadline_now in Hmark.
  all: lookup_cases Hj; relay_simpl.
  all: try (by eapply Hinv; eauto).
  all: try match goal with
           | Hs : _ !! _ = Some _ |- _ => by apply (Hinv _ _ Hs)
           end.
  all: try done.
  all: try (eapply Hinv; [eassumption|eassumption|];
            apply orb_true_iff in Hmark as [Hm|Hm];
            cbn [stop_marked] in *; rewrite ?Hm, ?orb_true_r; done).
  all: try (eapply Hinv; [eassumption|eassumption|];
            cbn [stop_marked] in *; by eapply marked_other).
  - (* a new session: the ingress loop is still there *)
    exfalso. apply orb_true_iff in Hmark as [Hm|Hm].
    + apply stop_marked_past in Hm. rewrite Hm in Hgone. by specialize (Hgone eq_refl).
    + rewrite Hm, orb_true_r in Hgone. by specialize (Hgone eq_refl).
  - (* Stop takes the lock: every live session is among the keys *)
    cbn [stop_marked] in *.
    apply orb_true_iff in Hmark as [Hm|Hm]; [|by eapply Hinv; eauto].
    apply bool_decide_eq_true in Hm. destruct Hm.
    eapply elem_of_table_keys, Hcomplete; [done|].
    by apply before_swap_before_delete.
  - (* the session whose socket Stop found in [state] *)
    cbn [stop_marked] in *.
    apply list_lookup_insert_Some in Heqo2 as [(-> & Heq & _)|(Hne & Heqo2)];
      [unfold set_s_state in Heq; by injection Heq as _ <- _ _ _ _ _|].
    apply (Hinv _ _ Heqo2 Hpre). by eapply marked_other.
Qed.

Lemma sum_list_with_zero {A} (f : A → nat) l i x :
  sum_list_with f l = 0 → l !! i = Some x → f x = 0.
Proof.
  revert i. induction l as [|a l IH]; intros [|i] Hsum Hi; simplify_eq/=; [lia|].
  apply (IH i); [lia|done].
Qed.

Lemma workers_zero_no_relay ss i s :
  sum_list_with session_workers ss = 0 → ss !! i = Some s →
  s_pc s ≠ SessDownlink ∧ (s_up s = UpNotStarted ∨ s_up s = UpFinished).
Proof.
  intros Hzero Hs.
  pose proof (sum_list_with_zero session_workers _ _ _ Hzero Hs) as Hw.
  unfold session_workers in Hw.
  destruct (s_pc s), (s_up s); simpl in Hw; try lia; split; auto; done.
Qed.

Lemma step_quiesced a w w' :
  step a w = Some w' →
  wg w = workers w → marked_ok w →
  quiesced w → quiesced w'.
Proof.
  intros Hstep Hwg Hmarked Hinv. unfold quiesced, marked_ok, no_relay, workers in *.
  step_cases Hstep.
  all: try done.
  all: rewrite ?conn_closed_deadline_now.
  all: intros Hprem j sj Hj; relay_simpl.
  all: try (by eapply workers_zero_no_relay; eauto).
  (* the premise held before the step *)
  all: match type of Hinv with
       | ?P → _ =>
           assert P as Hold
             by first [by left | destruct Hprem as [?|?]; [by left|(by right) || done]]
       end.
  all: specialize (Hinv Hold).
  all: try match type of Hold with
       | ?pc = StopClose ∨ conn_closed ?c = true =>
           assert (∀ csid, stop_marked pc csid || conn_closed c = true) as Hm
             by (intros ?; destruct Hold as [Hold|Hold]; rewrite Hold;
                 [done|by rewrite orb_true_r])
       end.
  all: lookup_cases Hj; relay_simpl.
  all: try (by eapply Hinv; eauto).
  all: repeat match goal with
              | Hs : _ !! ?i = Some ?s |- _ =>
                  lazymatch goal with
                  | _ : s_pc s ≠ SessDownlink ∧ _ |- _ => fail
                  | _ => pose proof (Hinv i s Hs)
                  end
              end.
  all: try match goal with
           | Hs : _ !! ?i = Some ?s |- _ =>
               by destruct (Hmarked i s Hs eq_refl (Hm _))
           end.
  all: relay_simpl; try (intuition (try congruence; try discriminate); fail).
  apply list_lookup_insert_Some in Heqo2 as [(-> & Heq & _)|(Hne & Heqo2)].
  - unfold set_s_state in Heq. by injection Heq as _ _ _ _ _ <- <-.
  - apply (Hinv _ _ Heqo2).
Qed.

(** *** Every reachable state *)

Lemma relay_inv_init capacity : relay_inv (NewUDPSessionRelay capacity).
Proof.
  unfold relay_inv, NewUDPSessionRelay. split_and!; try done.
  all: by intros i s Hs.
Qed.

Lemma step_relay_inv a w w' : step a w = Some w' → relay_inv w → relay_inv w'.
Proof.
  intros Hstep (Hstart & Hlock & Hsess & Hwg & Htable & Hcomplete & Hwaited & Hmarked & Hq).
  split_and!.
  - by eapply step_start_ok.
  - by eapply step_lock_holders.
  - by eapply step_sessions_ok.
  - by eapply step_workers.
  - by eapply step_table_ok.
  - by eapply step_table_complete.
  - by eapply step_stop_waited.
  - by eapply step_marked_ok.
  - by eapply step_quiesced.
Qed.

Lemma reachable_relay_inv w : reachable w → relay_inv w.
Proof. apply reachable_invariant; [apply relay_inv_init|apply step_relay_inv]. Qed.


Lemma run_app acts1 acts2 w :
  run (acts1 ++ acts2) w = w1 ← run acts1 w; run acts2 w1.
Proof.
  revert w. induction acts1 as [|a acts1 IH]; intros w; simpl; [done|].
  destruct (step a w) as [w1|]; simpl; [apply IH|done].
Qed.

Lemma reachable_run acts w w' : reachable w → run acts w = Some w' → reachable w'.
Proof.
  intros (capacity & acts0 & Hrun0) Hrun. exists capacity, (acts0 ++ acts).
  by rewrite run_app, Hrun0.
Qed.

(** *** Once [Stop] is past [s.mwg.Wait()] *)

(** [Stop] does not go back, and the listener it has closed stays
    closed. *)
Lemma step_past_ingress_stable a w w' :
  step a w = Some w' → start_ok w → stop_waited w →
  stop_past_ingress (stop w) || conn_closed (serverConn w) = true →
  stop_past_ingress (stop w') || conn_closed (serverConn w') = true.
Proof.
  intros Hstep (Hstarted & Hconn & _) (Hlistener & _) Hpast.
  step_cases Hstep.
  all: rewrite ?conn_closed_deadline_now.
  all: try done.
  all: cbn [stop_past_ingress stop_before_wait orb] in *.
  all: try (specialize (Hstarted eq_refl); subst; destruct Hconn as [Hconn _];
            by rewrite (Hconn eq_refl) in Hpast).
  all: try (rewrite conn_closed_close_conn; [done|by apply Hlistener]).
Qed.

(** The ingress loop has exited: no step makes a session object or
    adds an entry to the table. *)
Lemma step_past_ingress a w w' :
  step a w = Some w' → start_ok w → stop_waited w →
  stop_past_ingress (stop w) || conn_closed (serverConn w) = true →
  ingress w' = IngressFinished
  ∧ length (sessions w') = length (sessions w)
  ∧ ∀ csid i, table w' !! csid = Some i → table w !! csid = Some i.
Proof.
  intros Hstep (Hstarted & _) (_ & Hgone) Hpast.
  assert (ingress w = IngressFinished) as Hing by (by apply Hgone).
  clear Hgone Hpast.
  step_cases Hstep.
  all: try done.
  all: rewrite ?length_insert.
  all: try (split_and!; [done..|]; intros csid' i' Hlook; try done).
  all: try (by apply lookup_delete_Some in Hlook as [_ ?]).
  all: by specialize (Hstarted eq_refl).
Qed.




(** X22. The lock of [s.server].  In every state a relay can reach, at
    most one goroutine is between [s.server.Lock()] and
    [s.server.Unlock()], be it the ingress loop, [Stop], or the teardown
    of a session, and the lock is taken exactly when one is: no
    goroutine unlocks a lock it does not hold. *)
Theorem server_lock_held_by_one w :
  reachable w → lock_holders w = Nat.b2n (lock w).
Proof. intros Hreach. apply (reachable_relay_inv w Hreach). Qed.

Lemma server_lock_held_by_one_witness :
  ∃ w, run second_packet (NewUDPSessionRelay 16) = Some w
       ∧ lock_holders w = Nat.b2n (lock w).
Proof.
  destruct (run second_packet (NewUDPSessionRelay 16)) as [w|] eqn:Hrun;
    [|vm_compute in Hrun; discriminate].
  exists w. split; [reflexivity|].
  apply (server_lock_held_by_one w). by exists 16, second_packet.
Defined.

(** X23. No send on a closed channel.  Whenever the ingress loop holds
    the lock with a packet of a session that the table has, the
    [natConnSendCh] of that session is not closed, so the send in the
    [select] cannot panic. *)
Theorem ingress_send_channel_open w csid i s :
  reachable w →
  ingress w = IngressLocked csid →
  table w !! csid = Some i →
  sessions w !! i = Some s →
  ch_closed (s_sendCh s) = false.
Proof.
  intros Hreach Hing Hi Hs.
  destruct (reachable_relay_inv w Hreach)
    as (_ & Hlock & Hsess & _ & Htable & _).
  destruct (Htable csid i Hi) as (s' & Hs' & _ & Hlive).
  assert (s' = s) as -> by congruence.
  pose proof (proj1 (Forall_lookup _ _) Hsess i s Hs) as Hok.
  unfold lock_holders in Hlock. rewrite Hing in Hlock. cbn [ingress_in_lock] in Hlock.
  assert (sum_list_with session_in_lock (sessions w) = 0) as Hzero
    by (destruct (lock w); simpl in Hlock; lia).
  pose proof (sum_list_with_zero session_in_lock _ _ _ Hzero Hs) as Hout.
  unfold session_ok in Hok. apply andb_true_iff in Hok as [Hch _].
  apply bool_decide_eq_true in Hch. rewrite Hch.
  unfold session_in_lock in Hout. by destruct (s_pc s).
Qed.

Lemma ingress_send_channel_open_witness :
  ∃ w s, run second_packet (NewUDPSessionRelay 16) = Some w
         ∧ sessions w !! 0 = Some s
         ∧ ch_closed (s_sendCh s) = false.
Proof.
  destruct (run second_packet (NewUDPSessionRelay 16)) as [w|] eqn:Hrun;
    [|vm_compute in Hrun; discriminate].
  destruct (sessions w !! 0) as [s|] eqn:Hs;
    [|vm_compute in Hrun; injection Hrun as <-; vm_compute in Hs; discriminate].
  exists w, s. split; [reflexivity|]. split; [exact Hs|].
  apply (ingress_send_channel_open w 7%N 0 s).
  - by exists 16, second_packet.
  - vm_compute in Hrun. injection Hrun as <-. reflexivity.
  - vm_compute in Hrun. injection Hrun as <-. reflexivity.
  - exact Hs.
Defined.

(** X24. What the wait groups count.  In every state a relay can reach,
    [s.wg] is the number of goroutines between an [s.wg.Add(1)] and its
    [s.wg.Done()], and [s.mwg] is 1 while the ingress goroutine has
    not executed its [s.mwg.Done()] and 0 otherwise. *)
Theorem wait_groups_count w :
  reachable w → wg w = workers w ∧ mwg w = ingress_running (ingress w).
Proof.
  intros Hreach.
  destruct (reachable_relay_inv w Hreach) as ((_ & _ & Hmwg) & _ & _ & Hwg & _).
  done.
Qed.

Lemma wait_groups_count_witness :
  ∃ w, run second_packet (NewUDPSessionRelay 16) = Some w
       ∧ wg w = workers w ∧ mwg w = ingress_running (ingress w).
Proof.
  destruct (run second_packet (NewUDPSessionRelay 16)) as [w|] eqn:Hrun;
    [|vm_compute in Hrun; discriminate].
  exists w. split; [reflexivity|].
  apply (wait_groups_count w). by exists 16, second_packet.
Defined.

(** X25. No [Done] without its [Add].  Every [s.wg.Done()] of a session's
    goroutine or of an uplink, and the [s.mwg.Done()] of the ingress
    goroutine, finds its counter positive: a wait group counter never
    goes negative. *)
Theorem wait_group_Done_after_Add w a w' :
  reachable w →
  step a w = Some w' →
  match a with
  | ActSessWgDone _ | ActUpWgDone _ => wg w = S (wg w')
  | ActIngressDone => mwg w = S (mwg w')
  | _ => True
  end.
Proof.
  intros Hreach Hstep.
  destruct (reachable_relay_inv w Hreach) as ((_ & _ & Hmwg) & _ & _ & Hwg & _).
  unfold workers in Hwg.
  destruct a; try done; simpl in Hstep.
  - destruct (ingress w); try done. injection Hstep as <-. simpl in *. lia.
  - session_step Hstep. relay_simpl.
    pose proof (sum_list_with_lookup_le session_workers _ _ _ Hs) as Hsum.
    assert (1 ≤ session_workers s) by (unfold session_workers; rewrite Hpc; lia).
    lia.
  - session_step Hstep. relay_simpl.
    pose proof (sum_list_with_lookup_le session_workers _ _ _ Hs) as Hsum.
    assert (1 ≤ session_workers s)
      by (unfold session_workers; rewrite Hpc; destruct (s_pc s); lia).
    lia.
Qed.

Lemma wait_group_Done_after_Add_witness :
  ∃ w w', run (take 17 stop_during_teardown) (NewUDPSessionRelay 16) = Some w
          ∧ step (ActSessWgDone 0) w = Some w'
          ∧ wg w = S (wg w').
Proof.
  destruct (run (take 17 stop_during_teardown) (NewUDPSessionRelay 16)) as [w|] eqn:Hrun;
    [|vm_compute in Hrun; discriminate].
  destruct (step (ActSessWgDone 0) w) as [w'|] eqn:Hstep;
    [|vm_compute in Hrun; injection Hrun as <-; vm_compute in Hstep; discriminate].
  exists w, w'. split; [reflexivity|]. split; [exact Hstep|].
  apply (wait_group_Done_after_Add w (ActSessWgDone 0) w').
  - by exists 16, (take 17 stop_during_teardown).
  - exact Hstep.
Defined.

(** X26. One live session for a session ID.  In every state a relay can
    reach, a session object whose goroutine has not yet executed its
    [delete(s.table, csid)] is the table's entry for its client session
    ID, and no other such session object has that ID: the packets of a
    client session never go to two sessions. *)
Theorem live_sessions_unique w i s :
  reachable w →
  sessions w !! i = Some s →
  before_delete (s_pc s) = true →
  table w !! s_csid s = Some i
  ∧ ∀ j s', sessions w !! j = Some s' → before_delete (s_pc s') = true →
      s_csid s' = s_csid s → j = i.
Proof.
  intros Hreach Hs Hlive.
  destruct (reachable_relay_inv w Hreach) as (_ & _ & _ & _ & _ & Hcomplete & _).
  pose proof (Hcomplete i s Hs Hlive) as Hi.
  split; [done|]. intros j s' Hs' Hlive' Hcsid.
  pose proof (Hcomplete j s' Hs' Hlive') as Hj.
  congruence.
Qed.

Lemma live_sessions_unique_witness :
  ∃ w s0 s1, run session_reopened (NewUDPSessionRelay 16) = Some w
    ∧ sessions w !! 0 = Some s0 ∧ s_csid s0 = 7%N ∧ before_delete (s_pc s0) = false
    ∧ sessions w !! 1 = Some s1 ∧ s_csid s1 = 7%N
    ∧ table w !! s_csid s1 = Some 1
    ∧ ∀ j s', sessions w !! j = Some s' → before_delete (s_pc s') = true →
        s_csid s' = s_csid s1 → j = 1.
Proof.
  destruct (run session_reopened (NewUDPSessionRelay 16)) as [w|] eqn:Hrun;
    [|vm_compute in Hrun; discriminate].
  destruct (sessions w !! 0) as [s0|] eqn:Hs0;
    [|vm_compute in Hrun; injection Hrun as <-; vm_compute in Hs0; discriminate].
  destruct (sessions w !! 1) as [s1|] eqn:Hs1;
    [|vm_compute in Hrun; injection Hrun as <-; vm_compute in Hs1; discriminate].
  assert (s_csid s0 = 7%N ∧ before_delete (s_pc s0) = false
          ∧ s_csid s1 = 7%N ∧ before_delete (s_pc s1) = true)
    as (Hc0 & Hd0 & Hc1 & Hlive).
  { vm_compute in Hrun. injection Hrun as <-.
    vm_compute in Hs0. injection Hs0 as <-.
    vm_compute in Hs1. injection Hs1 as <-. done. }
  exists w, s0, s1. split; [reflexivity|].
  split; [exact Hs0|]. split; [exact Hc0|]. split; [exact Hd0|].
  split; [exact Hs1|]. split; [exact Hc1|].
  apply (live_sessions_unique w 1 s1).
  - by exists 16, session_reopened.
  - exact Hs1.
  - exact Hlive.
Defined.

(** X27. No upstream socket is left open.  In every state a relay can
    reach, a session's [natConn] that is open belongs to a session
    whose goroutine is about to publish it, and will close it if
    [Stop] was there first, or whose uplink is running or about to
    close it; the channel of a session is closed exactly from the
    [close] of its teardown on. *)
Theorem natConn_open_has_closer w i s :
  reachable w →
  sessions w !! i = Some s →
  (conn_open (s_natConn s) = true →
   (s_pc s = SessSwap ∧ s_up s = UpNotStarted) ∨ s_up s = UpRunning ∨ s_up s = UpClosing)
  ∧ ch_closed (s_sendCh s) = negb (before_close (s_pc s)).
Proof.
  intros Hreach Hs.
  destruct (reachable_relay_inv w Hreach) as (_ & _ & Hsess & _).
  pose proof (proj1 (Forall_lookup _ _) Hsess i s Hs) as Hok.
  unfold session_ok in Hok. apply andb_true_iff in Hok as [Hch Hok].
  apply bool_decide_eq_true in Hch. split; [|done].
  intros Hopen. rewrite Hopen in Hok.
  destruct (s_up s), (s_pc s); simpl in Hok; auto; try done.
  all: apply bool_decide_eq_true in Hok; rewrite Hok in Hopen; done.
Qed.

Lemma natConn_open_has_closer_witness :
  ∃ w s, run second_packet (NewUDPSessionRelay 16) = Some w
         ∧ sessions w !! 0 = Some s
         ∧ (conn_open (s_natConn s) = true →
            (s_pc s = SessSwap ∧ s_up s = UpNotStarted)
            ∨ s_up s = UpRunning ∨ s_up s = UpClosing)
         ∧ ch_closed (s_sendCh s) = negb (before_close (s_pc s)).
Proof.
  destruct (run second_packet (NewUDPSessionRelay 16)) as [w|] eqn:Hrun;
    [|vm_compute in Hrun; discriminate].
  destruct (sessions w !! 0) as [s|] eqn:Hs;
    [|vm_compute in Hrun; injection Hrun as <-; vm_compute in Hs; discriminate].
  exists w, s. split; [reflexivity|]. split; [exact Hs|].
  apply (natConn_open_has_closer w 0 s).
  - by exists 16, second_packet.
  - exact Hs.
Defined.

(** X28. A session that [Stop] has marked never relays.  Once [Stop] has
    left its loop over the table, the [entry.state.Swap(natConn)] of
    any session still in its setup finds [state] set: the session
    closes its socket, starts no uplink, adds nothing to [s.wg] and
    returns. *)
Theorem Stop_marked_session_never_relays w i w' :
  reachable w →
  stop w = StopWaitSessions ∨ stop w = StopClose ∨ conn_closed (serverConn w) = true →
  step (ActSessSwap i) w = Some w' →
  ∃ s', sessions w' !! i = Some s'
        ∧ s_pc s' = SessWgDone
        ∧ s_up s' = UpNotStarted
        ∧ conn_open (s_natConn s') = false
        ∧ wg w' = wg w.
Proof.
  intros Hreach Hpast Hstep.
  destruct (reachable_relay_inv w Hreach)
    as (_ & _ & Hsess & _ & _ & _ & _ & Hmarked & _).
  simpl in Hstep. session_step Hstep.
  pose proof (proj1 (Forall_lookup _ _) Hsess i s Hs) as Hok.
  assert (s_state s ≠ None) as Hstate.
  { apply (Hmarked i s Hs); [by rewrite Hpc|].
    destruct Hpast as [Hp|[Hp|Hp]]; rewrite Hp; [done|done|by rewrite orb_true_r]. }
  destruct (s_state s) as [st|]; [|done].
  eexists. relay_simpl. split.
  { apply list_lookup_insert_eq. by eapply lookup_lt_Some. }
  relay_simpl. unfold session_ok in Hok. rewrite Hpc in Hok.
  apply andb_true_iff in Hok as [_ Hok].
  destruct (s_up s), (s_natConn s) as [[d []]|]; simpl in Hok; try done.
Qed.

Lemma Stop_marked_session_never_relays_witness :
  ∃ w w', run stop_before_setup (NewUDPSessionRelay 16) = Some w
          ∧ step (ActSessSwap 0) w = Some w'
          ∧ ∃ s', sessions w' !! 0 = Some s'
                  ∧ s_pc s' = SessWgDone
                  ∧ s_up s' = UpNotStarted
                  ∧ conn_open (s_natConn s') = false
                  ∧ wg w' = wg w.
Proof.
  destruct (run stop_before_setup (NewUDPSessionRelay 16)) as [w|] eqn:Hrun;
    [|vm_compute in Hrun; discriminate].
  destruct (step (ActSessSwap 0) w) as [w'|] eqn:Hstep;
    [|vm_compute in Hrun; injection Hrun as <-; vm_compute in Hstep; discriminate].
  exists w, w'. split; [reflexivity|]. split; [exact Hstep|].
  apply (Stop_marked_session_never_relays w 0 w').
  - by exists 16, stop_before_setup.
  - left. vm_compute in Hrun. injection Hrun as <-. reflexivity.
  - exact Hstep.
Defined.

(** X29. [Stop] closes the listener last.  In every state in which
    [serverConn] is closed, the ingress loop has exited and no
    goroutine is in a relay loop: no session is in its downlink loop
    and no uplink is between its start and its [s.wg.Done()]; the
    sessions that come out of their setup later do not relay. *)
Theorem Stop_closes_listener_last w :
  reachable w →
  conn_closed (serverConn w) = true →
  ingress w = IngressFinished
  ∧ ∀ i s, sessions w !! i = Some s →
      s_pc s ≠ SessDownlink ∧ (s_up s = UpNotStarted ∨ s_up s = UpFinished).
Proof.
  intros Hreach Hclosed.
  destruct (reachable_relay_inv w Hreach)
    as (_ & _ & _ & _ & _ & _ & (_ & Hgone) & _ & Hq).
  split.
  - apply Hgone. by rewrite Hclosed, orb_true_r.
  - apply Hq. by right.
Qed.

Lemma Stop_closes_listener_last_witness :
  ∃ w, run stop_during_teardown (NewUDPSessionRelay 16) = Some w
       ∧ ingress w = IngressFinished
       ∧ ∀ i s, sessions w !! i = Some s →
           s_pc s ≠ SessDownlink ∧ (s_up s = UpNotStarted ∨ s_up s = UpFinished).
Proof.
  destruct (run stop_during_teardown (NewUDPSessionRelay 16)) as [w|] eqn:Hrun;
    [|vm_compute in Hrun; discriminate].
  exists w. split; [reflexivity|].
  apply (Stop_closes_listener_last w).
  - by exists 16, stop_during_teardown.
  - vm_compute in Hrun. injection Hrun as <-. reflexivity.
Defined.

(** X30. No new session once [Stop] is past [s.mwg.Wait()].  From then
    on, while [Stop] goes on and after it has closed the listener and
    returned, the ingress loop has exited, and no step of any goroutine
    makes a session object or adds an entry to the table; and the same
    holds again after the step. *)
Theorem Stop_no_new_sessions w a w' :
  reachable w →
  stop_past_ingress (stop w) || conn_closed (serverConn w) = true →
  step a w = Some w' →
  ingress w' = IngressFinished
  ∧ length (sessions w') = length (sessions w)
  ∧ (∀ csid i, table w' !! csid = Some i → table w !! csid = Some i)
  ∧ stop_past_ingress (stop w') || conn_closed (serverConn w') = true.
Proof.
  intros Hreach Hpast Hstep.
  destruct (reachable_relay_inv w Hreach) as (Hstart & _ & _ & _ & _ & _ & Hwaited & _).
  destruct (step_past_ingress a w w' Hstep Hstart Hwaited Hpast) as (Hing & Hlen & Hsub).
  split_and!; try done.
  by eapply step_past_ingress_stable.
Qed.

Lemma Stop_no_new_sessions_witness :
  ∃ w w', run stop_during_init (NewUDPSessionRelay 16) = Some w
          ∧ stop w = StopReturned None
          ∧ step (ActSessRouter 0 true) w = Some w'
          ∧ ingress w' = IngressFinished
          ∧ length (sessions w') = length (sessions w)
          ∧ (∀ csid i, table w' !! csid = Some i → table w !! csid = Some i)
          ∧ stop_past_ingress (stop w') || conn_closed (serverConn w') = true.
Proof.
  destruct (run stop_during_init (NewUDPSessionRelay 16)) as [w|] eqn:Hrun;
    [|vm_compute in Hrun; discriminate].
  destruct (step (ActSessRouter 0 true) w) as [w'|] eqn:Hstep;
    [|vm_compute in Hrun; injection Hrun as <-; vm_compute in Hstep; discriminate].
  exists w, w'. split; [reflexivity|].
  split; [vm_compute in Hrun; injection Hrun as <-; reflexivity|].
  split; [exact Hstep|].
  apply (Stop_no_new_sessions w (ActSessRouter 0 true) w').
  - by exists 16, stop_during_init.
  - vm_compute in Hrun. injection Hrun as <-. reflexivity.
  - exact Hstep.
Defined.

(** ** C2: what [Stop] leaves in the table *)


